(** * FunctionAnalyzer: the analysis script of [function_analyzer.py]
      and the application [app.py] that runs it

    The script is a straight-line Streamlit program around SymPy and NumPy:
    it parses one expression, chooses the 1D or the 2D branch from the free
    variables among [x] and [y], and runs a sequence of analysis steps, some
    of them inside [try]/[except] and some not.  [app.py] keeps accounts
    in a CSV file, routes a session to the login page, the admin panel or
    the loader, and the loader executes the script; it is embedded after
    the script, over an interface of its own for pandas and bcrypt.

    The embedding keeps that shape.  SymPy, NumPy and Matplotlib are
    external libraries: they are an interface ([Libraries] below) whose
    operations either return or raise.  The script itself is a computation
    in a small monad that threads the Streamlit output (a list of events),
    the module namespace (the one variable the script may read before it is
    assigned, [derivative]) and the way the run ends (completed, stopped by
    [st.stop()], or an uncaught exception).  Library calls are total
    functions here: a call that never returns has no counterpart in the
    model, and a call with the same arguments gives the same answer. *)

From Stdlib Require Import List String Ascii ZArith QArith Bool DecimalString Lia.
Import ListNotations.
Local Open Scope string_scope.

(** ** Python values shared by the script and the libraries *)

(** A SymPy symbol, identified by its name. *)
Definition symbol := string.

(** A raised Python exception, kept as its message [str(e)].  Every
    exception of the libraries derives from [Exception]. *)
Definition exn := string.

Inductive result (A : Type) : Type :=
| Ok (a : A)
| Raise (e : exn).
Arguments Ok {A} a.
Arguments Raise {A} e.

Definition rbind {A B} (r : result A) (k : A -> result B) : result B :=
  match r with
  | Ok a => k a
  | Raise e => Raise e
  end.

Declare Scope result_scope.
Delimit Scope result_scope with res.
Notation "x <~ r ; k" := (rbind r (fun x => k))
  (at level 61, r at next level, right associativity) : result_scope.

(** [[g(v) for v in l]] where [g] may raise: the first exception ends the
    comprehension. *)
Fixpoint rmap {A B} (g : A -> result B) (l : list A) : result (list B) :=
  match l with
  | [] => Ok []
  | a :: l' =>
      match g a with
      | Ok b =>
          match rmap g l' with
          | Ok bs => Ok (b :: bs)
          | Raise e => Raise e
          end
      | Raise e => Raise e
      end
  end.

(** A NumPy float64 as far as the script looks at it: a finite value, one of
    the two infinities, or NaN.  Finite values are exact rationals (rounding
    is not modelled). *)
Inductive npfloat : Type :=
| Fin (q : Q)
| PInf
| NInf
| NaN.

(** [np.isfinite] *)
Definition isfinite (v : npfloat) : bool :=
  match v with
  | Fin _ => true
  | _ => false
  end.

(** [np.linspace(a, b, n)]: [n] evenly spaced points, both ends included. *)
Definition linspace (a b : Q) (n : nat) : list Q :=
  match n with
  | O => []
  | S O => [a]
  | S m =>
      let step := (b - a) / inject_Z (Z.of_nat m) in
      map (fun i => Qred (a + inject_Z (Z.of_nat i) * step)) (seq 0 n)
  end.

(** [np.meshgrid(r, r)]: [X[i][j] = r[j]], [Y[i][j] = r[i]]. *)
Definition meshgrid (r : list Q) : list (list Q) * list (list Q) :=
  (map (fun _ => r) r, map (fun yi => map (fun _ => yi) r) r).

(** The data of a figure: the line of the 1D plot with its legend label, or
    the grid of the 2D surface. *)
Inductive figure : Type :=
| LinePlot (xs : list Q) (ys : list npfloat) (label : string)
| SurfacePlot (X Y : list (list Q)) (Z : list (list npfloat)).

(** ** The libraries as an interface *)

Class Libraries : Type := {
  (** [sympy.Basic] objects and [sympy.Set] objects *)
  Expr : Type;
  RSet : Type;

  (** [sp.sympify(s)] *)
  sympify : string -> result Expr;
  (** [e.free_symbols], as the names of the symbols *)
  free_symbols : Expr -> list symbol;
  (** [str(e)] on expressions and on sets *)
  str : Expr -> string;
  str_set : RSet -> string;
  (** [e1 == e2] (structural) *)
  expr_eqb : Expr -> Expr -> bool;

  (** [sp.symbols(name)], [sp.oo], unary minus, product, [sp.cos], [sp.sin],
      and the SymPy image of a Python [int] *)
  sym : symbol -> Expr;
  oo : Expr;
  neg : Expr -> Expr;
  mul : Expr -> Expr -> Expr;
  cos : Expr -> Expr;
  sin : Expr -> Expr;
  of_int : Z -> Expr;

  (** [sp.S.Reals], [sp.Interval(a, b)], [s1 - s2], [s1.union(s2)],
      [s.is_EmptySet] (a fuzzy boolean: [None] when SymPy cannot tell),
      [s1 == s2] *)
  Reals : RSet;
  Interval : Expr -> Expr -> RSet;
  set_sub : RSet -> RSet -> RSet;
  set_union : RSet -> RSet -> RSet;
  is_EmptySet : RSet -> option bool;
  set_eqb : RSet -> RSet -> bool;

  (** [sp.calculus.util.continuous_domain(e, v, dom)] *)
  continuous_domain : Expr -> symbol -> RSet -> result RSet;
  (** [sp.diff(e, v1, ..., vn)] *)
  diff : Expr -> list symbol -> result Expr;
  (** [sp.limit(e, v, point)] *)
  limit : Expr -> symbol -> Expr -> result Expr;
  (** [sp.solve(e, v, domain=sp.S.Reals)]: a list of roots *)
  solve : Expr -> symbol -> result (list Expr);
  (** [sp.solve([e1, e2], (v1, v2), dict=True)]: a list of dictionaries *)
  solve_system : list Expr -> symbol * symbol -> result (list (list (symbol * Expr)));
  (** [e.subs(d)] and [e.subs(v, p)], which is [e.subs({v: p})] *)
  subs : Expr -> list (symbol * Expr) -> result Expr;
  (** [e.evalf()] *)
  evalf : Expr -> result Expr;
  (** [bool(a > b)] and [bool(a < b)]: SymPy raises [TypeError] when the
      relation cannot be decided or an operand is not real *)
  gt : Expr -> Expr -> result bool;
  lt : Expr -> Expr -> result bool;
  (** [sp.Matrix([[a, b], [c, d]]).det()] *)
  det2 : Expr -> Expr -> Expr -> Expr -> result Expr;
  (** [format(e, ".4f")] *)
  format4f : Expr -> result string;

  (** [sp.lambdify(v, e, modules="numpy")] and
      [sp.lambdify((v1, v2), e, modules="numpy")]: building the function may
      raise, and so may each call of it.  The two-argument function is
      applied to arrays by the script; the model applies it entry by
      entry. *)
  lambdify1 : symbol -> Expr -> result (Q -> result npfloat);
  lambdify2 : symbol * symbol -> Expr -> result (Q -> Q -> result npfloat);

  (** Matplotlib drawing a figure from its data and [st.pyplot] showing
      it *)
  pyplot : figure -> result unit
}.

(** ** What the script shows *)

Inductive event : Type :=
| Title (s : string)
| TextInput (label default : string)
| Header (s : string)
| Subheader (s : string)
| Success (s : string)
| Warning (s : string)
| Info (s : string)
| Error (s : string)
| Code (s : string)
| Write (s : string)
| Pyplot (fig : figure).

(** How a run ends. *)
Inductive outcome (A : Type) : Type :=
| Done (a : A)
| Uncaught (e : exn)
| Stopped.
Arguments Done {A} a.
Arguments Uncaught {A} e.
Arguments Stopped {A}.

(** ** The script monad *)

Section Script.
Context {cas : Libraries}.

(** The state a run threads: what has been shown so far, and the module
    variable [derivative], which line 57 reads although only line 44, inside
    an earlier [try], assigns it. *)
Record world : Type := {
  out : list event;
  derivative : option Expr
}.

Definition M (A : Type) : Type := world -> outcome A * world.

Definition ret {A} (a : A) : M A := fun w => (Done a, w).

Definition bind {A B} (m : M A) (k : A -> M B) : M B :=
  fun w =>
    match m w with
    | (Done a, w') => k a w'
    | (Uncaught e, w') => (Uncaught e, w')
    | (Stopped, w') => (Stopped, w')
    end.

(** A call into Streamlit that shows something. *)
Definition emit (ev : event) : M unit :=
  fun w => (Done tt, {| out := out w ++ [ev]; derivative := derivative w |}).

(** A call into SymPy, NumPy or Matplotlib. *)
Definition call {A} (r : result A) : M A :=
  fun w =>
    match r with
    | Ok a => (Done a, w)
    | Raise e => (Uncaught e, w)
    end.

(** [st.stop()] *)
Definition stop {A} : M A := fun w => (Stopped, w).

(** [try: body  except ... as e: handler].  What the body showed and assigned
    before it raised stays. *)
Definition try_except {A} (body : M A) (handler : exn -> M A) : M A :=
  fun w =>
    match body w with
    | (Uncaught e, w') => handler e w'
    | r => r
    end.

Definition assign_derivative (d : Expr) : M unit :=
  fun w => (Done tt, {| out := out w; derivative := Some d |}).

(** Reading [derivative]: a [NameError] when nothing assigned it. *)
Definition read_derivative : M Expr :=
  fun w =>
    match derivative w with
    | Some d => (Done d, w)
    | None => (Uncaught "name 'derivative' is not defined", w)
    end.

Declare Scope script_scope.
Delimit Scope script_scope with script.
Notation "x <- m ;; k" := (bind m (fun x => k))
  (at level 61, m at next level, right associativity) : script_scope.
Notation "m ;; k" := (bind m (fun _ => k))
  (at level 61, right associativity) : script_scope.
Local Open Scope script_scope.

(** [for a in l: body(a)] *)
Fixpoint for_each {A} (l : list A) (body : A -> M unit) : M unit :=
  match l with
  | [] => ret tt
  | a :: l' => body a ;; for_each l' body
  end.

(** ** Lines 7-25: symbols, parsing, the variables used *)

Definition x : symbol := "x".
Definition y : symbol := "y".

Definition sym_in (v : symbol) (s : list symbol) : bool :=
  existsb (String.eqb v) s.

Definition vars_used (free_vars : list symbol) : list symbol :=
  (if sym_in x free_vars then [x] else []) ++
  (if sym_in y free_vars then [y] else []).

(** [sp.Interval(-sp.oo, sp.oo)] *)
Definition whole_line : RSet := Interval (neg oo) oo.

(** Truth value of a fuzzy boolean in an [if]. *)
Definition truthy (b : option bool) : bool :=
  match b with
  | Some true => true
  | _ => false
  end.

(** ** Lines 30-83: the 1D branch up to the limits *)

(** Lines 33-39: continuity.  Nothing guards these calls. *)
Definition continuity_1d (expr : Expr) : M unit :=
  domain <- call (continuous_domain expr x Reals) ;;
  let discontinuities := set_sub whole_line domain in
  if truthy (is_EmptySet discontinuities)
  then emit (Success "✅ Function is continuous over ℝ.")
  else emit (Warning ("⚠️ Discontinuous at: `" ++ str_set discontinuities ++ "`")).

(** Lines 42-53: differentiability. *)
Definition differentiability_1d (expr : Expr) : M unit :=
  emit (Subheader "Differentiability") ;;
  try_except
    (d <- call (diff expr [x]) ;;
     assign_derivative d ;;
     diff_domain <- call (continuous_domain d x Reals) ;;
     let diff_discont := set_sub whole_line diff_domain in
     if truthy (is_EmptySet diff_discont)
     then emit (Success "✅ Function is differentiable over ℝ.")
     else emit (Warning ("⚠️ Not differentiable at: `" ++ str_set diff_discont ++ "`")))
    (fun _ => emit (Warning "⚠️ Could not determine differentiability.")).

(** Lines 55-59: the derivative shown. *)
Definition derivative_display_1d : M unit :=
  emit (Subheader "📌 Derivative") ;;
  try_except
    (d <- read_derivative ;; emit (Code ("f'(x) = " ++ str d)))
    (fun _ => emit (Warning "Could not compute derivative.")).

(** Lines 67-73 and 157-163: the figure is drawn and shown. *)
Definition show_figure (fig : figure) : M unit :=
  call (pyplot fig) ;; emit (Pyplot fig).

(** Line 65: a sample is kept when finite and replaced by [np.nan] when not;
    the function is called twice at a finite sample. *)
Definition sample_1d (f_np : Q -> result npfloat) (v : Q) : result npfloat :=
  (t <~ f_np v ;
   if isfinite t then f_np v else Ok NaN)%res.

(** Lines 62-73: sampling and the plot.  Nothing guards these calls. *)
Definition plot_1d (expr : Expr) : M unit :=
  emit (Subheader "📊 Plot") ;;
  f_np <- call (lambdify1 x expr) ;;
  let x_vals := linspace (-10) 10 400 in
  y_vals <- call (rmap (sample_1d f_np) x_vals) ;;
  show_figure (LinePlot x_vals y_vals (str expr)).

(** Lines 76-83: limits at infinity. *)
Definition limits_1d (expr : Expr) : M unit :=
  emit (Subheader "♾️ Behavior at Infinity") ;;
  try_except
    (lim_pos <- call (limit expr x oo) ;;
     lim_neg <- call (limit expr x (neg oo)) ;;
     emit (Write ("Limit as x → ∞: `" ++ str lim_pos ++ "`")) ;;
     emit (Write ("Limit as x → -∞: `" ++ str lim_neg ++ "`")))
    (fun _ => emit (Warning "Could not compute limits at infinity.")).

(** ** Lines 86-113: extrema of the 1D branch *)

Inductive candidacy : Type :=
| MinCandidate (val : Expr)
| MaxCandidate (val : Expr)
| NoCandidate.

(** The body of the [try] of lines 94-99 for one critical point. *)
Definition second_derivative_test (expr f_double pt : Expr) : result candidacy :=
  (second <~ subs f_double [(x, pt)] ;
   v <~ subs expr [(x, pt)] ;
   val <~ evalf v ;
   pos <~ gt second (of_int 0) ;
   if pos then Ok (MinCandidate val)
   else
     neg <~ lt second (of_int 0) ;
     if neg then Ok (MaxCandidate val) else Ok NoCandidate)%res.

(** The loop of lines 92-101: [except: continue] drops the point. *)
Fixpoint classify_1d (expr f_double : Expr) (critical_points : list Expr)
    (min_pts max_pts : list (Expr * Expr)) : list (Expr * Expr) * list (Expr * Expr) :=
  match critical_points with
  | [] => (min_pts, max_pts)
  | pt :: rest =>
      match second_derivative_test expr f_double pt with
      | Ok (MinCandidate val) =>
          classify_1d expr f_double rest (min_pts ++ [(pt, val)]) max_pts
      | Ok (MaxCandidate val) =>
          classify_1d expr f_double rest min_pts (max_pts ++ [(pt, val)])
      | Ok NoCandidate => classify_1d expr f_double rest min_pts max_pts
      | Raise _ => classify_1d expr f_double rest min_pts max_pts
      end
  end.

(** [min(l, key=lambda t: t[1])] and [max(l, key=lambda t: t[1])] on a
    non-empty list: the running best is replaced when the next key compares
    strictly below (above) it. *)
Fixpoint best_from (cmp : Expr -> Expr -> result bool)
    (best : Expr * Expr) (rest : list (Expr * Expr)) : result (Expr * Expr) :=
  match rest with
  | [] => Ok best
  | item :: rest' =>
      match cmp (snd item) (snd best) with
      | Ok b => best_from cmp (if b then item else best) rest'
      | Raise e => Raise e
      end
  end.

Definition py_min (l : list (Expr * Expr)) : result (Expr * Expr) :=
  match l with
  | [] => Raise "min() arg is an empty sequence"
  | a :: rest => best_from lt a rest
  end.

Definition py_max (l : list (Expr * Expr)) : result (Expr * Expr) :=
  match l with
  | [] => Raise "max() arg is an empty sequence"
  | a :: rest => best_from gt a rest
  end.

Definition no_min_msg : string :=
  "No global minimum (or function is unbounded below).".
Definition no_max_msg : string :=
  "No global maximum (or function is unbounded above).".

Definition min_msg (best : Expr * Expr) : string :=
  "✅ Global minimum: f(x) = " ++ str (snd best) ++ " at x = " ++ str (fst best).
Definition max_msg (best : Expr * Expr) : string :=
  "✅ Global maximum: f(x) = " ++ str (snd best) ++ " at x = " ++ str (fst best).

(** Lines 103-113. *)
Definition report_extrema (min_pts max_pts : list (Expr * Expr)) : M unit :=
  (match min_pts with
   | _ :: _ => best_min <- call (py_min min_pts) ;; emit (Success (min_msg best_min))
   | [] => emit (Info no_min_msg)
   end) ;;
  (match max_pts with
   | _ :: _ => best_max <- call (py_max max_pts) ;; emit (Success (max_msg best_max))
   | [] => emit (Info no_max_msg)
   end).

(** Lines 86-113. *)
Definition extrema_1d (expr : Expr) : M unit :=
  emit (Subheader "🔻 Global Min / Max") ;;
  f_prime <- call (diff expr [x]) ;;
  f_double <- call (diff f_prime [x]) ;;
  critical_points <- call (solve f_prime x) ;;
  let '(min_pts, max_pts) := classify_1d expr f_double critical_points [] [] in
  report_extrema min_pts max_pts.

Definition header_1d : string := "🔹 1D Function Analysis".

(** Lines 30-113. *)
Definition analyze_1d (expr : Expr) : M unit :=
  emit (Header header_1d) ;;
  continuity_1d expr ;;
  differentiability_1d expr ;;
  derivative_display_1d ;;
  plot_1d expr ;;
  limits_1d expr ;;
  extrema_1d expr.

(** ** Lines 118-214: the 2D branch *)

(** Lines 122-132: continuity along each axis. *)
Definition continuity_2d (expr : Expr) : M unit :=
  emit (Subheader "Continuity") ;;
  try_except
    (domain_x <- call (continuous_domain expr x Reals) ;;
     domain_y <- call (continuous_domain expr y Reals) ;;
     let discont :=
       set_union (set_sub whole_line domain_x) (set_sub whole_line domain_y) in
     if truthy (is_EmptySet discont)
     then emit (Success "✅ Continuous over ℝ².")
     else emit (Warning ("⚠️ Discontinuities along: `" ++ str_set discont ++ "`")))
    (fun _ => emit (Warning "Could not determine continuity.")).

(** Lines 135-148: partial derivatives. *)
Definition differentiability_2d (expr : Expr) : M unit :=
  emit (Subheader "Differentiability & Partial Derivatives") ;;
  try_except
    (fx <- call (diff expr [x]) ;;
     fy <- call (diff expr [y]) ;;
     fx_dom <- call (continuous_domain fx x Reals) ;;
     fy_dom <- call (continuous_domain fy y Reals) ;;
     (if set_eqb fx_dom whole_line && set_eqb fy_dom whole_line
      then emit (Success "✅ Function is differentiable (partials are continuous).")
      else emit (Warning "⚠️ Function may not be differentiable everywhere.")) ;;
     emit (Code ("∂f/∂x = " ++ str fx)) ;;
     emit (Code ("∂f/∂y = " ++ str fy)))
    (fun _ => emit (Warning "Could not compute partial derivatives.")).

(** Line 156: [Z = f_np(X, Y)], entry by entry.  The values are kept as the
    function returns them. *)
Definition sample_2d (f_np : Q -> Q -> result npfloat)
    (X Y : list (list Q)) : result (list (list npfloat)) :=
  rmap (fun row : list Q * list Q =>
          rmap (fun p : Q * Q => f_np (fst p) (snd p))
               (combine (fst row) (snd row)))
       (combine X Y).

(** Lines 151-165: the surface plot.  [lambdify] is called before the
    [try]. *)
Definition plot_2d (expr : Expr) : M unit :=
  emit (Subheader "🌀 3D Plot") ;;
  f_np <- call (lambdify2 (x, y) expr) ;;
  try_except
    (let range_vals := linspace (-10) 10 100 in
     let '(X, Y) := meshgrid range_vals in
     Z <- call (sample_2d f_np X Y) ;;
     show_figure (SurfacePlot X Y Z))
    (fun e => emit (Error ("Plotting failed: " ++ e))).

(** Lines 168-181: the radial limit. *)
Definition radial_2d (expr : Expr) : M unit :=
  emit (Subheader "♾️ Behavior at Infinity") ;;
  let r := sym "r" in
  let theta := sym "theta" in
  let x_r := mul r (cos theta) in
  let y_r := mul r (sin theta) in
  try_except
    (radial <- call (subs expr [(x, x_r); (y, y_r)]) ;;
     lim_inf <- call (limit radial "r" oo) ;;
     emit (Write ("Radial limit as r → ∞: `" ++ str lim_inf ++ "`")) ;;
     if expr_eqb lim_inf oo then emit (Warning "Function grows to ∞.")
     else if expr_eqb lim_inf (neg oo) then emit (Warning "Function decreases to -∞.")
     else ret tt)
    (fun _ => emit (Warning "Could not determine radial behavior.")).

Inductive kind : Type :=
| LocalMin
| LocalMax
| SaddlePoint
| Inconclusive.

Definition kind_str (k : kind) : string :=
  match k with
  | LocalMin => "Local Min"
  | LocalMax => "Local Max"
  | SaddlePoint => "Saddle Point"
  | Inconclusive => "Inconclusive"
  end.

(** [str(pt)] for a solution dictionary: [{x: 0, y: 0}]. *)
Fixpoint str_items (pt : list (symbol * Expr)) : string :=
  match pt with
  | [] => ""
  | [(k, v)] => k ++ ": " ++ str v
  | (k, v) :: rest => k ++ ": " ++ str v ++ ", " ++ str_items rest
  end.

Definition str_dict (pt : list (symbol * Expr)) : string :=
  "{" ++ str_items pt ++ "}".

(** Lines 197-209 for one critical point: the Hessian, its determinant, the
    value of [f], and the kind read off the signs. *)
Definition hessian_test (expr f_xx f_yy f_xy : Expr)
    (pt : list (symbol * Expr)) : result (Expr * kind) :=
  (h11 <~ subs f_xx pt ;
   h12 <~ subs f_xy pt ;
   h21 <~ subs f_xy pt ;
   h22 <~ subs f_yy pt ;
   det <~ det2 h11 h12 h21 h22 ;
   v <~ subs expr pt ;
   val <~ evalf v ;
   pos <~ gt det (of_int 0) ;
   if pos then
     fxx <~ subs f_xx pt ;
     up <~ gt fxx (of_int 0) ;
     Ok (val, if up then LocalMin else LocalMax)
   else
     neg <~ lt det (of_int 0) ;
     Ok (val, if neg then SaddlePoint else Inconclusive))%res.

Definition classified_msg (pt : list (symbol * Expr)) (val4f : string) (k : kind) : string :=
  "At " ++ str_dict pt ++ ", f(x, y) = " ++ val4f ++ " → **" ++ kind_str k ++ "**".

Definition unclassified_msg (pt : list (symbol * Expr)) : string :=
  "Could not classify point: " ++ str_dict pt.

(** Lines 196-212: the body of the loop, with its own [try]. *)
Definition classify_2d (expr f_xx f_yy f_xy : Expr)
    (pt : list (symbol * Expr)) : M unit :=
  try_except
    (vk <- call (hessian_test expr f_xx f_yy f_xy pt) ;;
     val4f <- call (format4f (fst vk)) ;;
     emit (Write (classified_msg pt val4f (snd vk))))
    (fun _ => emit (Warning (unclassified_msg pt))).

(** Lines 184-214: critical points. *)
Definition critical_points_2d (expr : Expr) : M unit :=
  emit (Subheader "📌 Critical Point Classification") ;;
  try_except
    (gx <- call (diff expr [x]) ;;
     gy <- call (diff expr [y]) ;;
     crit_pts <- call (solve_system [gx; gy] (x, y)) ;;
     match crit_pts with
     | [] => emit (Info "No critical points found.")
     | _ :: _ =>
         f_xx <- call (diff expr [x; x]) ;;
         f_yy <- call (diff expr [y; y]) ;;
         f_xy <- call (diff expr [x; y]) ;;
         for_each crit_pts (classify_2d expr f_xx f_yy f_xy)
     end)
    (fun _ => emit (Warning "Could not find critical points.")).

Definition header_2d : string := "🌐 2D Function Analysis".

(** Lines 118-214. *)
Definition analyze_2d (expr : Expr) : M unit :=
  emit (Header header_2d) ;;
  continuity_2d expr ;;
  differentiability_2d expr ;;
  plot_2d expr ;;
  radial_2d expr ;;
  critical_points_2d expr.

(** ** The whole script *)

Definition unsupported_msg : string :=
  "⚠️ Please enter a valid function in one or two variables.".

(** Lines 30, 118, 216: the branch taken. *)
Definition dispatch (expr : Expr) : M unit :=
  let used := vars_used (free_symbols expr) in
  if (List.length used =? 1)%nat && sym_in x used then analyze_1d expr
  else if (List.length used =? 2)%nat then analyze_2d expr
  else emit (Warning unsupported_msg).

(** Lines 10-217 for the text [equation] typed into the input box. *)
Definition script (equation : string) : M unit :=
  emit (Title "📈 Function Analyzer") ;;
  emit (TextInput "Enter a function of x or x and y" "x**2 + y**2") ;;
  expr <- try_except (call (sympify equation))
            (fun e => emit (Error ("Invalid expression: " ++ e)) ;; stop) ;;
  dispatch expr.

(** A run in a fresh module namespace. *)
Definition fresh : world := {| out := []; derivative := None |}.

Definition run (equation : string) : outcome unit * world :=
  script equation fresh.

End Script.

(** * A small instance of the interface

    [MiniCAS] implements the interface on a fragment: expressions built from
    rational constants and symbols with [+ - * /] and integer powers (and
    the [cos] and [sin] the script itself applies, which it carries along
    without evaluating).  It
    parses, differentiates, substitutes and evaluates by computation,
    solves what reduces, after the factor [v**k] is taken out, to a linear
    equation or to a quadratic one whose roots are rational or, like those
    of [v**2 + 1], rational multiples of the imaginary unit added to a
    rational, and raises
    [NotImplementedError] beyond that, as a computer algebra system does on
    input outside its algorithms.  The general
    theorems below hold for every instance; this one runs the script on
    sample inputs. *)

Module MiniCAS.

Inductive term : Type :=
| Rat (q : Q)
| Float (q : Q)
| Sym (s : symbol)
| Add (a b : term)
| Mul (a b : term)
| Pow (a : term) (n : Z)
| Cos (a : term)
| Sin (a : term)
| Oo
| NegOo
| ImagUnit.

(** *** Automatic simplification *)

Definition rat (q : Q) : term := Rat (Qred q).

Definition is_zero (q : Q) : bool := Qeq_bool q 0.
Definition is_one (q : Q) : bool := Qeq_bool q 1.

(** The rational [c] when the term is [c*I]. *)
Definition imag_coeff (e : term) : option Q :=
  match e with
  | ImagUnit => Some 1
  | Mul (Rat c) ImagUnit => Some c
  | _ => None
  end.

(** [c*I] *)
Definition imag (c : Q) : term :=
  if is_zero c then Rat 0
  else if is_one c then ImagUnit
  else Mul (rat c) ImagUnit.

Definition mkAdd (a b : term) : term :=
  match imag_coeff a, imag_coeff b with
  | Some p, Some q => imag (p + q)
  | _, _ =>
      match a, b with
      | Rat p, Rat q => rat (p + q)
      | Rat p, _ => if is_zero p then b else Add a b
      | _, Rat q => if is_zero q then a else Add a b
      | _, _ => Add a b
      end
  end.

(** A rational coefficient in front of a term. *)
Definition scale (p : Q) (c : term) : term :=
  if is_zero p then Rat 0
  else if is_one p then c
  else match c with
       | Oo => if Qlt_le_dec 0 p then Oo else NegOo
       | NegOo => if Qlt_le_dec 0 p then NegOo else Oo
       | _ => Mul (rat p) c
       end.

Definition mkMul (a b : term) : term :=
  match imag_coeff a, imag_coeff b with
  | Some p, Some q => rat (- (p * q))
  | _, _ =>
      match a, b with
      | Rat p, Rat q => rat (p * q)
      | Rat p, Mul (Rat q) c => scale (p * q) c
      | Mul (Rat p) c, Rat q => scale (p * q) c
      | Rat p, _ => scale p b
      | _, Rat q => scale q a
      | Mul (Rat p) c, Mul (Rat q) d => scale (p * q) (Mul c d)
      | Mul (Rat p) c, _ => scale p (Mul c b)
      | _, Mul (Rat q) d => scale q (Mul a d)
      | _, _ => Mul a b
      end
  end.

(** [I**n]: [1], [I], [-1] or [-I]. *)
Definition imag_pow (n : Z) : term :=
  match (n mod 4)%Z with
  | 0%Z => Rat 1
  | 1%Z => ImagUnit
  | 2%Z => Rat (-1)
  | _ => Mul (Rat (-1)) ImagUnit
  end.

Definition mkPow (a : term) (n : Z) : term :=
  if (n =? 0)%Z then Rat 1
  else if (n =? 1)%Z then a
  else match imag_coeff a with
       | Some c => mkMul (rat (Qpower c n)) (imag_pow n)
       | None =>
           match a with
           | Rat q => if is_zero q && (n <? 0)%Z then Pow a n else rat (Qpower q n)
           | Pow b m => Pow b (m * n)
           | _ => Pow a n
           end
       end.

Fixpoint simp (e : term) : term :=
  match e with
  | Add a b => mkAdd (simp a) (simp b)
  | Mul a b => mkMul (simp a) (simp b)
  | Pow a n => mkPow (simp a) n
  | Cos a => Cos (simp a)
  | Sin a => Sin (simp a)
  | _ => e
  end.

(** *** Parsing *)

Inductive token : Type :=
| TNum (n : Z)
| TId (s : string)
| TPlus
| TMinus
| TStar
| TSlash
| TPow
| TLParen
| TRParen.

Inductive pending : Type :=
| PNone
| PNum (n : Z)
| PId (s : string)
| PStar.

Definition flush (p : pending) (acc : list token) : list token :=
  match p with
  | PNone => acc
  | PNum n => TNum n :: acc
  | PId s => TId s :: acc
  | PStar => TStar :: acc
  end.

Definition is_digit (c : ascii) : bool :=
  let n := nat_of_ascii c in (48 <=? n)%nat && (n <=? 57)%nat.

Definition is_alpha (c : ascii) : bool :=
  let n := nat_of_ascii c in
  ((65 <=? n)%nat && (n <=? 90)%nat) || ((97 <=? n)%nat && (n <=? 122)%nat)
  || (n =? 95)%nat.

Definition digit_val (c : ascii) : Z := Z.of_nat (nat_of_ascii c - 48).

Definition syntax_error : exn := "SyntaxError: invalid syntax".

(** The tokens of [s], last first. *)
Fixpoint lex (s : string) (p : pending) (acc : list token) : result (list token) :=
  match s with
  | EmptyString => Ok (flush p acc)
  | String c s' =>
      if is_digit c then
        match p with
        | PNum n => lex s' (PNum (10 * n + digit_val c)) acc
        | PId i => lex s' (PId (i ++ String c EmptyString)) acc
        | _ => lex s' (PNum (digit_val c)) (flush p acc)
        end
      else if is_alpha c then
        match p with
        | PId i => lex s' (PId (i ++ String c EmptyString)) acc
        | PNum _ => Raise syntax_error
        | _ => lex s' (PId (String c EmptyString)) (flush p acc)
        end
      else if Ascii.eqb c "*" then
        match p with
        | PStar => lex s' PNone (TPow :: acc)
        | _ => lex s' PStar (flush p acc)
        end
      else if Ascii.eqb c "+" then lex s' PNone (TPlus :: flush p acc)
      else if Ascii.eqb c "-" then lex s' PNone (TMinus :: flush p acc)
      else if Ascii.eqb c "/" then lex s' PNone (TSlash :: flush p acc)
      else if Ascii.eqb c "(" then lex s' PNone (TLParen :: flush p acc)
      else if Ascii.eqb c ")" then lex s' PNone (TRParen :: flush p acc)
      else if Ascii.eqb c " " then lex s' PNone (flush p acc)
      else Raise syntax_error
  end.

Definition tokens (s : string) : result (list token) :=
  match lex s PNone [] with
  | Ok ts => Ok (rev ts)
  | Raise e => Raise e
  end.

(** The nonterminals of the grammar
    [expr := term (("+"|"-") term)*], [term := factor (("*"|"/") factor)*],
    [factor := ("+"|"-") factor | power], [power := atom ("**" factor)?],
    [atom := number | name | "(" expr ")"]. *)
Inductive nonterminal : Type :=
| NExpr
| NExprTail (acc : term)
| NTerm
| NTermTail (acc : term)
| NFactor
| NPower
| NAtom.

Fixpoint parse (fuel : nat) (n : nonterminal) (ts : list token)
    : result (term * list token) :=
  match fuel with
  | O => Raise "RecursionError: maximum recursion depth exceeded"
  | S f =>
      match n with
      | NExpr =>
          (r <~ parse f NTerm ts ; parse f (NExprTail (fst r)) (snd r))%res
      | NExprTail acc =>
          match ts with
          | TPlus :: ts' =>
              (r <~ parse f NTerm ts' ;
               parse f (NExprTail (Add acc (fst r))) (snd r))%res
          | TMinus :: ts' =>
              (r <~ parse f NTerm ts' ;
               parse f (NExprTail (Add acc (Mul (Rat (-1)) (fst r)))) (snd r))%res
          | _ => Ok (acc, ts)
          end
      | NTerm =>
          (r <~ parse f NFactor ts ; parse f (NTermTail (fst r)) (snd r))%res
      | NTermTail acc =>
          match ts with
          | TStar :: ts' =>
              (r <~ parse f NFactor ts' ;
               parse f (NTermTail (Mul acc (fst r))) (snd r))%res
          | TSlash :: ts' =>
              (r <~ parse f NFactor ts' ;
               parse f (NTermTail (Mul acc (Pow (fst r) (-1)))) (snd r))%res
          | _ => Ok (acc, ts)
          end
      | NFactor =>
          match ts with
          | TMinus :: ts' =>
              (r <~ parse f NFactor ts' ; Ok (Mul (Rat (-1)) (fst r), snd r))%res
          | TPlus :: ts' => parse f NFactor ts'
          | _ => parse f NPower ts
          end
      | NPower =>
          (r <~ parse f NAtom ts ;
           match snd r with
           | TPow :: ts' =>
               e <~ parse f NFactor ts' ;
               match simp (fst e) with
               | Rat q =>
                   if (Zpos (Qden (Qred q)) =? 1)%Z
                   then Ok (Pow (fst r) (Qnum (Qred q)), snd e)
                   else Raise "NotImplementedError: fractional power"
               | _ => Raise "NotImplementedError: symbolic power"
               end
           | _ => Ok r
           end)%res
      | NAtom =>
          match ts with
          | TNum k :: ts' => Ok (Rat (inject_Z k), ts')
          | TId _ :: TLParen :: _ => Raise "NotImplementedError: function call"
          | TId s :: ts' =>
              Ok (if String.eqb s "oo" then Oo
                  else if String.eqb s "I" then ImagUnit
                  else Sym s, ts')
          | TLParen :: ts' =>
              (r <~ parse f NExpr ts' ;
               match snd r with
               | TRParen :: ts'' => Ok (fst r, ts'')
               | _ => Raise syntax_error
               end)%res
          | _ => Raise syntax_error
          end
      end
  end.

Definition sympify (s : string) : result term :=
  match tokens s with
  | Ok ts =>
      match parse (8 * List.length ts + 8) NExpr ts with
      | Ok (e, []) => Ok (simp e)
      | Ok (_, _ :: _) => Raise ("could not parse '" ++ s ++ "': " ++ syntax_error)
      | Raise e => Raise ("could not parse '" ++ s ++ "': " ++ e)
      end
  | Raise e => Raise ("could not parse '" ++ s ++ "': " ++ e)
  end.

(** *** Symbols, substitution, derivative *)

Fixpoint insert_sym (v : symbol) (l : list symbol) : list symbol :=
  match l with
  | [] => [v]
  | w :: l' =>
      if String.eqb v w then l
      else if String.ltb v w then v :: l
      else w :: insert_sym v l'
  end.

Fixpoint free_symbols (e : term) : list symbol :=
  match e with
  | Sym s => [s]
  | Add a b | Mul a b => fold_right insert_sym (free_symbols b) (free_symbols a)
  | Pow a _ | Cos a | Sin a => free_symbols a
  | _ => []
  end.

Fixpoint lookup (v : symbol) (d : list (symbol * term)) : option term :=
  match d with
  | [] => None
  | (w, t) :: d' => if String.eqb v w then Some t else lookup v d'
  end.

Fixpoint replace (e : term) (d : list (symbol * term)) : term :=
  match e with
  | Sym s => match lookup s d with Some t => t | None => e end
  | Add a b => Add (replace a d) (replace b d)
  | Mul a b => Mul (replace a d) (replace b d)
  | Pow a n => Pow (replace a d) n
  | Cos a => Cos (replace a d)
  | Sin a => Sin (replace a d)
  | _ => e
  end.

Definition subs (e : term) (d : list (symbol * term)) : result term :=
  Ok (simp (replace e d)).

Fixpoint deriv (e : term) (v : symbol) : term :=
  match e with
  | Sym s => if String.eqb s v then Rat 1 else Rat 0
  | Add a b => mkAdd (deriv a v) (deriv b v)
  | Mul a b => mkAdd (mkMul (deriv a v) b) (mkMul a (deriv b v))
  | Pow a n => mkMul (mkMul (Rat (inject_Z n)) (mkPow a (n - 1))) (deriv a v)
  | Cos a => mkMul (mkMul (Rat (-1)) (Sin a)) (deriv a v)
  | Sin a => mkMul (Cos a) (deriv a v)
  | _ => Rat 0
  end.

Definition diff (e : term) (vs : list symbol) : result term :=
  Ok (fold_left deriv vs e).

(** *** Numbers: [evalf], comparison, determinant, formatting *)

Definition evalf (e : term) : result term :=
  match e with
  | Rat q => Ok (if is_zero q then e else Float q)
  | _ => Ok e
  end.

Inductive extended : Type :=
| Finite (q : Q)
| PlusInf
| MinusInf.

Definition number (e : term) : option extended :=
  match e with
  | Rat q | Float q => Some (Finite q)
  | Oo => Some PlusInf
  | NegOo => Some MinusInf
  | _ => None
  end.

Definition ext_lt (a b : extended) : bool :=
  match a, b with
  | Finite p, Finite q => if Qlt_le_dec p q then true else false
  | MinusInf, MinusInf => false
  | MinusInf, _ => true
  | Finite _, PlusInf => true
  | _, _ => false
  end.

Definition undecided : exn := "TypeError: cannot determine truth value of Relational".

Definition lt (a b : term) : result bool :=
  match number a, number b with
  | Some p, Some q => Ok (ext_lt p q)
  | _, _ => Raise undecided
  end.

Definition gt (a b : term) : result bool := lt b a.

Definition det2 (a b c d : term) : result term :=
  Ok (mkAdd (mkMul a d) (mkMul (Rat (-1)) (mkMul b c))).

Definition str_Z (z : Z) : string := NilZero.string_of_int (Z.to_int z).

Fixpoint zeros (n : nat) : string :=
  match n with
  | O => ""
  | S n' => "0" ++ zeros n'
  end.

(** [|q|] with [d] decimals, rounded half up. *)
Definition decimals (q : Q) (d : nat) : string :=
  let scale := (10 ^ Z.of_nat d)%Z in
  let n := ((2 * Z.abs (Qnum q) * scale + Zpos (Qden q)) / (2 * Zpos (Qden q)))%Z in
  let frac := str_Z (n mod scale) in
  str_Z (n / scale) ++ "." ++ zeros (d - String.length frac) ++ frac.

Definition sign_str (q : Q) : string :=
  if Qlt_le_dec q 0 then "-" else "".

Definition format4f (e : term) : result string :=
  match e with
  | Rat q | Float q => Ok (sign_str q ++ decimals q 4)
  | _ => Raise "TypeError: unsupported format string passed to Expr.__format__"
  end.

(** *** Printing *)

Definition str_Q (q : Q) : string :=
  if (Zpos (Qden q) =? 1)%Z then str_Z (Qnum q)
  else str_Z (Qnum q) ++ "/" ++ str_Z (Zpos (Qden q)).

(** A float with fifteen significant digits. *)
Definition str_float (q : Q) : string :=
  let int_digits := String.length (str_Z (Z.abs (Qnum q) / Zpos (Qden q))) in
  let lead := if (Z.abs (Qnum q) <? Zpos (Qden q))%Z then 0%nat else int_digits in
  sign_str q ++ decimals q (15 - lead).

Definition paren (s : string) : string := "(" ++ s ++ ")".

Definition leading_negative (e : term) : bool :=
  match e with
  | Rat q | Mul (Rat q) _ => if Qlt_le_dec q 0 then true else false
  | _ => false
  end.

(** The printed form of [t] as the base of a power or a denominator. *)
Definition atomic (t : term) (s : string) : string :=
  match t with
  | Add _ _ | Mul _ _ | Pow _ _ => paren s
  | Rat q => if Qlt_le_dec q 0 then paren s else s
  | _ => s
  end.

Definition pow_str (base : string) (n : Z) : string :=
  if (n =? 1)%Z then base else base ++ "**" ++ str_Z n.

(** [print flip e] prints [e], with the sign of its leading coefficient
    flipped when [flip] is set (for the right operand of a difference). *)
Fixpoint print (flip : bool) (e : term) : string :=
  match e with
  | Rat q => str_Q (if flip then Qred (- q) else q)
  | Float q => str_float (if flip then Qred (- q) else q)
  | Sym s => s
  | Cos a => "cos(" ++ print false a ++ ")"
  | Sin a => "sin(" ++ print false a ++ ")"
  | Oo => "oo"
  | NegOo => "-oo"
  | ImagUnit => "I"
  | Add a b =>
      if leading_negative b
      then print false a ++ " - " ++ print true b
      else print false a ++ " + " ++ print false b
  | Mul a b =>
      let divides := match b with Pow _ n => (n <? 0)%Z | _ => false end in
      let right :=
        match b with
        | Pow b0 n => pow_str (atomic b0 (print false b0)) (Z.abs n)
        | Add _ _ => paren (print false b)
        | _ => print false b
        end in
      let op := if divides then "/" else "*" in
      match a with
      | Rat q =>
          let q' := if flip then Qred (- q) else q in
          if divides then str_Q q' ++ op ++ right
          else if (Zpos (Qden q') =? 1)%Z then
            if is_one (- q') then "-" ++ right
            else if is_one q' then right
            else str_Q q' ++ op ++ right
          else
            (if (Qnum q' =? 1)%Z then right
             else if (Qnum q' =? -1)%Z then "-" ++ right
             else str_Z (Qnum q') ++ "*" ++ right)
            ++ "/" ++ str_Z (Zpos (Qden q'))
      | Add _ _ => paren (print false a) ++ op ++ right
      | _ => print false a ++ op ++ right
      end
  | Pow a n =>
      if (n <? 0)%Z
      then "1/" ++ pow_str (atomic a (print false a)) (- n)
      else pow_str (atomic a (print false a)) n
  end.

Definition str (e : term) : string := print false e.

Fixpoint expr_eqb (a b : term) : bool :=
  match a, b with
  | Rat p, Rat q | Float p, Float q => Qeq_bool p q
  | Sym s, Sym t => String.eqb s t
  | Add a1 a2, Add b1 b2 | Mul a1 a2, Mul b1 b2 => expr_eqb a1 b1 && expr_eqb a2 b2
  | Pow a1 n, Pow b1 m => expr_eqb a1 b1 && (n =? m)%Z
  | Cos a1, Cos b1 | Sin a1, Sin b1 => expr_eqb a1 b1
  | Oo, Oo | NegOo, NegOo | ImagUnit, ImagUnit => true
  | _, _ => false
  end.

(** *** Laurent polynomials in one symbol

    [[(k1, c1); ...]] stands for [c1*v**k1 + ...], exponents increasing and
    coefficients non-zero. *)

Definition lpoly : Type := list (Z * Q).

Fixpoint lp_add_mono (k : Z) (c : Q) (p : lpoly) : lpoly :=
  match p with
  | [] => [(k, Qred c)]
  | (k', c') :: p' =>
      if (k <? k')%Z then (k, Qred c) :: p
      else if (k =? k')%Z then
        if is_zero (c + c') then p' else (k, Qred (c + c')) :: p'
      else (k', c') :: lp_add_mono k c p'
  end.

Definition lp_add (p q : lpoly) : lpoly :=
  fold_right (fun m acc => lp_add_mono (fst m) (snd m) acc) q p.

Definition lp_scale (k : Z) (c : Q) (p : lpoly) : lpoly :=
  map (fun m => ((k + fst m)%Z, Qred (c * snd m))) p.

Definition lp_mul (p q : lpoly) : lpoly :=
  fold_right (fun m acc => lp_add (lp_scale (fst m) (snd m) q) acc) [] p.

Fixpoint lp_pow (p : lpoly) (n : nat) : lpoly :=
  match n with
  | O => [(0%Z, 1)]
  | S n' => lp_mul p (lp_pow p n')
  end.

Definition not_implemented : exn :=
  "NotImplementedError: no algorithms are implemented for this expression".

Fixpoint to_lpoly (v : symbol) (e : term) : result lpoly :=
  match e with
  | Rat q => Ok (if is_zero q then [] else [(0%Z, Qred q)])
  | Sym s => if String.eqb s v then Ok [(1%Z, 1)] else Raise not_implemented
  | Add a b => (p <~ to_lpoly v a ; q <~ to_lpoly v b ; Ok (lp_add p q))%res
  | Mul a b => (p <~ to_lpoly v a ; q <~ to_lpoly v b ; Ok (lp_mul p q))%res
  | Pow a n =>
      (p <~ to_lpoly v a ;
       if (0 <=? n)%Z then Ok (lp_pow p (Z.to_nat n))
       else match p with
            | [(k, c)] => Ok [((k * n)%Z, Qred (Qpower c n))]
            | _ => Raise not_implemented
            end)%res
  | _ => Raise not_implemented
  end.

Fixpoint insert_Q (q : Q) (l : list Q) : list Q :=
  match l with
  | [] => [q]
  | r :: l' =>
      if Qeq_bool q r then l
      else if Qlt_le_dec q r then q :: l
      else r :: insert_Q q l'
  end.

(** The square root of a rational that is a square. *)
Definition sqrt_exact (q : Q) : option Q :=
  let n := Qnum (Qred q) in
  let d := Zpos (Qden (Qred q)) in
  if (0 <=? n)%Z && (Z.sqrt n * Z.sqrt n =? n)%Z && (Z.sqrt d * Z.sqrt d =? d)%Z
  then Some (Z.sqrt n # Z.to_pos (Z.sqrt d))
  else None.

(** The roots of [c0 + c1*v + c2*v**2] when they are rational. *)
Definition quadratic_roots (c0 c1 c2 : Q) : result (list Q) :=
  match sqrt_exact (c1 * c1 - 4 * c0 * c2) with
  | Some s =>
      Ok (insert_Q (Qred ((- c1 - s) / (2 * c2)))
                   [Qred ((- c1 + s) / (2 * c2))])
  | None => Raise not_implemented
  end.

(** The roots of a Laurent polynomial: [0] when the lowest exponent is
    positive, and the roots of what is left when that is linear, or
    quadratic with rational roots. *)
Definition lp_roots (p : lpoly) : result (list Q) :=
  match p with
  | [] => Ok []
  | (k, c0) :: rest =>
      let zero := if (0 <? k)%Z then [0] else [] in
      let with_zero roots := fold_right insert_Q zero roots in
      match rest with
      | [] => Ok zero
      | [(k1, c1)] =>
          if (k1 =? k + 1)%Z then Ok (with_zero [Qred (- c0 / c1)])
          else if (k1 =? k + 2)%Z
          then (roots <~ quadratic_roots c0 0 c1 ; Ok (with_zero roots))%res
          else Raise not_implemented
      | [(k1, c1); (k2, c2)] =>
          if (k1 =? k + 1)%Z && (k2 =? k + 2)%Z
          then (roots <~ quadratic_roots c0 c1 c2 ; Ok (with_zero roots))%res
          else Raise not_implemented
      | _ => Raise not_implemented
      end
  end.

(** The two roots of [c0 + c1*v + c2*v**2] that are not real, when the
    discriminant is minus the square of a rational: the one with the
    negative imaginary part first. *)
Definition conjugate_roots (c0 c1 c2 : Q) : result (list term) :=
  match sqrt_exact (4 * c0 * c2 - c1 * c1) with
  | Some s =>
      let re := Qred (- c1 / (2 * c2)) in
      let t := s / (2 * c2) in
      let im := Qred (if Qlt_le_dec t 0 then - t else t) in
      Ok [mkAdd (Rat re) (imag (- im)); mkAdd (Rat re) (imag im)]
  | None => Raise not_implemented
  end.

(** The roots of a Laurent polynomial whose quadratic part has no real
    root: [0] when the lowest exponent is positive, then the two conjugate
    roots. *)
Definition complex_roots (p : lpoly) : result (list term) :=
  match p with
  | (k, c0) :: rest =>
      let zero := if (0 <? k)%Z then [Rat 0] else [] in
      match rest with
      | [(k1, c1)] =>
          if (k1 =? k + 2)%Z
          then (roots <~ conjugate_roots c0 0 c1 ; Ok (zero ++ roots)%list)%res
          else Raise not_implemented
      | [(k1, c1); (k2, c2)] =>
          if (k1 =? k + 1)%Z && (k2 =? k + 2)%Z
          then (roots <~ conjugate_roots c0 c1 c2 ; Ok (zero ++ roots)%list)%res
          else Raise not_implemented
      | _ => Raise not_implemented
      end
  | [] => Raise not_implemented
  end.

(** A product with its negative powers taken out. *)
Fixpoint numerator (e : term) : term :=
  match e with
  | Mul a b => Mul (numerator a) (numerator b)
  | Pow a n => if (n <? 0)%Z then Rat 1 else e
  | _ => e
  end.

Definition Q_in (q : Q) (l : list Q) : bool := existsb (Qeq_bool q) l.

(** The bases of the negative powers of [e]. *)
Fixpoint denominators (e : term) : list term :=
  match e with
  | Add a b | Mul a b => denominators a ++ denominators b
  | Pow a n => if (n <? 0)%Z then a :: denominators a else denominators a
  | Cos a | Sin a => denominators a
  | _ => []
  end.

(** The zeros in [v] of one denominator; a denominator without [v] has
    none. *)
Definition poles (v : symbol) (d : term) : result (list Q) :=
  if existsb (String.eqb v) (free_symbols d)
  then (p <~ to_lpoly v d ; lp_roots p)%res
  else Ok [].

(** The roots of an expression: those of the Laurent polynomial it is, or
    those of its numerator that are not poles when it is a quotient.  The
    roots are all the complex roots: nothing restricts them to the reals,
    as nothing does in [sp.solve], which has no [domain] flag and ignores
    the one line 89 passes. *)
Definition solve (e : term) (v : symbol) : result (list term) :=
  match to_lpoly v e with
  | Ok p =>
      match lp_roots p with
      | Ok roots => Ok (map Rat roots)
      | Raise _ => complex_roots p
      end
  | Raise _ =>
      (p <~ to_lpoly v (numerator e) ;
       roots <~ lp_roots p ;
       ps <~ rmap (poles v) (denominators e) ;
       Ok (map Rat (filter (fun q => negb (existsb (Q_in q) ps)) roots)))%res
  end.

(** A system is solved when each equation is in one of the two symbols
    alone. *)
Definition solve_system (es : list term) (vs : symbol * symbol)
    : result (list (list (symbol * term))) :=
  match es with
  | [e1; e2] =>
      (xs <~ solve e1 (fst vs) ;
       ys <~ solve e2 (snd vs) ;
       Ok (flat_map (fun a => map (fun b => [(fst vs, a); (snd vs, b)]) ys) xs))%res
  | _ => Raise not_implemented
  end.

(** The limit at [oo] or [-oo] of a Laurent polynomial in [v], read off its
    highest term. *)
Definition limit (e : term) (v : symbol) (point : term) : result term :=
  (p <~ to_lpoly v e ;
   match rev p, point with
   | [], _ => Ok (Rat 0)
   | (k, c) :: _, Oo | (k, c) :: _, NegOo =>
       if (k <? 0)%Z then Ok (Rat 0)
       else if (k =? 0)%Z then Ok (Rat c)
       else
         let up := if Qlt_le_dec 0 c then true else false in
         let flip := match point with NegOo => Z.odd k | _ => false end in
         Ok (if xorb up flip then Oo else NegOo)
   | _, _ => Raise not_implemented
   end)%res.

(** *** Sets of reals: finite sets and their complements *)

Inductive rset : Type :=
| AllBut (excluded : list Q)
| Points (members : list Q)
| Span (a b : term)
| Difference (s t : rset)
| UnionOf (s t : rset).

Definition list_minus (a b : list Q) : list Q :=
  filter (fun q => negb (Q_in q b)) a.
Definition list_meet (a b : list Q) : list Q :=
  filter (fun q => Q_in q b) a.
Definition list_join (a b : list Q) : list Q :=
  fold_right insert_Q b a.

Definition Interval (a b : term) : rset :=
  match a, b with
  | NegOo, Oo => AllBut []
  | _, _ => Span a b
  end.

Definition set_sub (s t : rset) : rset :=
  match s, t with
  | AllBut a, AllBut b => Points (list_minus b a)
  | AllBut a, Points b => AllBut (list_join a b)
  | Points a, AllBut b => Points (list_meet a b)
  | Points a, Points b => Points (list_minus a b)
  | _, _ => Difference s t
  end.

Definition set_union (s t : rset) : rset :=
  match s, t with
  | AllBut a, AllBut b => AllBut (list_meet a b)
  | AllBut a, Points b => AllBut (list_minus a b)
  | Points a, AllBut b => AllBut (list_minus b a)
  | Points a, Points b => Points (list_join a b)
  | _, _ => UnionOf s t
  end.

Definition is_EmptySet (s : rset) : option bool :=
  match s with
  | Points [] => Some true
  | Points (_ :: _) | AllBut _ => Some false
  | _ => None
  end.

Fixpoint Qlist_eqb (a b : list Q) : bool :=
  match a, b with
  | [], [] => true
  | p :: a', q :: b' => Qeq_bool p q && Qlist_eqb a' b'
  | _, _ => false
  end.

Fixpoint set_eqb (s t : rset) : bool :=
  match s, t with
  | AllBut a, AllBut b | Points a, Points b => Qlist_eqb a b
  | Span a1 a2, Span b1 b2 => expr_eqb a1 b1 && expr_eqb a2 b2
  | Difference s1 s2, Difference t1 t2 | UnionOf s1 s2, UnionOf t1 t2 =>
      set_eqb s1 t1 && set_eqb s2 t2
  | _, _ => false
  end.

Fixpoint join (sep : string) (l : list string) : string :=
  match l with
  | [] => ""
  | [a] => a
  | a :: l' => a ++ sep ++ join sep l'
  end.

(** The open intervals between consecutive excluded points. *)
Fixpoint gaps (left : string) (excluded : list Q) : list string :=
  match excluded with
  | [] => ["Interval.open(" ++ left ++ ", oo)"]
  | q :: rest =>
      ("Interval.open(" ++ left ++ ", " ++ str_Q q ++ ")") :: gaps (str_Q q) rest
  end.

Fixpoint str_set (s : rset) : string :=
  match s with
  | AllBut [] => "Reals"
  | AllBut excluded => "Union(" ++ join ", " (gaps "-oo" excluded) ++ ")"
  | Points [] => "EmptySet"
  | Points members => "{" ++ join ", " (map str_Q members) ++ "}"
  | Span a b => "Interval(" ++ str a ++ ", " ++ str b ++ ")"
  | Difference a b => "Complement(" ++ str_set a ++ ", " ++ str_set b ++ ")"
  | UnionOf a b => "Union(" ++ str_set a ++ ", " ++ str_set b ++ ")"
  end.

Definition continuous_domain (e : term) (v : symbol) (dom : rset) : result rset :=
  match dom with
  | AllBut [] =>
      (ps <~ rmap (poles v) (denominators e) ;
       Ok (AllBut (fold_right list_join [] ps)))%res
  | _ => Raise not_implemented
  end.

(** *** Numeric evaluation *)

Definition np_add (a b : npfloat) : npfloat :=
  match a, b with
  | NaN, _ | _, NaN => NaN
  | Fin p, Fin q => Fin (Qred (p + q))
  | PInf, NInf | NInf, PInf => NaN
  | PInf, _ | _, PInf => PInf
  | NInf, _ | _, NInf => NInf
  end.

Definition np_sign (a : npfloat) : comparison :=
  match a with
  | Fin q => (q ?= 0)%Q
  | PInf => Gt
  | NInf => Lt
  | NaN => Eq
  end.

Definition np_mul (a b : npfloat) : npfloat :=
  match a, b with
  | NaN, _ | _, NaN => NaN
  | Fin p, Fin q => Fin (Qred (p * q))
  | _, _ =>
      match np_sign a, np_sign b with
      | Eq, _ | _, Eq => NaN
      | Gt, Gt | Lt, Lt => PInf
      | _, _ => NInf
      end
  end.

(** [1/a]; zero has no sign here, and [1/0] is [inf]. *)
Definition np_inv (a : npfloat) : npfloat :=
  match a with
  | Fin q => if is_zero q then PInf else Fin (Qred (/ q))
  | PInf | NInf => Fin 0
  | NaN => NaN
  end.

Fixpoint np_pow (a : npfloat) (n : nat) : npfloat :=
  match n with
  | O => Fin 1
  | S n' => np_mul a (np_pow a n')
  end.

(** [sp.lambdify] binds a symbol of the expression that is not an
    argument to itself: the function then returns a SymPy expression and
    not a float, which [np.isfinite] at line 65 refuses.  The functions of
    the interface return floats, so the refusal is raised by the call. *)
Definition not_a_float : exn :=
  "TypeError: ufunc 'isfinite' not supported for the input types, and the inputs could not be safely coerced to any supported types according to the casting rule ''safe''".

Fixpoint np_eval (env : list (symbol * npfloat)) (e : term) : result npfloat :=
  match e with
  | Rat q | Float q => Ok (Fin q)
  | Sym s =>
      match find (fun b => String.eqb s (fst b)) env with
      | Some b => Ok (snd b)
      | None => Raise not_a_float
      end
  | Add a b => (p <~ np_eval env a ; q <~ np_eval env b ; Ok (np_add p q))%res
  | Mul a b => (p <~ np_eval env a ; q <~ np_eval env b ; Ok (np_mul p q))%res
  | Pow a n =>
      (p <~ np_eval env a ;
       Ok (if (0 <=? n)%Z then np_pow p (Z.to_nat n)
           else np_inv (np_pow p (Z.to_nat (- n)))))%res
  | Cos _ | Sin _ | ImagUnit => Raise not_implemented
  | Oo => Ok PInf
  | NegOo => Ok NInf
  end.

Definition lambdify1 (v : symbol) (e : term) : result (Q -> result npfloat) :=
  Ok (fun a => np_eval [(v, Fin a)] e).

Definition lambdify2 (vs : symbol * symbol) (e : term)
    : result (Q -> Q -> result npfloat) :=
  Ok (fun a b => np_eval [(fst vs, Fin a); (snd vs, Fin b)] e).

End MiniCAS.

(** The instance: each operation of the interface is the function of the
    same name in [MiniCAS]. *)
Definition minicas : Libraries := {|
  Expr := MiniCAS.term;
  RSet := MiniCAS.rset;
  sympify := MiniCAS.sympify;
  free_symbols := MiniCAS.free_symbols;
  str := MiniCAS.str;
  str_set := MiniCAS.str_set;
  expr_eqb := MiniCAS.expr_eqb;
  sym := MiniCAS.Sym;
  oo := MiniCAS.Oo;
  neg := MiniCAS.mkMul (MiniCAS.Rat (-1));
  mul := MiniCAS.mkMul;
  cos := MiniCAS.Cos;
  sin := MiniCAS.Sin;
  of_int := fun z => MiniCAS.Rat (inject_Z z);
  Reals := MiniCAS.AllBut [];
  Interval := MiniCAS.Interval;
  set_sub := MiniCAS.set_sub;
  set_union := MiniCAS.set_union;
  is_EmptySet := MiniCAS.is_EmptySet;
  set_eqb := MiniCAS.set_eqb;
  continuous_domain := MiniCAS.continuous_domain;
  diff := MiniCAS.diff;
  limit := MiniCAS.limit;
  solve := MiniCAS.solve;
  solve_system := MiniCAS.solve_system;
  subs := MiniCAS.subs;
  evalf := MiniCAS.evalf;
  gt := MiniCAS.gt;
  lt := MiniCAS.lt;
  det2 := MiniCAS.det2;
  format4f := MiniCAS.format4f;
  lambdify1 := MiniCAS.lambdify1;
  lambdify2 := MiniCAS.lambdify2;
  pyplot := fun _ => Ok tt
|}.

(** * Vocabulary of the properties *)

Section Vocabulary.
Context {cas : Libraries}.

(** [m] only appends to what is shown, and each event it appends
    satisfies [P]. *)
Definition adds {A} (P : event -> Prop) (m : M A) : Prop :=
  forall w, exists l, out (snd (m w)) = (out w ++ l)%list /\ Forall P l.

(** [m] leaves the variable [derivative] as it found it. *)
Definition keeps_namespace {A} (m : M A) : Prop :=
  forall w, derivative (snd (m w)) = derivative w.

(** [m] always runs to its end: no exception leaves it and it does not
    stop the script. *)
Definition recovers {A} (m : M A) : Prop :=
  forall w, exists a, fst (m w) = Done a.

(** [m] does not stop the script. *)
Definition never_stops {A} (m : M A) : Prop :=
  forall w, fst (m w) <> Stopped.

(** An event that the test [p] does not select. *)
Definition quiet (p : event -> bool) (ev : event) : Prop := p ev = false.

Definition is_header (ev : event) : bool :=
  match ev with
  | Header _ => true
  | _ => false
  end.

Definition is_subheader (title : string) (ev : event) : bool :=
  match ev with
  | Subheader t => String.eqb title t
  | _ => false
  end.

Definition limits_title : string := "♾️ Behavior at Infinity".
Definition extrema_title : string := "🔻 Global Min / Max".

Definition plot_title : string := "📊 Plot".

(** The titles of the two steps of the 1D branch that follow the plot. *)
Definition after_plot (ev : event) : bool :=
  is_subheader limits_title ev || is_subheader extrema_title ev.

(** What the script has shown when line 20 is reached. *)
Definition banner : list event :=
  [Title "📈 Function Analyzer";
   TextInput "Enter a function of x or x and y" "x**2 + y**2"].

Definition at_dispatch : world := {| out := banner; derivative := None |}.

(** The result of a run that only shows the warning of line 217. *)
Definition unsupported_run : outcome unit * world :=
  (Done tt, {| out := banner ++ [Warning unsupported_msg]; derivative := None |}).

(** A run rejects its input when no analysis branch was entered and the run
    ended on the parse error of line 17 or on the warning of line 217. *)
Definition rejected (r : outcome unit * world) : Prop :=
  existsb is_header (out (snd r)) = false /\
  ((exists msg, fst r = Stopped /\ In (Error msg) (out (snd r))) \/
   (fst r = Done tt /\ In (Warning unsupported_msg) (out (snd r)))).

(** The symbols of [fs] other than [x] and [y]. *)
Definition foreign_symbols (fs : list symbol) : list symbol :=
  filter (fun v => negb (String.eqb v x || String.eqb v y)) fs.

(** C2 as the specification words it: an input with a symbol outside
    [{x, y}] is rejected before any analysis. *)
Definition rejects_foreign_symbols (equation : string) : Prop :=
  forall expr,
    sympify equation = Ok expr ->
    foreign_symbols (free_symbols expr) <> [] ->
    rejected (run equation).

(** The second run of the same text in the namespace the first run left. *)
Definition rerun (equation : string) : outcome unit * world :=
  script equation {| out := []; derivative := derivative (snd (run equation)) |}.

(** The event the continuity step shows for the domain [d]. *)
Definition continuity_verdict (d : RSet) : event :=
  if truthy (is_EmptySet (set_sub whole_line d))
  then Success "✅ Function is continuous over ℝ."
  else Warning ("⚠️ Discontinuous at: `" ++ str_set (set_sub whole_line d) ++ "`").

(** The event the loop of lines 195-212 shows for one critical point. *)
Definition report_2d (expr f_xx f_yy f_xy : Expr) (pt : list (symbol * Expr)) : event :=
  match hessian_test expr f_xx f_yy f_xy pt with
  | Ok vk =>
      match format4f (fst vk) with
      | Ok val4f => Write (classified_msg pt val4f (snd vk))
      | Raise _ => Warning (unclassified_msg pt)
      end
  | Raise _ => Warning (unclassified_msg pt)
  end.

(** The entries the loop of lines 92-101 appends to [min_pts] and to
    [max_pts] for one critical point. *)
Definition min_entry (expr f_double pt : Expr) : list (Expr * Expr) :=
  match second_derivative_test expr f_double pt with
  | Ok (MinCandidate val) => [(pt, val)]
  | _ => []
  end.

Definition max_entry (expr f_double pt : Expr) : list (Expr * Expr) :=
  match second_derivative_test expr f_double pt with
  | Ok (MaxCandidate val) => [(pt, val)]
  | _ => []
  end.

(** [f''] at the critical point evaluates to [second], and [f] to [val]. *)
Definition evaluates_at (expr f_double pt second val : Expr) : Prop :=
  subs f_double [(x, pt)] = Ok second /\
  exists v, subs expr [(x, pt)] = Ok v /\ evalf v = Ok val.

(** The comparison [cmp] of the library orders the keys of [l] as [less]
    orders their values under [num]. *)
Definition orders (cmp : Expr -> Expr -> result bool) (num : Expr -> Q)
    (l : list (Expr * Expr)) : Prop :=
  forall a b, In a l -> In b l ->
    exists r, cmp (snd a) (snd b) = Ok r /\ (r = true <-> num (snd a) < num (snd b)).

(** Both comparisons of the library order the values of [l] as the
    rationals [num] gives them. *)
Definition ordered_by (num : Expr -> Q) (l : list (Expr * Expr)) : Prop :=
  forall a b, In a l -> In b l ->
    (exists r, lt (snd a) (snd b) = Ok r /\ (r = true <-> num (snd a) < num (snd b))) /\
    (exists r, gt (snd a) (snd b) = Ok r /\ (r = true <-> num (snd b) < num (snd a))).

Definition critical_title : string := "📌 Critical Point Classification".

(** At the critical point [pt] the Hessian has first entry [fxx] and
    determinant [D], and [f] has the value [val]. *)
Definition hessian_at (expr f_xx f_yy f_xy : Expr) (pt : list (symbol * Expr))
    (D fxx val : Expr) : Prop :=
  exists h12 h22 v,
    subs f_xx pt = Ok fxx /\ subs f_xy pt = Ok h12 /\ subs f_yy pt = Ok h22 /\
    det2 fxx h12 h12 h22 = Ok D /\
    subs expr pt = Ok v /\ evalf v = Ok val.

(** The value of [f''] at a critical point is neither above nor below
    zero, everything evaluating. *)
Definition degenerate (expr f_double pt : Expr) : Prop :=
  exists second v val,
    subs f_double [(x, pt)] = Ok second /\
    subs expr [(x, pt)] = Ok v /\ evalf v = Ok val /\
    gt second (of_int 0) = Ok false /\ lt second (of_int 0) = Ok false.

End Vocabulary.

(** The real value of a number of [MiniCAS], for stating that its
    comparisons order the candidates. *)
Definition minicas_value (e : MiniCAS.term) : Q :=
  match e with
  | MiniCAS.Rat q | MiniCAS.Float q => q
  | _ => 0
  end.

(** Membership in a set of [MiniCAS]. *)
Fixpoint minicas_contains (s : MiniCAS.rset) (r : Q) : bool :=
  match s with
  | MiniCAS.AllBut l => negb (MiniCAS.Q_in r l)
  | MiniCAS.Points l => MiniCAS.Q_in r l
  | MiniCAS.Span _ _ => true
  | MiniCAS.Difference a b => minicas_contains a r && negb (minicas_contains b r)
  | MiniCAS.UnionOf a b => minicas_contains a r || minicas_contains b r
  end.

(** The sample inputs of the specification, parsed by [MiniCAS]. *)
Definition square : MiniCAS.term := MiniCAS.Pow (MiniCAS.Sym "x") 2.
Definition saddle : MiniCAS.term :=
  MiniCAS.Add (MiniCAS.Pow (MiniCAS.Sym "x") 2)
              (MiniCAS.Mul (MiniCAS.Rat (-1)) (MiniCAS.Pow (MiniCAS.Sym "y") 2)).

Definition origin : list (symbol * MiniCAS.term) :=
  [(x, MiniCAS.Rat 0); (y, MiniCAS.Rat 0)].

Definition reciprocal : MiniCAS.term := MiniCAS.Pow (MiniCAS.Sym "x") (-1).

Definition stray_symbol : MiniCAS.term :=
  MiniCAS.Add (MiniCAS.Sym "x") (MiniCAS.Sym "z").

(** ["y/(x + 10)"], its NumPy function, and the grid of its surface plot. *)
Definition pole_on_grid : MiniCAS.term :=
  MiniCAS.Mul (MiniCAS.Sym "y")
              (MiniCAS.Pow (MiniCAS.Add (MiniCAS.Sym "x") (MiniCAS.Rat 10)) (-1)).

Definition pole_on_grid_np (a b : Q) : result npfloat :=
  MiniCAS.np_eval [(x, Fin a); (y, Fin b)] pole_on_grid.

Definition pole_on_grid_surface : list (list npfloat) :=
  match sample_2d pole_on_grid_np
          (fst (meshgrid (linspace (-10) 10 100)))
          (snd (meshgrid (linspace (-10) 10 100))) with
  | Ok Z => Z
  | Raise _ => []
  end.

(** ["1/(x + 10)"] and the samples of its line plot. *)
Definition pole_on_line : MiniCAS.term :=
  MiniCAS.Pow (MiniCAS.Add (MiniCAS.Sym "x") (MiniCAS.Rat 10)) (-1).

Definition pole_on_line_samples : list npfloat :=
  match rmap (sample_1d (fun a => MiniCAS.np_eval [(x, Fin a)] pole_on_line))
             (linspace (-10) 10 400) with
  | Ok ys => ys
  | Raise _ => []
  end.

(** What a run shows apart from its figures. *)
Definition messages (l : list event) : list event :=
  filter (fun ev => match ev with Pyplot _ => false | _ => true end) l.

(** * Further vocabulary: the steps as a whole *)

Section BranchVocabulary.
Context {cas : Libraries}.

Definition is_title (ev : event) : bool :=
  match ev with
  | Subheader _ => true
  | _ => false
  end.

(** The step titles among the events, in the order shown. *)
Definition titles (l : list event) : list string :=
  flat_map (fun ev => match ev with Subheader t => [t] | _ => [] end) l.

Definition titles_2d : list string :=
  ["Continuity"; "Differentiability & Partial Derivatives"; "🌀 3D Plot";
   limits_title; critical_title].

Definition titles_1d : list string :=
  ["Differentiability"; "📌 Derivative"; plot_title; limits_title; extrema_title].

(** The library calls of the 1D branch that no [try] encloses, in the
    order of the source: lines 33, 63, 65, 67-73, 87, 88, 89, 104 and 110.
    [unguarded_failure_1d expr e] says that one of them raises [e]. *)
Definition unguarded_failure_1d (expr : Expr) (e : exn) : Prop :=
  continuous_domain expr x Reals = Raise e \/
  lambdify1 x expr = Raise e \/
  (exists f_np,
     lambdify1 x expr = Ok f_np /\
     rmap (sample_1d f_np) (linspace (-10) 10 400) = Raise e) \/
  (exists f_np y_vals,
     lambdify1 x expr = Ok f_np /\
     rmap (sample_1d f_np) (linspace (-10) 10 400) = Ok y_vals /\
     pyplot (LinePlot (linspace (-10) 10 400) y_vals (str expr)) = Raise e) \/
  diff expr [x] = Raise e \/
  (exists f_prime, diff expr [x] = Ok f_prime /\ diff f_prime [x] = Raise e) \/
  (exists f_prime, diff expr [x] = Ok f_prime /\ solve f_prime x = Raise e) \/
  (exists f_prime f_double critical_points,
     diff expr [x] = Ok f_prime /\ diff f_prime [x] = Ok f_double /\
     solve f_prime x = Ok critical_points /\
     let min_pts := fst (classify_1d expr f_double critical_points [] []) in
     let max_pts := snd (classify_1d expr f_double critical_points [] []) in
     (min_pts <> [] /\ py_min min_pts = Raise e) \/
     (max_pts <> [] /\ py_max max_pts = Raise e)).

End BranchVocabulary.

Section StepVocabulary.
Context {cas : Libraries}.

(** Lines 186-187: the roots of the gradient. *)
Definition gradient_roots (expr : Expr) : result (list (list (symbol * Expr))) :=
  (gx <~ diff expr [x] ;
   gy <~ diff expr [y] ;
   solve_system [gx; gy] (x, y))%res.

(** Lines 192-194: the second partial derivatives. *)
Definition second_partials (expr : Expr) : result (Expr * Expr * Expr) :=
  (f_xx <~ diff expr [x; x] ;
   f_yy <~ diff expr [y; y] ;
   f_xy <~ diff expr [x; y] ;
   Ok (f_xx, f_yy, f_xy))%res.

Definition no_critical_points : event := Info "No critical points found.".
Definition critical_points_failed : event := Warning "Could not find critical points.".

(** The set line 126 builds from the two domains. *)
Definition gaps_2d (dx dy : RSet) : RSet :=
  set_union (set_sub whole_line dx) (set_sub whole_line dy).

(** The event the 2D continuity step shows for the domains [dx] and [dy]. *)
Definition continuity_verdict_2d (dx dy : RSet) : event :=
  if truthy (is_EmptySet (gaps_2d dx dy))
  then Success "✅ Continuous over ℝ²."
  else Warning ("⚠️ Discontinuities along: `" ++ str_set (gaps_2d dx dy) ++ "`").

(** The event the differentiability step of the 1D branch shows. *)
Definition differentiability_verdict (expr : Expr) : event :=
  match diff expr [x] with
  | Ok d =>
      match continuous_domain d x Reals with
      | Ok dd =>
          if truthy (is_EmptySet (set_sub whole_line dd))
          then Success "✅ Function is differentiable over ℝ."
          else Warning ("⚠️ Not differentiable at: `" ++
                        str_set (set_sub whole_line dd) ++ "`")
      | Raise _ => Warning "⚠️ Could not determine differentiability."
      end
  | Raise _ => Warning "⚠️ Could not determine differentiability."
  end.

(** The event the derivative step shows when [diff] returned [r] and the
    namespace held [before]. *)
Definition derivative_shown (r : result Expr) (before : option Expr) : event :=
  match r, before with
  | Ok d, _ => Code ("f'(x) = " ++ str d)
  | Raise _, Some d0 => Code ("f'(x) = " ++ str d0)
  | Raise _, None => Warning "Could not compute derivative."
  end.

End StepVocabulary.

(** The two minimum candidates of ["x**4 - 2*x**2"], equal in value. *)
Definition tied_minima : list (MiniCAS.term * MiniCAS.term) :=
  [(MiniCAS.Rat (-1), MiniCAS.Float (-1)); (MiniCAS.Rat 1, MiniCAS.Float (-1))].

(** * Further vocabulary: failures at a critical point, sample inputs *)

Section PointVocabulary.
Context {cas : Libraries}.

(** One of the library calls of lines 197-210 raises at the point [pt]:
    a substitution, the determinant, the value of [f], one of the
    comparisons the code reaches, or the formatting of the value. *)
Definition classification_fails (expr f_xx f_yy f_xy : Expr)
    (pt : list (symbol * Expr)) : Prop :=
  (exists e, subs f_xx pt = Raise e) \/
  (exists e, subs f_xy pt = Raise e) \/
  (exists e, subs f_yy pt = Raise e) \/
  (exists e, subs expr pt = Raise e) \/
  (exists v e, subs expr pt = Ok v /\ evalf v = Raise e) \/
  (exists h11 h12 h22 e,
     subs f_xx pt = Ok h11 /\ subs f_xy pt = Ok h12 /\ subs f_yy pt = Ok h22 /\
     det2 h11 h12 h12 h22 = Raise e) \/
  (exists D fxx val,
     hessian_at expr f_xx f_yy f_xy pt D fxx val /\
     ((exists e, gt D (of_int 0) = Raise e) \/
      (gt D (of_int 0) = Ok true /\ exists e, gt fxx (of_int 0) = Raise e) \/
      (gt D (of_int 0) = Ok false /\ exists e, lt D (of_int 0) = Raise e) \/
      (exists e, format4f val = Raise e))).

End PointVocabulary.

(** ["x**4/4 + x**2/2"], its derivatives, and the roots of the first:
    [f' = x**3 + x] has the real root [0] and the roots [-I] and [I]. *)
Definition quartic : MiniCAS.term :=
  MiniCAS.Add (MiniCAS.Mul (MiniCAS.Rat (1 # 4)) (MiniCAS.Pow (MiniCAS.Sym "x") 4))
              (MiniCAS.Mul (MiniCAS.Rat (1 # 2)) (MiniCAS.Pow (MiniCAS.Sym "x") 2)).

Definition quartic_prime : MiniCAS.term :=
  MiniCAS.Add (MiniCAS.Pow (MiniCAS.Sym "x") 3) (MiniCAS.Sym "x").

Definition quartic_double : MiniCAS.term :=
  MiniCAS.Add (MiniCAS.Mul (MiniCAS.Rat 3) (MiniCAS.Pow (MiniCAS.Sym "x") 2))
              (MiniCAS.Rat 1).

Definition minus_I : MiniCAS.term := MiniCAS.Mul (MiniCAS.Rat (-1)) MiniCAS.ImagUnit.

Definition quartic_roots : list MiniCAS.term :=
  [MiniCAS.Rat 0; minus_I; MiniCAS.ImagUnit].

(** The maximum candidates of ["x**4/4 + x**2/2"]: both are roots that
    are not real. *)
Definition imaginary_maxima : list (MiniCAS.term * MiniCAS.term) :=
  [(minus_I, MiniCAS.Float (-1 # 4)); (MiniCAS.ImagUnit, MiniCAS.Float (-1 # 4))].

(** ["x**3 - 3*x + y**3 - 3*y"], with four critical points. *)
Definition four_points : MiniCAS.term :=
  MiniCAS.Add
    (MiniCAS.Add
       (MiniCAS.Add (MiniCAS.Pow (MiniCAS.Sym "x") 3)
                    (MiniCAS.Mul (MiniCAS.Rat (-3)) (MiniCAS.Sym "x")))
       (MiniCAS.Pow (MiniCAS.Sym "y") 3))
    (MiniCAS.Mul (MiniCAS.Rat (-3)) (MiniCAS.Sym "y")).

Definition at_point (a b : Q) : list (symbol * MiniCAS.term) :=
  [(x, MiniCAS.Rat a); (y, MiniCAS.Rat b)].

(** ["x**4 + y**4"], whose Hessian vanishes at the only critical point. *)
Definition quartic_bowl : MiniCAS.term :=
  MiniCAS.Add (MiniCAS.Pow (MiniCAS.Sym "x") 4) (MiniCAS.Pow (MiniCAS.Sym "y") 4).

(** ["x**3/3 + x + y**2"]: the system has the two solutions [x = -I] and
    [x = I] with [y = 0], where the determinant [4*x] is not real and its
    comparison with zero raises. *)
Definition no_real_point : MiniCAS.term :=
  MiniCAS.Add
    (MiniCAS.Add (MiniCAS.Mul (MiniCAS.Rat (1 # 3)) (MiniCAS.Pow (MiniCAS.Sym "x") 3))
                 (MiniCAS.Sym "x"))
    (MiniCAS.Pow (MiniCAS.Sym "y") 2).

Definition at_minus_I : list (symbol * MiniCAS.term) :=
  [(x, minus_I); (y, MiniCAS.Rat 0)].

Definition at_I : list (symbol * MiniCAS.term) :=
  [(x, MiniCAS.ImagUnit); (y, MiniCAS.Rat 0)].

(** * The application around the analyzer: [app.py] *)

(** ** pandas, the user file and bcrypt as an interface *)

(** The user file is read and written through pandas, and passwords go
    through bcrypt.  What a frame holds after a round trip through the file
    is left to the interface; laws about it appear as hypotheses where a
    property needs them. *)
Class Accounts : Type := {
  (** [pd.DataFrame], a row of one ([pd.Series]), a value stored in one,
      and the text of [users.csv] *)
  DataFrame : Type;
  Row : Type;
  Cell : Type;
  File : Type;

  (** [pd.DataFrame(columns=["username", "password", "approved"])] *)
  no_users : DataFrame;
  (** [df.to_csv(USER_DB, index=False, encoding="utf-8")]: the text written *)
  to_csv : DataFrame -> result File;
  (** [pd.read_csv(USER_DB, encoding="utf-8")] on the text of the file *)
  read_csv : File -> result DataFrame;
  (** [username in df["username"].values] *)
  has_username : DataFrame -> string -> result bool;
  (** [pd.concat([df, pd.DataFrame([{"username": u, "password": h,
      "approved": False}])], ignore_index=True)] *)
  add_user : DataFrame -> string -> string -> result DataFrame;
  (** [df.loc[df["username"] == username, "approved"] = True] *)
  set_approved : DataFrame -> Cell -> result DataFrame;
  (** [df[df["username"] == username]], its rows in order *)
  rows_named : DataFrame -> string -> result (list Row);
  (** [df[df["approved"] == False].iterrows()]: each row with the text of
      its index label *)
  rows_pending : DataFrame -> result (list (string * Row));
  (** [row[column]] *)
  field : Row -> string -> result Cell;
  (** the truth value of a cell in an [if], and its text in an f-string *)
  cell_truth : Cell -> result bool;
  cell_str : Cell -> string;
  (** [bcrypt.hashpw(password.encode(), salt).decode()] *)
  hashpw : string -> string -> result string;
  (** [bcrypt.checkpw(password.encode(), hashed.encode())] *)
  checkpw : string -> Cell -> result bool
}.

(** ** What the application shows *)

Inductive widget : Type :=
| PageConfig (page_title layout : string)
| Shown (ev : event)
| Radio (label : string) (options : list string)
| TextBox (label : string) (password : bool)
| Button (label : string) (key : option string)
| Markdown (body : string)
| Columns (spec : list Z).

(** How a run of the application ends.  Streamlit's [st.stop()] and
    [st.experimental_rerun()] raise control exceptions that derive from
    [BaseException]: an [except Exception] lets them through. *)
Inductive ending (A : Type) : Type :=
| Returned (a : A)
| Raised (e : exn)
| Halted
| Rerun.
Arguments Returned {A} a.
Arguments Raised {A} e.
Arguments Halted {A}.
Arguments Rerun {A}.

(** What a run reads from its user and its surroundings: the values of
    the widgets, the salt [bcrypt.gensalt()] draws, and whether
    [function_analyzer.py] could be read. *)
Record inputs : Type := {
  radio_choice : string;
  text_value : string -> string;
  pressed : string -> option string -> bool;
  gensalt : string;
  analyzer_source : result unit
}.

Section App.
Context {cas : Libraries} {db : Accounts}.

(** The state a run of the application threads: what it has shown,
    [st.session_state], and the user file (absent before the first run). *)
Record app_world : Type := {
  screen : list widget;
  session_logged_in : option bool;
  session_username : option string;
  users_csv : option File
}.

Definition App (A : Type) : Type := app_world -> ending A * app_world.

Definition app_ret {A} (a : A) : App A := fun w => (Returned a, w).

Definition app_bind {A B} (m : App A) (k : A -> App B) : App B :=
  fun w =>
    match m w with
    | (Returned a, w') => k a w'
    | (Raised e, w') => (Raised e, w')
    | (Halted, w') => (Halted, w')
    | (Rerun, w') => (Rerun, w')
    end.

Definition display (wd : widget) : App unit :=
  fun w =>
    (Returned tt,
     {| screen := screen w ++ [wd];
        session_logged_in := session_logged_in w;
        session_username := session_username w;
        users_csv := users_csv w |}).

(** A call into pandas or bcrypt. *)
Definition lib {A} (r : result A) : App A :=
  fun w =>
    match r with
    | Ok a => (Returned a, w)
    | Raise e => (Raised e, w)
    end.

(** [st.experimental_rerun()] *)
Definition st_rerun {A} : App A := fun w => (Rerun, w).

(** [try: body  except Exception as e: handler] *)
Definition try_exception {A} (body : App A) (handler : exn -> App A) : App A :=
  fun w =>
    match body w with
    | (Raised e, w') => handler e w'
    | r => r
    end.

Definition set_logged_in (b : bool) : App unit :=
  fun w =>
    (Returned tt,
     {| screen := screen w;
        session_logged_in := Some b;
        session_username := session_username w;
        users_csv := users_csv w |}).

Definition set_username (u : string) : App unit :=
  fun w =>
    (Returned tt,
     {| screen := screen w;
        session_logged_in := session_logged_in w;
        session_username := Some u;
        users_csv := users_csv w |}).

(** Reading an attribute of [st.session_state]: an [AttributeError] when
    the key is absent. *)
Definition get_logged_in : App bool :=
  fun w =>
    match session_logged_in w with
    | Some b => (Returned b, w)
    | None =>
        (Raised "AttributeError: st.session_state has no attribute 'logged_in'", w)
    end.

Definition get_username : App string :=
  fun w =>
    match session_username w with
    | Some u => (Returned u, w)
    | None =>
        (Raised "AttributeError: st.session_state has no attribute 'username'", w)
    end.

Declare Scope app_scope.
Delimit Scope app_scope with app.
Notation "x <- m ;; k" := (app_bind m (fun x => k))
  (at level 61, m at next level, right associativity) : app_scope.
Notation "m ;; k" := (app_bind m (fun _ => k))
  (at level 61, right associativity) : app_scope.
Local Open Scope app_scope.

Fixpoint app_for_each {A} (l : list A) (body : A -> App unit) : App unit :=
  match l with
  | [] => app_ret tt
  | a :: l' => body a ;; app_for_each l' body
  end.

(** [df.to_csv(USER_DB, ...)]: a write that raises is taken to leave the
    file as it was. *)
Definition write_users (df : DataFrame) : App unit :=
  fun w =>
    match to_csv df with
    | Ok f =>
        (Returned tt,
         {| screen := screen w;
            session_logged_in := session_logged_in w;
            session_username := session_username w;
            users_csv := Some f |})
    | Raise e => (Raised e, w)
    end.

(** ** Lines 7-15: page configuration and the user file *)

Definition file_not_found : exn :=
  "[Errno 2] No such file or directory: 'users.csv'".

Definition init_users : App unit :=
  fun w =>
    match users_csv w with
    | Some _ => (Returned tt, w)
    | None => write_users no_users w
    end.

(** ** Lines 18-54: the helper functions *)

Definition hash_password (password salt : string) : App string :=
  lib (hashpw password salt).

Definition check_password (password : string) (hashed : Cell) : App bool :=
  lib (checkpw password hashed).

Definition get_users : App DataFrame :=
  fun w =>
    match users_csv w with
    | Some f => lib (read_csv f) w
    | None => (Raised file_not_found, w)
    end.

Definition save_user (username password salt : string) : App bool :=
  df <- get_users ;;
  taken <- lib (has_username df username) ;;
  if taken then app_ret false
  else
    hashed_pw <- hash_password password salt ;;
    df' <- lib (add_user df username hashed_pw) ;;
    write_users df' ;;
    app_ret true.

Definition approve_user (username : Cell) : App unit :=
  df <- get_users ;;
  df' <- lib (set_approved df username) ;;
  write_users df'.

Definition login_ok : string := "Login successful.".
Definition login_pending : string := "Your account is pending admin approval.".
Definition login_invalid : string := "Invalid credentials.".

Definition authenticate_user (username password : string) : App (bool * string) :=
  df <- get_users ;;
  user <- lib (rows_named df username) ;;
  match user with
  | [] => app_ret (false, login_invalid)
  | first :: _ =>
      hashed <- lib (field first "password") ;;
      matches <- check_password password hashed ;;
      if matches then
        approved <- lib (field first "approved") ;;
        is_approved <- lib (cell_truth approved) ;;
        if is_approved then app_ret (true, login_ok)
        else app_ret (false, login_pending)
      else app_ret (false, login_invalid)
  end.

(** ** Lines 57-67: the session and logging out *)

Definition init_session : App unit :=
  fun w =>
    (Returned tt,
     {| screen := screen w;
        session_logged_in :=
          match session_logged_in w with Some b => Some b | None => Some false end;
        session_username :=
          match session_username w with Some u => Some u | None => Some "" end;
        users_csv := users_csv w |}).

Definition logout_button : widget := Button "🚪 Logout" None.

Definition logout : App unit :=
  set_logged_in false ;;
  set_username "" ;;
  display (Shown (Success "Logged out successfully.")) ;;
  st_rerun.

(** ** Lines 70-88: the admin panel *)

Definition approve_label (name : string) : string := "Approve " ++ name.
Definition approve_key (idx : string) : option string := Some ("approve_" ++ idx).

(** Lines 78-85: one pending row. *)
Definition pending_row (ui : inputs) (entry : string * Row) : App unit :=
  let '(idx, row) := entry in
  display (Columns [3%Z; 1%Z]) ;;
  name <- lib (field row "username") ;;
  display (Shown (Write ("🔸 `" ++ cell_str name ++ "`"))) ;;
  name' <- lib (field row "username") ;;
  display (Button (approve_label (cell_str name')) (approve_key idx)) ;;
  if pressed ui (approve_label (cell_str name')) (approve_key idx) then
    target <- lib (field row "username") ;;
    approve_user target ;;
    shown_name <- lib (field row "username") ;;
    display (Shown (Success (cell_str shown_name ++ " approved!"))) ;;
    st_rerun
  else app_ret tt.

Definition admin_panel (ui : inputs) : App unit :=
  display (Shown (Title "🛠️ Admin Panel")) ;;
  display (Shown (Write "Approve new user accounts below:")) ;;
  df <- get_users ;;
  pending <- lib (rows_pending df) ;;
  (match pending with
   | [] => display (Shown (Success "No pending users."))
   | _ :: _ => app_ret tt
   end) ;;
  app_for_each pending (pending_row ui) ;;
  display (Markdown "---") ;;
  display logout_button ;;
  if pressed ui "🚪 Logout" None then logout else app_ret tt.

(** ** Lines 91-117: the login and signup page *)

Definition login_page (ui : inputs) : App unit :=
  display (Shown (Title "🔐 Login / Signup")) ;;
  display (Radio "Choose an option" ["Login"; "Signup"]) ;;
  if String.eqb (radio_choice ui) "Login" then
    display (TextBox "Username" false) ;;
    display (TextBox "Password" true) ;;
    display (Button "Login" None) ;;
    if pressed ui "Login" None then
      answer <- authenticate_user (text_value ui "Username") (text_value ui "Password") ;;
      if fst answer then
        set_logged_in true ;;
        set_username (text_value ui "Username") ;;
        display (Shown (Success (snd answer))) ;;
        st_rerun
      else display (Shown (Error (snd answer)))
    else app_ret tt
  else if String.eqb (radio_choice ui) "Signup" then
    display (TextBox "Choose a username" false) ;;
    display (TextBox "Choose a password" true) ;;
    display (Button "Signup" None) ;;
    if pressed ui "Signup" None then
      saved <- save_user (text_value ui "Choose a username")
                         (text_value ui "Choose a password") (gensalt ui) ;;
      if saved
      then display (Shown (Success "✅ Signup successful! Awaiting admin approval."))
      else display (Shown (Warning "⚠️ Username already exists. Try another."))
    else app_ret tt
  else app_ret tt.

(** ** Lines 120-130: the loader of the analyzer *)

Definition analyzer_input : string := "Enter a function of x or x and y".

(** [exec(code, globals())] on the text of [function_analyzer.py]: the
    script runs in the namespace of the application, where nothing has
    assigned [derivative], and what it shows is shown by the
    application. *)
Definition exec_analyzer (equation : string) : App unit :=
  fun w =>
    let w' := {| screen := screen w ++ map Shown (out (snd (run equation)));
                 session_logged_in := session_logged_in w;
                 session_username := session_username w;
                 users_csv := users_csv w |} in
    match fst (run equation) with
    | Done _ => (Returned tt, w')
    | Uncaught e => (Raised e, w')
    | Stopped => (Halted, w')
    end.

Definition load_failed (e : exn) : widget :=
  Shown (Error ("Error loading function analyzer: " ++ e)).

Definition load_function_analyzer (ui : inputs) : App unit :=
  name <- get_username ;;
  display (Shown (Success ("Welcome, `" ++ name ++ "`! 🎉"))) ;;
  display logout_button ;;
  (if pressed ui "🚪 Logout" None then logout else app_ret tt) ;;
  display (Markdown "---") ;;
  try_exception
    (lib (analyzer_source ui) ;;
     exec_analyzer (text_value ui analyzer_input))
    (fun e => display (load_failed e)).

(** ** Lines 133-138: routing, and the whole of [app.py] *)

Definition route (ui : inputs) : App unit :=
  name <- get_username ;;
  if String.eqb name "admin" then admin_panel ui
  else
    inside <- get_logged_in ;;
    if negb inside then login_page ui
    else load_function_analyzer ui.

Definition app (ui : inputs) : App unit :=
  display (PageConfig "Function Analyzer" "wide") ;;
  init_users ;;
  init_session ;;
  route ui.

(** What one run leaves for the next: the session and the user file; the
    screen is drawn anew. *)
Definition carry (w : app_world) : app_world :=
  {| screen := [];
     session_logged_in := session_logged_in w;
     session_username := session_username w;
     users_csv := users_csv w |}.

(** The first run finds an empty session and no user file. *)
Definition first_visit : app_world :=
  {| screen := []; session_logged_in := None; session_username := None;
     users_csv := None |}.

(** The state after the runs that the interactions [uis] cause, one after
    the other. *)
Fixpoint visits (uis : list inputs) (w : app_world) : app_world :=
  match uis with
  | [] => w
  | ui :: rest => visits rest (carry (snd (app ui w)))
  end.

End App.

(** * A small instance of the accounts interface *)

(** A table kept in memory, with typed columns and a hash that can be
    read.  It stands for pandas and bcrypt where a property is shown on a
    concrete input. *)
Module PlainAccounts.

Definition account : Type := (string * string * bool)%type.

Inductive value : Type :=
| Text (s : string)
| Flag (b : bool).

Definition name_of (r : account) : string := fst (fst r).
Definition hash_of (r : account) : string := snd (fst r).
Definition approved (r : account) : bool := snd r.

Definition has_username (df : list account) (u : string) : result bool :=
  Ok (existsb (fun r => String.eqb (name_of r) u) df).

Definition add_user (df : list account) (u h : string) : result (list account) :=
  Ok (df ++ [(u, h, false)])%list.

Definition set_approved (df : list account) (c : value) : result (list account) :=
  match c with
  | Text u =>
      Ok (map (fun r => if String.eqb (name_of r) u
                        then (name_of r, hash_of r, true) else r) df)
  | Flag _ => Ok df
  end.

Definition rows_named (df : list account) (u : string) : result (list account) :=
  Ok (filter (fun r => String.eqb (name_of r) u) df).

Definition index_label (i : nat) : string := NilZero.string_of_uint (Nat.to_uint i).

Definition rows_pending (df : list account) : result (list (string * account)) :=
  Ok (filter (fun e => negb (approved (snd e)))
             (combine (map index_label (seq 0 (List.length df))) df)).

Definition field (r : account) (column : string) : result value :=
  if String.eqb column "username" then Ok (Text (name_of r))
  else if String.eqb column "password" then Ok (Text (hash_of r))
  else if String.eqb column "approved" then Ok (Flag (approved r))
  else Raise ("KeyError: '" ++ column ++ "'").

Definition cell_truth (c : value) : result bool :=
  match c with
  | Text s => Ok (negb (String.eqb s ""))
  | Flag b => Ok b
  end.

Definition cell_str (c : value) : string :=
  match c with
  | Text s => s
  | Flag true => "True"
  | Flag false => "False"
  end.

Definition hashpw (password salt : string) : result string :=
  Ok (salt ++ "$" ++ password).

Definition checkpw (password : string) (hashed : value) : result bool :=
  match hashed with
  | Text h =>
      Ok (String.eqb
            (substring (String.length h - (String.length password + 1))
                       (String.length password + 1) h)
            ("$" ++ password))
  | Flag _ => Raise "AttributeError: 'bool' object has no attribute 'encode'"
  end.

End PlainAccounts.

Definition plain_accounts : Accounts := {|
  DataFrame := list PlainAccounts.account;
  Row := PlainAccounts.account;
  Cell := PlainAccounts.value;
  File := list PlainAccounts.account;
  no_users := [];
  to_csv := fun df => Ok df;
  read_csv := fun f => Ok f;
  has_username := PlainAccounts.has_username;
  add_user := PlainAccounts.add_user;
  set_approved := PlainAccounts.set_approved;
  rows_named := PlainAccounts.rows_named;
  rows_pending := PlainAccounts.rows_pending;
  field := PlainAccounts.field;
  cell_truth := PlainAccounts.cell_truth;
  cell_str := PlainAccounts.cell_str;
  hashpw := PlainAccounts.hashpw;
  checkpw := PlainAccounts.checkpw
|}.

(** ** Vocabulary of the properties of the application *)

Section AppVocabulary.
Context {cas : Libraries} {db : Accounts}.

(** The world [w] with the widgets [l] shown after what it shows. *)
Definition showing (w : app_world) (l : list widget) : app_world :=
  {| screen := screen w ++ l;
     session_logged_in := session_logged_in w;
     session_username := session_username w;
     users_csv := users_csv w |}.

(** What the loader shows before it runs the analyzer. *)
Definition loader_head (name : string) : list widget :=
  [Shown (Success ("Welcome, `" ++ name ++ "`! 🎉")); logout_button; Markdown "---"].

(** The computation [m] takes a state of the session and the user file
    that satisfies [J] to one that does. *)
Definition preserves (J : option bool -> option string -> option File -> Prop)
    {A} (m : App A) : Prop :=
  forall w,
    J (session_logged_in w) (session_username w) (users_csv w) ->
    J (session_logged_in (snd (m w))) (session_username (snd (m w)))
      (users_csv (snd (m w))).

(** [m] leaves the session and the user file as they are. *)
Definition untouched {A} (m : App A) : Prop :=
  forall w,
    session_logged_in (snd (m w)) = session_logged_in w /\
    session_username (snd (m w)) = session_username w /\
    users_csv (snd (m w)) = users_csv w.

(** The session holds the name [n], or the empty name that a logout and
    line 60 give it. *)
Definition name_kept_or_cleared (n : option string)
    (li : option bool) (un : option string) (f : option File) : Prop :=
  un = n \/ un = Some "".

(** No login can succeed on the user file: whatever the name, the first
    row found for it is not approved. *)
Definition locked (f : option File) : Prop :=
  forall file df u first rest a,
    f = Some file -> read_csv file = Ok df ->
    rows_named df u = Ok (first :: rest) ->
    field first "approved" = Ok a ->
    cell_truth a <> Ok true.

(** The user file holds a row that lets [username] in with [password]:
    the first row of that name has a hash the password matches and is
    approved. *)
Definition accepts (f : option File) (username password : string) : Prop :=
  exists file df first rest hashed a,
    f = Some file /\ read_csv file = Ok df /\
    rows_named df username = Ok (first :: rest) /\
    field first "password" = Ok hashed /\ checkpw password hashed = Ok true /\
    field first "approved" = Ok a /\ cell_truth a = Ok true.

(** The run that [ui] causes from [w] is routed to the login page, and
    there the login form is submitted under [name] with a password that the
    user file, as lines 13-15 leave it, accepts. *)
Definition logs_in (ui : inputs) (w : app_world) (name : string) : Prop :=
  session_username w <> Some "admin" /\
  session_logged_in w <> Some true /\
  radio_choice ui = "Login" /\
  pressed ui "Login" None = true /\
  text_value ui "Username" = name /\
  accepts (users_csv (snd (init_users w))) name (text_value ui "Password").

(** Nobody is logged in and nobody can log in. *)
Definition locked_out
    (li : option bool) (un : option string) (f : option File) : Prop :=
  (li = None \/ li = Some false) /\ (un = None \/ un = Some "") /\ locked f.

(** The user file is [f]. *)
Definition file_stays (f : File)
    (li : option bool) (un : option string) (file : option File) : Prop :=
  file = Some f.

(** A session that a visitor arrives with, the user file being [f]. *)
Definition arrival (f : option File) : app_world :=
  {| screen := []; session_logged_in := None; session_username := None;
     users_csv := f |}.

(** The title the analyzer shows first. *)
Definition is_analyzer_title (wd : widget) : bool :=
  match wd with
  | Shown (Title t) => String.eqb t "📈 Function Analyzer"
  | _ => false
  end.

(** The title the admin panel shows first. *)
Definition is_admin_title (wd : widget) : bool :=
  match wd with
  | Shown (Title t) => String.eqb t "🛠️ Admin Panel"
  | _ => false
  end.

(** None of the runs that the interactions [uis] cause from [w], one after
    the other, shows the analyzer. *)
Fixpoint analyzer_never_shown (uis : list inputs) (w : app_world) : bool :=
  match uis with
  | [] => true
  | ui :: rest =>
      negb (existsb is_analyzer_title (screen (snd (app ui w)))) &&
      analyzer_never_shown rest (carry (snd (app ui w)))
  end.

(** [m] only adds to the screen, and nothing that [p] selects. *)
Definition shows_none (p : widget -> bool) {A} (m : App A) : Prop :=
  forall w, exists l, screen (snd (m w)) = (screen w ++ l)%list /\
                      existsb p l = false.

End AppVocabulary.

(** A logged-in user and the inputs of a visit to the analyzer. *)
Definition typing (equation : string) : inputs :=
  {| radio_choice := "Login";
     text_value := fun label =>
       if String.eqb label analyzer_input then equation else "";
     pressed := fun _ _ => false;
     gensalt := "salt";
     analyzer_source := Ok tt |}.

Definition logged_in_as (name : string) (f : list PlainAccounts.account)
    : @app_world plain_accounts :=
  @Build_app_world plain_accounts [] (Some true) (Some name) (Some f).

(** The user file with an approved administrator, and the inputs of the
    administrator logging in. *)
Definition with_admin : list PlainAccounts.account :=
  [("admin", "salt$secret", true)].

Definition admin_login : inputs :=
  {| radio_choice := "Login";
     text_value := fun label =>
       if String.eqb label "Username" then "admin"
       else if String.eqb label "Password" then "secret" else "";
     pressed := fun label _ => String.eqb label "Login";
     gensalt := "salt";
     analyzer_source := Ok tt |}.

(** The inputs of a visitor signing up, and of the same visitor trying to
    log in. *)
Definition signup_as (name password : string) : inputs :=
  {| radio_choice := "Signup";
     text_value := fun label =>
       if String.eqb label "Choose a username" then name
       else if String.eqb label "Choose a password" then password else "";
     pressed := fun label _ => String.eqb label "Signup";
     gensalt := "salt";
     analyzer_source := Ok tt |}.

Definition login_as (name password : string) : inputs :=
  {| radio_choice := "Login";
     text_value := fun label =>
       if String.eqb label "Username" then name
       else if String.eqb label "Password" then password else "";
     pressed := fun label _ => String.eqb label "Login";
     gensalt := "salt";
     analyzer_source := Ok tt |}.

(** * Properties *)

(** ** How the combinators of the script treat output, namespace and
       exceptions *)

Section Frames.
Context {cas : Libraries}.
Variable P : event -> Prop.

Lemma adds_ret {A} (a : A) : adds P (ret a).
Proof. intro w. exists []. cbn. now rewrite app_nil_r. Qed.

Lemma adds_call {A} (r : result A) : adds P (call r).
Proof. intro w. exists []. unfold call. destruct r; cbn; now rewrite app_nil_r. Qed.

Lemma adds_stop {A} : adds P (@stop cas A).
Proof. intro w. exists []. cbn. now rewrite app_nil_r. Qed.

Lemma adds_emit (ev : event) : P ev -> adds P (emit ev).
Proof. intros H w. exists [ev]. cbn. auto. Qed.

Lemma adds_assign (d : Expr) : adds P (assign_derivative d).
Proof. intro w. exists []. cbn. now rewrite app_nil_r. Qed.

Lemma adds_read : adds P read_derivative.
Proof.
  intro w. exists []. unfold read_derivative.
  destruct (derivative w); cbn; now rewrite app_nil_r.
Qed.

Lemma adds_bind {A B} (m : M A) (k : A -> M B) :
  adds P m -> (forall a, adds P (k a)) -> adds P (bind m k).
Proof.
  intros Hm Hk w. unfold bind.
  destruct (Hm w) as [l [El Fl]].
  destruct (m w) as [[a | e |] w1]; cbn in *.
  - destruct (Hk a w1) as [l' [El' Fl']].
    exists (l ++ l')%list. rewrite El', El, app_assoc. split; auto.
    apply Forall_app; auto.
  - exists l; auto.
  - exists l; auto.
Qed.

Lemma adds_try {A} (body : M A) (handler : exn -> M A) :
  adds P body -> (forall e, adds P (handler e)) -> adds P (try_except body handler).
Proof.
  intros Hb Hh w. unfold try_except.
  destruct (Hb w) as [l [El Fl]].
  destruct (body w) as [[a | e |] w1]; cbn in *.
  - exists l; auto.
  - destruct (Hh e w1) as [l' [El' Fl']].
    exists (l ++ l')%list. rewrite El', El, app_assoc. split; auto.
    apply Forall_app; auto.
  - exists l; auto.
Qed.

Lemma adds_for_each {A} (l : list A) (body : A -> M unit) :
  (forall a, adds P (body a)) -> adds P (for_each l body).
Proof.
  intros Hb. induction l as [| a l IH]; cbn.
  - apply adds_ret.
  - apply adds_bind; auto.
Qed.

End Frames.

Section Namespace.
Context {cas : Libraries}.

Lemma keeps_ret {A} (a : A) : keeps_namespace (ret a).
Proof. intro w. reflexivity. Qed.

Lemma keeps_call {A} (r : result A) : keeps_namespace (call r).
Proof. intro w. unfold call. now destruct r. Qed.

Lemma keeps_stop {A} : keeps_namespace (@stop cas A).
Proof. intro w. reflexivity. Qed.

Lemma keeps_emit (ev : event) : keeps_namespace (emit ev).
Proof. intro w. reflexivity. Qed.

Lemma keeps_read : keeps_namespace read_derivative.
Proof. intro w. unfold read_derivative. now destruct (derivative w) eqn:E. Qed.

Lemma keeps_bind {A B} (m : M A) (k : A -> M B) :
  keeps_namespace m -> (forall a, keeps_namespace (k a)) -> keeps_namespace (bind m k).
Proof.
  intros Hm Hk w. unfold bind. specialize (Hm w).
  destruct (m w) as [[a | e |] w1]; cbn in *; auto.
  now rewrite Hk.
Qed.

Lemma keeps_try {A} (body : M A) (handler : exn -> M A) :
  keeps_namespace body -> (forall e, keeps_namespace (handler e)) ->
  keeps_namespace (try_except body handler).
Proof.
  intros Hb Hh w. unfold try_except. specialize (Hb w).
  destruct (body w) as [[a | e |] w1]; cbn in *; auto.
  now rewrite Hh.
Qed.

Lemma keeps_for_each {A} (l : list A) (body : A -> M unit) :
  (forall a, keeps_namespace (body a)) -> keeps_namespace (for_each l body).
Proof.
  intros Hb. induction l as [| a l IH]; cbn.
  - apply keeps_ret.
  - apply keeps_bind; auto.
Qed.

Lemma never_stops_ret {A} (a : A) : never_stops (ret a).
Proof. intro w. discriminate. Qed.

Lemma never_stops_call {A} (r : result A) : never_stops (call r).
Proof. intro w. unfold call. destruct r; discriminate. Qed.

Lemma never_stops_emit (ev : event) : never_stops (emit ev).
Proof. intro w. discriminate. Qed.

Lemma never_stops_assign (d : Expr) : never_stops (assign_derivative d).
Proof. intro w. discriminate. Qed.

Lemma never_stops_read : never_stops read_derivative.
Proof. intro w. unfold read_derivative. destruct (derivative w); discriminate. Qed.

Lemma never_stops_bind {A B} (m : M A) (k : A -> M B) :
  never_stops m -> (forall a, never_stops (k a)) -> never_stops (bind m k).
Proof.
  intros Hm Hk w. unfold bind. specialize (Hm w).
  destruct (m w) as [[a | e |] w1]; cbn in *; try discriminate.
  - apply Hk.
  - congruence.
Qed.

Lemma never_stops_try {A} (body : M A) (handler : exn -> M A) :
  never_stops body -> (forall e, never_stops (handler e)) ->
  never_stops (try_except body handler).
Proof.
  intros Hb Hh w. unfold try_except. specialize (Hb w).
  destruct (body w) as [[a | e |] w1]; cbn in *; try discriminate.
  - apply Hh.
  - congruence.
Qed.

Lemma never_stops_for_each {A} (l : list A) (body : A -> M unit) :
  (forall a, never_stops (body a)) -> never_stops (for_each l body).
Proof.
  intros Hb. induction l as [| a l IH]; cbn.
  - apply never_stops_ret.
  - apply never_stops_bind; auto.
Qed.

Lemma recovers_try (body : M unit) (ev : event) :
  never_stops body -> recovers (try_except body (fun _ => emit ev)).
Proof.
  intros Hb w. unfold try_except. specialize (Hb w).
  destruct (body w) as [[[] | e |] w1]; cbn in *.
  - now exists tt.
  - now exists tt.
  - congruence.
Qed.

Lemma recovers_bind {A B} (m : M A) (k : A -> M B) :
  recovers m -> (forall a, recovers (k a)) -> recovers (bind m k).
Proof.
  intros Hm Hk w. unfold bind. destruct (Hm w) as [a Ha].
  destruct (m w) as [o w1]; cbn in *. subst o. apply Hk.
Qed.

Lemma recovers_emit (ev : event) : recovers (emit ev).
Proof. intro w. now exists tt. Qed.

Lemma recovers_for_each {A} (l : list A) (body : A -> M unit) :
  (forall a, recovers (body a)) -> recovers (for_each l body).
Proof.
  intros Hb. induction l as [| a l IH]; cbn.
  - intro w. now exists tt.
  - apply recovers_bind; auto.
Qed.

End Namespace.

(** One step of a frame proof: split the combinator at the head of the
    computation, or decide the test it branches on. *)
Ltac frame_step :=
  cbv zeta;
  match goal with
  | |- adds _ (bind _ _) => apply adds_bind; [ | intro ]
  | |- adds _ (try_except _ _) => apply adds_try; [ | intro ]
  | |- adds _ (for_each _ _) => apply adds_for_each; intro
  | |- adds _ (emit _) => apply adds_emit; try (unfold quiet; reflexivity)
  | |- adds _ (call _) => apply adds_call
  | |- adds _ (ret _) => apply adds_ret
  | |- adds _ stop => apply adds_stop
  | |- adds _ (assign_derivative _) => apply adds_assign
  | |- adds _ read_derivative => apply adds_read
  | |- keeps_namespace (bind _ _) => apply keeps_bind; [ | intro ]
  | |- keeps_namespace (try_except _ _) => apply keeps_try; [ | intro ]
  | |- keeps_namespace (for_each _ _) => apply keeps_for_each; intro
  | |- keeps_namespace (emit _) => apply keeps_emit
  | |- keeps_namespace (call _) => apply keeps_call
  | |- keeps_namespace (ret _) => apply keeps_ret
  | |- keeps_namespace stop => apply keeps_stop
  | |- keeps_namespace read_derivative => apply keeps_read
  | |- never_stops (bind _ _) => apply never_stops_bind; [ | intro ]
  | |- never_stops (try_except _ _) => apply never_stops_try; [ | intro ]
  | |- never_stops (for_each _ _) => apply never_stops_for_each; intro
  | |- never_stops (emit _) => apply never_stops_emit
  | |- never_stops (call _) => apply never_stops_call
  | |- never_stops (ret _) => apply never_stops_ret
  | |- never_stops (assign_derivative _) => apply never_stops_assign
  | |- never_stops read_derivative => apply never_stops_read
  | |- _ (if ?b then _ else _) => destruct b
  | |- _ (match ?l with _ => _ end) => destruct l
  end.

Ltac frame := repeat frame_step.

(** ** The steps of the two branches, one by one *)

Section Steps.
Context {cas : Libraries}.

Lemma bind_done {A B} (m : M A) (k : A -> M B) w a w' :
  m w = (Done a, w') -> bind m k w = k a w'.
Proof. intros E. unfold bind. now rewrite E. Qed.

Lemma bind_uncaught {A B} (m : M A) (k : A -> M B) w e w' :
  m w = (Uncaught e, w') -> bind m k w = (Uncaught e, w').
Proof. intros E. unfold bind. now rewrite E. Qed.

(** After its header, neither branch shows another header. *)
Lemma analyze_1d_headers expr w :
  exists l, out (snd (analyze_1d expr w)) = (out w ++ Header header_1d :: l)%list /\
            Forall (quiet is_header) l.
Proof.
  unfold analyze_1d.
  rewrite (bind_done _ _ w tt {| out := out w ++ [Header header_1d];
                                 derivative := derivative w |}) by reflexivity.
  match goal with |- context [snd (?m ?w1)] =>
    assert (H : adds (quiet is_header) m)
  end.
  { unfold continuity_1d, differentiability_1d, derivative_display_1d, plot_1d,
      show_figure, limits_1d, extrema_1d, report_extrema. frame. }
  match goal with |- context [snd (?m ?w1)] => destruct (H w1) as [l [El Fl]] end.
  exists l. rewrite El. cbn. rewrite <- app_assoc. auto.
Qed.

Lemma analyze_2d_headers expr w :
  exists l, out (snd (analyze_2d expr w)) = (out w ++ Header header_2d :: l)%list /\
            Forall (quiet is_header) l.
Proof.
  unfold analyze_2d.
  rewrite (bind_done _ _ w tt {| out := out w ++ [Header header_2d];
                                 derivative := derivative w |}) by reflexivity.
  match goal with |- context [snd (?m ?w1)] =>
    assert (H : adds (quiet is_header) m)
  end.
  { unfold continuity_2d, differentiability_2d, plot_2d, show_figure, radial_2d,
      critical_points_2d, classify_2d. frame. }
  match goal with |- context [snd (?m ?w1)] => destruct (H w1) as [l [El Fl]] end.
  exists l. rewrite El. cbn. rewrite <- app_assoc. auto.
Qed.

Lemma quiet_not_in p l ev : Forall (quiet p) l -> p ev = true -> ~ In ev l.
Proof.
  intros F Hp Hin. rewrite Forall_forall in F. specialize (F ev Hin).
  unfold quiet in F. congruence.
Qed.

(** Lines 20-30, 118 and 216: which of [x] and [y] occur decides the
    branch. *)
Lemma dispatch_cases expr w :
  dispatch expr w =
    if sym_in x (free_symbols expr) && negb (sym_in y (free_symbols expr))
    then analyze_1d expr w
    else if sym_in x (free_symbols expr) && sym_in y (free_symbols expr)
    then analyze_2d expr w
    else emit (Warning unsupported_msg) w.
Proof.
  unfold dispatch, vars_used.
  destruct (sym_in x (free_symbols expr)), (sym_in y (free_symbols expr));
    reflexivity.
Qed.

Lemma run_parsed equation expr :
  sympify equation = Ok expr -> run equation = dispatch expr at_dispatch.
Proof.
  intros E. unfold run, script, bind, try_except, call, emit. cbn. rewrite E.
  reflexivity.
Qed.

End Steps.

(** ** Parsing and branch selection *)

Section Selection.
Context {cas : Libraries}.

(** C8: when [sympify] raises on the input text, the script shows the
    error with the exception's message, stops there, and has shown no
    header or step of either analysis branch; the run ends by [st.stop()],
    not by an uncaught exception. *)
Theorem parse_error_halts_before_analysis (equation : string) (e : exn) :
  sympify equation = Raise e ->
  run equation =
    (Stopped,
     {| out := banner ++ [Error ("Invalid expression: " ++ e)];
        derivative := None |}).
Proof.
  intros E. unfold run, script, bind, try_except, call, emit, stop. cbn.
  rewrite E. reflexivity.
Qed.

(** C7: for a parsed expression the branch depends only on which of [x]
    and [y] occur free: [x] alone runs the 1D branch, both run the 2D
    branch, and every other case (none, or [y] alone) shows the warning of
    line 217 and nothing else.  The header of a branch is shown exactly in
    its case. *)
Theorem branch_selection (equation : string) (expr : Expr) :
  sympify equation = Ok expr ->
  let has_x := sym_in x (free_symbols expr) in
  let has_y := sym_in y (free_symbols expr) in
  run equation =
    (if has_x && negb has_y then analyze_1d expr at_dispatch
     else if has_x && has_y then analyze_2d expr at_dispatch
     else unsupported_run) /\
  (In (Header header_1d) (out (snd (run equation))) <->
   has_x = true /\ has_y = false) /\
  (In (Header header_2d) (out (snd (run equation))) <->
   has_x = true /\ has_y = true).
Proof.
  intros E has_x has_y.
  assert (R : run equation =
    (if has_x && negb has_y then analyze_1d expr at_dispatch
     else if has_x && has_y then analyze_2d expr at_dispatch
     else unsupported_run)).
  { rewrite (run_parsed _ _ E), dispatch_cases. fold has_x has_y.
    destruct has_x, has_y; reflexivity. }
  split; [exact R |].
  rewrite R.
  destruct (analyze_1d_headers expr at_dispatch) as [l1 [E1 F1]].
  destruct (analyze_2d_headers expr at_dispatch) as [l2 [E2 F2]].
  assert (N1 : ~ In (Header header_1d) l1) by (eapply quiet_not_in; eauto).
  assert (N2 : ~ In (Header header_2d) l1) by (eapply quiet_not_in; eauto).
  assert (N3 : ~ In (Header header_1d) l2) by (eapply quiet_not_in; eauto).
  assert (N4 : ~ In (Header header_2d) l2) by (eapply quiet_not_in; eauto).
  destruct has_x, has_y; cbn [andb negb]; rewrite ?E1, ?E2; cbn;
    (split; split; intros Hx);
    repeat match goal with
      | H : _ \/ _ |- _ => destruct H
      | H : _ /\ _ |- _ => destruct H
      end;
    try discriminate; try contradiction; auto.
Qed.

End Selection.

Lemma parse_error_halts_witness :
  @run minicas "x +* 2" =
    (Stopped,
     {| out := banner ++
          [Error ("Invalid expression: " ++
                  "could not parse 'x +* 2': SyntaxError: invalid syntax")];
        derivative := None |}).
Proof.
  apply (@parse_error_halts_before_analysis minicas "x +* 2").
  vm_compute. reflexivity.
Defined.

Lemma branch_selection_witness :
  @run minicas "y" = unsupported_run /\
  ~ In (Header header_1d) (out (snd (@run minicas "y"))).
Proof.
  destruct (@branch_selection minicas "y" (MiniCAS.Sym "y") eq_refl) as [R [H1 _]].
  split.
  - exact R.
  - intro H. apply H1 in H. destruct H as [H _]. discriminate H.
Defined.

(** ** Extrema of the 1D branch *)

Section Extrema.
Context {cas : Libraries}.
Variables expr f_double : Expr.

(** The loop appends, point by point, what the test of that point says. *)
Lemma classify_1d_entries cps mins maxs :
  classify_1d expr f_double cps mins maxs =
    ((mins ++ flat_map (min_entry expr f_double) cps)%list,
     (maxs ++ flat_map (max_entry expr f_double) cps)%list).
Proof.
  revert mins maxs. induction cps as [| pt cps IH]; intros mins maxs; cbn.
  - now rewrite !app_nil_r.
  - unfold min_entry at 1, max_entry at 1.
    destruct (second_derivative_test expr f_double pt) as [[val | val |] | e];
      rewrite IH; cbn; rewrite <- ?app_assoc; reflexivity.
Qed.

Lemma in_min_entries cps pt val :
  In (pt, val) (fst (classify_1d expr f_double cps [] [])) <->
  In pt cps /\ second_derivative_test expr f_double pt = Ok (MinCandidate val).
Proof.
  rewrite classify_1d_entries. cbn. rewrite in_flat_map. split.
  - intros [p [Hp Hin]]. unfold min_entry in Hin.
    destruct (second_derivative_test expr f_double p) as [[v | v |] | e] eqn:E;
      cbn in Hin; try contradiction.
    destruct Hin as [Hin | []]. inversion Hin; subst. auto.
  - intros [Hp E]. exists pt. split; auto. unfold min_entry. rewrite E. now left.
Qed.

Lemma in_max_entries cps pt val :
  In (pt, val) (snd (classify_1d expr f_double cps [] [])) <->
  In pt cps /\ second_derivative_test expr f_double pt = Ok (MaxCandidate val).
Proof.
  rewrite classify_1d_entries. cbn. rewrite in_flat_map. split.
  - intros [p [Hp Hin]]. unfold max_entry in Hin.
    destruct (second_derivative_test expr f_double p) as [[v | v |] | e] eqn:E;
      cbn in Hin; try contradiction.
    destruct Hin as [Hin | []]. inversion Hin; subst. auto.
  - intros [Hp E]. exists pt. split; auto. unfold max_entry. rewrite E. now left.
Qed.

(** The test of lines 94-99 read by its signs. *)
Lemma test_min pt val :
  second_derivative_test expr f_double pt = Ok (MinCandidate val) <->
  exists second, evaluates_at expr f_double pt second val /\
                 gt second (of_int 0) = Ok true.
Proof.
  unfold second_derivative_test, evaluates_at, rbind. split.
  - destruct (subs f_double [(x, pt)]) as [second |]; try discriminate.
    destruct (subs expr [(x, pt)]) as [v |]; try discriminate.
    destruct (evalf v) as [val' |] eqn:Ev; try discriminate.
    destruct (gt second (of_int 0)) as [[] |] eqn:G; try discriminate.
    + intros H. inversion H; subst. exists second. eauto 6.
    + destruct (lt second (of_int 0)) as [[] |]; discriminate.
  - intros [second [[E1 [v [E2 E3]]] E4]]. now rewrite E1, E2, E3, E4.
Qed.

Lemma test_max pt val :
  second_derivative_test expr f_double pt = Ok (MaxCandidate val) <->
  exists second, evaluates_at expr f_double pt second val /\
                 gt second (of_int 0) = Ok false /\
                 lt second (of_int 0) = Ok true.
Proof.
  unfold second_derivative_test, evaluates_at, rbind. split.
  - destruct (subs f_double [(x, pt)]) as [second |]; try discriminate.
    destruct (subs expr [(x, pt)]) as [v |]; try discriminate.
    destruct (evalf v) as [val' |] eqn:Ev; try discriminate.
    destruct (gt second (of_int 0)) as [[] |] eqn:G; try discriminate.
    destruct (lt second (of_int 0)) as [[] |] eqn:L; try discriminate.
    intros H. inversion H; subst. exists second. eauto 6.
  - intros [second [[E1 [v [E2 E3]]] [E4 E5]]]. now rewrite E1, E2, E3, E4, E5.
Qed.

Lemma test_degenerate pt :
  degenerate expr f_double pt ->
  second_derivative_test expr f_double pt = Ok NoCandidate.
Proof.
  intros [second [v [val [E1 [E2 [E3 [E4 E5]]]]]]].
  unfold second_derivative_test, rbind. now rewrite E1, E2, E3, E4, E5.
Qed.


End Extrema.

Section Best.
Context {cas : Libraries}.

(** The scan of [min] and [max]: under a comparison that orders the keys,
    the result is an element whose value no other element goes below. *)
Lemma best_from_least cmp num rest : forall b0,
  orders cmp num (b0 :: rest) ->
  exists best,
    best_from cmp b0 rest = Ok best /\ In best (b0 :: rest) /\
    num (snd best) <= num (snd b0) /\
    forall c, In c rest -> num (snd best) <= num (snd c).
Proof.
  induction rest as [| item rest IH]; intros b0 Hord.
  - exists b0. cbn. repeat split; auto using Qle_refl. intros c [].
  - cbn [best_from].
    destruct (Hord item b0) as [r [Er Hr]]; [right; now left | now left |].
    rewrite Er.
    assert (Hsub : forall b, In b (b0 :: item :: rest) ->
                     orders cmp num (b :: rest)).
    { intros b Hb a c Ha Hc. apply Hord.
      - destruct Ha as [<- | Ha]; auto. right; right; exact Ha.
      - destruct Hc as [<- | Hc]; auto. right; right; exact Hc. }
    destruct r.
    + destruct (IH item) as [best [Eb [Hin [Hle Hall]]]].
      { apply Hsub. right; now left. }
      assert (Hlt : num (snd item) < num (snd b0)) by now apply Hr.
      exists best. repeat split; auto.
      * destruct Hin as [<- | Hin]; [right; now left | right; right; exact Hin].
      * apply Qle_trans with (num (snd item)); auto using Qlt_le_weak.
      * intros c [<- | Hc]; auto.
    + destruct (IH b0) as [best [Eb [Hin [Hle Hall]]]].
      { apply Hsub. now left. }
      assert (Hge : num (snd b0) <= num (snd item)).
      { apply Qnot_lt_le. intro Hlt. apply Hr in Hlt. discriminate. }
      exists best. repeat split; auto.
      * destruct Hin as [<- | Hin]; [now left | right; right; exact Hin].
      * intros c [<- | Hc]; auto. apply Qle_trans with (num (snd b0)); auto.
Qed.

Lemma py_min_least num a l :
  ordered_by num (a :: l) ->
  exists best,
    py_min (a :: l) = Ok best /\ In best (a :: l) /\
    forall c, In c (a :: l) -> num (snd best) <= num (snd c).
Proof.
  intros Hord.
  destruct (best_from_least lt num l a) as [best [Eb [Hin [Hle Hall]]]].
  { intros p q Hp Hq. exact (proj1 (Hord p q Hp Hq)). }
  exists best. repeat split; auto. intros c [<- | Hc]; auto.
Qed.

Lemma py_max_greatest num a l :
  ordered_by num (a :: l) ->
  exists best,
    py_max (a :: l) = Ok best /\ In best (a :: l) /\
    forall c, In c (a :: l) -> num (snd c) <= num (snd best).
Proof.
  intros Hord.
  destruct (best_from_least gt (fun e => - num e) l a)
    as [best [Eb [Hin [Hle Hall]]]].
  { intros p q Hp Hq. destruct (proj2 (Hord p q Hp Hq)) as [r [Er Hr]].
    exists r. split; auto. rewrite Hr. split; intro H.
    - now apply Qopp_lt_compat.
    - apply Qopp_lt_compat in H. now rewrite !Qopp_involutive in H. }
  exists best. repeat split; auto.
  intros c Hc.
  assert (Hc' : - num (snd best) <= - num (snd c)).
  { destruct Hc as [<- | Hc]; auto. }
  apply Qopp_le_compat in Hc'. now rewrite !Qopp_involutive in Hc'.
Qed.

(** Lines 103-113: one message for the minimum and one for the maximum. *)
Lemma report_extrema_events num mins maxs w :
  ordered_by num mins -> ordered_by num maxs ->
  exists ev_min ev_max,
    report_extrema mins maxs w =
      (Done tt, {| out := out w ++ [ev_min; ev_max]; derivative := derivative w |}) /\
    (mins = [] -> ev_min = Info no_min_msg) /\
    (mins <> [] ->
     exists best, ev_min = Success (min_msg best) /\ In best mins /\
                  forall c, In c mins -> num (snd best) <= num (snd c)) /\
    (maxs = [] -> ev_max = Info no_max_msg) /\
    (maxs <> [] ->
     exists best, ev_max = Success (max_msg best) /\ In best maxs /\
                  forall c, In c maxs -> num (snd c) <= num (snd best)).
Proof.
  intros Hmin Hmax. unfold report_extrema, bind, call, emit.
  destruct mins as [| a mins]; destruct maxs as [| b maxs].
  - exists (Info no_min_msg), (Info no_max_msg). cbn. rewrite <- app_assoc.
    repeat split; auto; congruence.
  - destruct (py_max_greatest num b maxs Hmax) as [best [Eb [Hin Hall]]].
    exists (Info no_min_msg), (Success (max_msg best)). rewrite Eb.
    cbn. rewrite <- app_assoc. repeat split; auto; try congruence. eauto.
  - destruct (py_min_least num a mins Hmin) as [best [Eb [Hin Hall]]].
    exists (Success (min_msg best)), (Info no_max_msg). rewrite Eb.
    cbn. rewrite <- app_assoc. repeat split; auto; try congruence. eauto.
  - destruct (py_min_least num a mins Hmin) as [best [Eb [Hin Hall]]].
    destruct (py_max_greatest num b maxs Hmax) as [best' [Eb' [Hin' Hall']]].
    exists (Success (min_msg best)), (Success (max_msg best')).
    rewrite Eb. cbn -[py_max]. rewrite Eb'.
    cbn. rewrite <- app_assoc. repeat split; auto; try congruence; eauto.
Qed.

(** Lines 86-91: the step up to the report. *)
Lemma extrema_1d_unfold expr f_prime f_double cps w :
  diff expr [x] = Ok f_prime -> diff f_prime [x] = Ok f_double ->
  solve f_prime x = Ok cps ->
  extrema_1d expr w =
    report_extrema (fst (classify_1d expr f_double cps [] []))
                   (snd (classify_1d expr f_double cps [] []))
                   {| out := out w ++ [Subheader extrema_title];
                      derivative := derivative w |}.
Proof.
  intros E1 E2 E3. unfold extrema_1d, bind, call, emit. cbn.
  rewrite E1, E2, E3.
  now destruct (classify_1d expr f_double cps [] []).
Qed.

End Best.

Section ExtremaClaims.
Context {cas : Libraries}.

(** C4, as the code has it: the critical points of the 1D branch are
    the roots that [solve] returns, all of them: line 89 passes
    [domain=sp.S.Reals], but no test of a root being real takes part in
    what follows.  Of these roots, one is a minimum candidate exactly when
    [f''] there tests above zero and a maximum candidate exactly when it
    tests below zero ([f] and [f''] evaluating at the root); a root where
    [f''] is neither, or where the evaluation raises, is in neither list.
    The step then shows one message for the minimum and one for the maximum
    and ends normally: for an empty list the "no global minimum" ("no
    global maximum") message, otherwise the "global minimum" ("global
    maximum") message with the value and the place of a candidate whose
    value of [f] no other candidate goes below (above).  The comparisons of
    the library are assumed to order the candidates' values as the
    rationals [num] gives them. *)
Theorem extrema_1d_takes_every_root
    (expr f_prime f_double : Expr) (cps : list Expr) (num : Expr -> Q) (w : world) :
  diff expr [x] = Ok f_prime ->
  diff f_prime [x] = Ok f_double ->
  solve f_prime x = Ok cps ->
  let min_pts := fst (classify_1d expr f_double cps [] []) in
  let max_pts := snd (classify_1d expr f_double cps [] []) in
  ordered_by num min_pts ->
  ordered_by num max_pts ->
  (forall pt val,
     In (pt, val) min_pts <->
     In pt cps /\
     exists second, evaluates_at expr f_double pt second val /\
                    gt second (of_int 0) = Ok true) /\
  (forall pt val,
     In (pt, val) max_pts <->
     In pt cps /\
     exists second, evaluates_at expr f_double pt second val /\
                    gt second (of_int 0) = Ok false /\
                    lt second (of_int 0) = Ok true) /\
  (forall pt,
     In pt cps ->
     degenerate expr f_double pt \/
     (exists e, second_derivative_test expr f_double pt = Raise e) ->
     forall val, ~ In (pt, val) min_pts /\ ~ In (pt, val) max_pts) /\
  exists ev_min ev_max,
    extrema_1d expr w =
      (Done tt,
       {| out := out w ++ [Subheader "🔻 Global Min / Max"; ev_min; ev_max];
          derivative := derivative w |}) /\
    (min_pts = [] ->
     ev_min = Info "No global minimum (or function is unbounded below).") /\
    (min_pts <> [] ->
     exists best,
       ev_min = Success ("✅ Global minimum: f(x) = " ++ str (snd best) ++
                         " at x = " ++ str (fst best)) /\
       In best min_pts /\
       forall c, In c min_pts -> num (snd best) <= num (snd c)) /\
    (max_pts = [] ->
     ev_max = Info "No global maximum (or function is unbounded above).") /\
    (max_pts <> [] ->
     exists best,
       ev_max = Success ("✅ Global maximum: f(x) = " ++ str (snd best) ++
                         " at x = " ++ str (fst best)) /\
       In best max_pts /\
       forall c, In c max_pts -> num (snd c) <= num (snd best)).
Proof.
  intros E1 E2 E3 min_pts max_pts Hmin Hmax.
  split; [| split; [| split]].
  - intros pt val. unfold min_pts. rewrite in_min_entries, test_min. reflexivity.
  - intros pt val. unfold max_pts. rewrite in_max_entries, test_max. reflexivity.
  - intros pt Hpt Hdrop val. unfold min_pts, max_pts.
    rewrite in_min_entries, in_max_entries.
    split; intros [_ E]; destruct Hdrop as [Hd | [e He]];
      try (apply test_degenerate in Hd); congruence.
  - destruct (report_extrema_events num min_pts max_pts
                {| out := out w ++ [Subheader extrema_title];
                   derivative := derivative w |} Hmin Hmax)
      as [ev_min [ev_max [E [H1 [H2 [H3 H4]]]]]].
    exists ev_min, ev_max. split; [| split; [| split; [| split]]].
    + rewrite (extrema_1d_unfold _ _ _ _ _ E1 E2 E3). fold min_pts max_pts.
      rewrite E. cbn. now rewrite <- app_assoc.
    + exact H1.
    + intros Hne. destruct (H2 Hne) as [best [Eb Hb]]. exists best.
      split; [exact Eb | exact Hb].
    + exact H3.
    + intros Hne. destruct (H4 Hne) as [best [Eb Hb]]. exists best.
      split; [exact Eb | exact Hb].
Qed.


End ExtremaClaims.

Lemma minicas_single_ordered l :
  l = [] \/ l = [(MiniCAS.Rat 0, MiniCAS.Rat 0)] ->
  @ordered_by minicas minicas_value l.
Proof.
  intros [-> | ->] a b Ha Hb; [destruct Ha |].
  destruct Ha as [<- | []], Hb as [<- | []].
  split; exists false; (split; [reflexivity |]); cbn;
    (split; [discriminate | intro H; exfalso; revert H; apply Qlt_irrefl]).
Qed.

Lemma minicas_imaginary_ordered l :
  l = imaginary_maxima -> @ordered_by minicas minicas_value l.
Proof.
  intros -> a b Ha Hb.
  destruct Ha as [<- | [<- | []]], Hb as [<- | [<- | []]];
    (split; exists false; (split; [reflexivity |]); cbn;
     (split; [discriminate | intro H; exfalso; revert H; apply Qlt_irrefl])).
Qed.

(** [f(x) = x**4/4 + x**2/2]: [f' = x**3 + x] has the roots [0], [-I] and
    [I], and [f'' = 3*x**2 + 1] is [-2] at [-I] and at [I].  The function
    has no maximum on the reals, and the step reports a global maximum [f =
    -0.25] at a point that is not real. *)
Lemma extrema_at_imaginary_root_witness :
  MiniCAS.sympify "x**4/4 + x**2/2" = Ok quartic /\
  MiniCAS.solve quartic_prime "x" = Ok quartic_roots /\
  exists best : MiniCAS.term * MiniCAS.term,
    @extrema_1d minicas quartic (@fresh minicas) =
      (Done tt,
       {| out := [Subheader "🔻 Global Min / Max";
                  Success "✅ Global minimum: f(x) = 0 at x = 0";
                  Success ("✅ Global maximum: f(x) = -0.250000000000000 at x = " ++
                           MiniCAS.str (fst best))];
          derivative := None |}) /\
    (fst best = minus_I \/ fst best = MiniCAS.ImagUnit).
Proof.
  split; [reflexivity |]. split; [reflexivity |].
  destruct (@extrema_1d_takes_every_root minicas quartic quartic_prime
              quartic_double quartic_roots minicas_value (@fresh minicas)
              eq_refl eq_refl eq_refl
              (minicas_single_ordered _ (or_intror eq_refl))
              (minicas_imaginary_ordered _ eq_refl))
    as [_ [_ [_ [ev_min [ev_max [E [_ [Hmin [_ Hmax]]]]]]]]].
  destruct Hmin as [low [-> [[<- | []] _]]]; [discriminate |].
  destruct Hmax as [best [-> [Hin _]]]; [discriminate |].
  exists best. rewrite E.
  destruct Hin as [<- | [<- | []]]; split; try reflexivity; auto.
Defined.


(** ** Critical points of the 2D branch *)

Section CriticalPoints.
Context {cas : Libraries}.
Variables expr f_xx f_yy f_xy : Expr.

(** Lines 196-212: one event per point, and the loop body never raises. *)
Lemma classify_2d_event pt w :
  classify_2d expr f_xx f_yy f_xy pt w =
    (Done tt,
     {| out := out w ++ [report_2d expr f_xx f_yy f_xy pt];
        derivative := derivative w |}).
Proof.
  unfold classify_2d, report_2d, try_except, bind, call, emit.
  destruct (hessian_test expr f_xx f_yy f_xy pt) as [vk | e]; cbn; auto.
  destruct (format4f (fst vk)) as [s | e]; cbn; auto.
Qed.

Lemma classify_all_events pts : forall w,
  for_each pts (classify_2d expr f_xx f_yy f_xy) w =
    (Done tt,
     {| out := out w ++ map (report_2d expr f_xx f_yy f_xy) pts;
        derivative := derivative w |}).
Proof.
  induction pts as [| pt pts IH]; intros w; cbn.
  - unfold ret. rewrite app_nil_r. now destruct w.
  - rewrite (bind_done _ _ _ _ _ (classify_2d_event pt w)), IH. cbn.
    now rewrite <- app_assoc.
Qed.

(** Lines 197-209 read by the signs of the determinant and of [f_xx]. *)
Lemma hessian_test_kind pt D fxx val :
  hessian_at expr f_xx f_yy f_xy pt D fxx val ->
  hessian_test expr f_xx f_yy f_xy pt =
    match gt D (of_int 0) with
    | Ok true =>
        match gt fxx (of_int 0) with
        | Ok up => Ok (val, if up then LocalMin else LocalMax)
        | Raise e => Raise e
        end
    | Ok false =>
        match lt D (of_int 0) with
        | Ok down => Ok (val, if down then SaddlePoint else Inconclusive)
        | Raise e => Raise e
        end
    | Raise e => Raise e
    end.
Proof.
  intros [h12 [h22 [v [E1 [E2 [E3 [E4 [E5 E6]]]]]]]].
  unfold hessian_test, rbind. rewrite E1, E2, E3, E4, E5, E6.
  destruct (gt D (of_int 0)) as [[] |]; auto.
Qed.

(** Lines 196-212: the warning stands for a call that raised, and for
    nothing else. *)
Lemma failure_shown_exactly pt :
  report_2d expr f_xx f_yy f_xy pt =
    Warning ("Could not classify point: " ++ str_dict pt) <->
  classification_fails expr f_xx f_yy f_xy pt.
Proof.
  assert (Hno : forall D fxx val,
            hessian_at expr f_xx f_yy f_xy pt D fxx val ->
            forall D' fxx' val',
              hessian_at expr f_xx f_yy f_xy pt D' fxx' val' ->
              D' = D /\ fxx' = fxx /\ val' = val).
  { intros D fxx val (a & b & c & A1 & A2 & A3 & A4 & A5 & A6)
           D' fxx' val' (a' & b' & c' & B1 & B2 & B3 & B4 & B5 & B6).
    assert (fxx' = fxx) by congruence. assert (a' = a) by congruence.
    assert (b' = b) by congruence. assert (c' = c) by congruence. subst.
    repeat split; congruence. }
  unfold report_2d, hessian_test, rbind.
  destruct (subs f_xx pt) as [h11 | e1] eqn:S1.
  2:{ split; [intros _; left; eauto | reflexivity]. }
  destruct (subs f_xy pt) as [h12 | e2] eqn:S2.
  2:{ split; [intros _; right; left; eauto | reflexivity]. }
  destruct (subs f_yy pt) as [h22 | e3] eqn:S3.
  2:{ split; [intros _; right; right; left; eauto | reflexivity]. }
  destruct (det2 h11 h12 h12 h22) as [D | e4] eqn:S4.
  2:{ split; [intros _ | reflexivity].
      do 5 right. left. exists h11, h12, h22, e4. auto. }
  destruct (subs expr pt) as [v | e5] eqn:S5.
  2:{ split; [intros _; do 3 right; left; eauto | reflexivity]. }
  destruct (evalf v) as [val | e6] eqn:S6.
  2:{ split; [intros _; do 4 right; left; eauto | reflexivity]. }
  assert (Hat : hessian_at expr f_xx f_yy f_xy pt D h11 val).
  { exists h12, h22, v. auto 10. }
  assert (Hcalls : classification_fails expr f_xx f_yy f_xy pt ->
            exists D' fxx' val',
              hessian_at expr f_xx f_yy f_xy pt D' fxx' val' /\
              ((exists e, gt D' (of_int 0) = Raise e) \/
               (gt D' (of_int 0) = Ok true /\ exists e, gt fxx' (of_int 0) = Raise e) \/
               (gt D' (of_int 0) = Ok false /\ exists e, lt D' (of_int 0) = Raise e) \/
               (exists e, format4f val' = Raise e))).
  { intros [[e H] | [[e H] | [[e H] | [[e H] | [H | [H | H]]]]]];
      try congruence; try exact H.
    - destruct H as (v0 & e & A & B). congruence.
    - destruct H as (a & b & c & e & A1 & A2 & A3 & A4).
      assert (a = h11) by congruence. assert (b = h12) by congruence.
      assert (c = h22) by congruence. subst. congruence. }
  assert (Hfails : ((exists e, gt D (of_int 0) = Raise e) \/
               (gt D (of_int 0) = Ok true /\ exists e, gt h11 (of_int 0) = Raise e) \/
               (gt D (of_int 0) = Ok false /\ exists e, lt D (of_int 0) = Raise e) \/
               (exists e, format4f val = Raise e)) ->
            classification_fails expr f_xx f_yy f_xy pt).
  { intros H. do 6 right. exists D, h11, val. auto. }
  assert (Hback : classification_fails expr f_xx f_yy f_xy pt ->
            ((exists e, gt D (of_int 0) = Raise e) \/
               (gt D (of_int 0) = Ok true /\ exists e, gt h11 (of_int 0) = Raise e) \/
               (gt D (of_int 0) = Ok false /\ exists e, lt D (of_int 0) = Raise e) \/
               (exists e, format4f val = Raise e))).
  { intros H. destruct (Hcalls H) as (D' & fxx' & val' & Hh & H').
    destruct (Hno _ _ _ Hat _ _ _ Hh) as [-> [-> ->]]. exact H'. }
  clear Hcalls Hno.
  destruct (gt D (of_int 0)) as [[] | e7] eqn:G1.
  - destruct (gt h11 (of_int 0)) as [up | e8] eqn:G2.
    + cbn [fst snd]. destruct (format4f val) as [val4f | e9] eqn:F.
      * split; [discriminate |]. intros H. exfalso.
        destruct (Hback H) as [[e K] | [[_ [e K]] | [[K _] | [e K]]]];
          congruence.
      * split; [intros _ | reflexivity]. apply Hfails. do 3 right. eauto.
    + split; [intros _ | reflexivity]. apply Hfails. right. left. eauto.
  - destruct (lt D (of_int 0)) as [down | e8] eqn:G2.
    + cbn [fst snd]. destruct (format4f val) as [val4f | e9] eqn:F.
      * split; [discriminate |]. intros H. exfalso.
        destruct (Hback H) as [[e K] | [[K _] | [[_ [e K]] | [e K]]]];
          congruence.
      * split; [intros _ | reflexivity]. apply Hfails. do 3 right. eauto.
    + split; [intros _ | reflexivity]. apply Hfails. right. right. left. eauto.
  - split; [intros _ | reflexivity]. apply Hfails. left. eauto.
Qed.

End CriticalPoints.

Section CriticalPointClaims.
Context {cas : Libraries}.

(** C5: in the 2D branch every solution of the system is reported by one
    event, in order, and the step ends normally whatever happens at a
    point.  With determinant [D], first entry [fxx] and value [val] at the
    point, the event is the line "At <point>, f(x, y) = <value> →
    **<kind>**", the kind being Local Min when [D > 0] and [fxx > 0], Local
    Max when [D > 0] and not [fxx > 0], Saddle Point when [D < 0], and
    Inconclusive when [D] is neither.  The event is the "Could not classify
    point" warning exactly when one of the library calls made for the point
    raises; the events of the other points are what they are without
    it. *)
Theorem critical_points_2d_classified
    (expr gx gy f_xx f_yy f_xy : Expr)
    (crit_pts : list (list (symbol * Expr))) (w : world) :
  diff expr [x] = Ok gx ->
  diff expr [y] = Ok gy ->
  solve_system [gx; gy] (x, y) = Ok crit_pts ->
  crit_pts <> [] ->
  diff expr [x; x] = Ok f_xx ->
  diff expr [y; y] = Ok f_yy ->
  diff expr [x; y] = Ok f_xy ->
  critical_points_2d expr w =
    (Done tt,
     {| out := out w ++ Subheader "📌 Critical Point Classification" ::
                 map (report_2d expr f_xx f_yy f_xy) crit_pts;
        derivative := derivative w |}) /\
  forall pt,
    In pt crit_pts ->
    (forall D fxx val val4f,
       hessian_at expr f_xx f_yy f_xy pt D fxx val ->
       format4f val = Ok val4f ->
       (gt D (of_int 0) = Ok true -> gt fxx (of_int 0) = Ok true ->
        report_2d expr f_xx f_yy f_xy pt =
          Write ("At " ++ str_dict pt ++ ", f(x, y) = " ++ val4f ++
                 " → **Local Min**")) /\
       (gt D (of_int 0) = Ok true -> gt fxx (of_int 0) = Ok false ->
        report_2d expr f_xx f_yy f_xy pt =
          Write ("At " ++ str_dict pt ++ ", f(x, y) = " ++ val4f ++
                 " → **Local Max**")) /\
       (gt D (of_int 0) = Ok false -> lt D (of_int 0) = Ok true ->
        report_2d expr f_xx f_yy f_xy pt =
          Write ("At " ++ str_dict pt ++ ", f(x, y) = " ++ val4f ++
                 " → **Saddle Point**")) /\
       (gt D (of_int 0) = Ok false -> lt D (of_int 0) = Ok false ->
        report_2d expr f_xx f_yy f_xy pt =
          Write ("At " ++ str_dict pt ++ ", f(x, y) = " ++ val4f ++
                 " → **Inconclusive**"))) /\
    (report_2d expr f_xx f_yy f_xy pt =
       Warning ("Could not classify point: " ++ str_dict pt) <->
     classification_fails expr f_xx f_yy f_xy pt).
Proof.
  intros E1 E2 E3 Hne E4 E5 E6. split.
  - unfold critical_points_2d, try_except.
    rewrite (bind_done _ _ w tt {| out := out w ++ [Subheader critical_title];
                                   derivative := derivative w |}) by reflexivity.
    unfold bind at 1, call at 1. rewrite E1.
    unfold bind at 1, call at 1. rewrite E2.
    unfold bind at 1, call at 1. rewrite E3.
    destruct crit_pts as [| pt0 rest]; [congruence |].
    unfold bind at 1, call at 1. rewrite E4.
    unfold bind at 1, call at 1. rewrite E5.
    unfold bind at 1, call at 1. rewrite E6.
    rewrite classify_all_events. cbn. now rewrite <- app_assoc.
  - intros pt Hpt. split.
    + intros D fxx val val4f Hat Hfmt. unfold report_2d.
      rewrite (hessian_test_kind _ _ _ _ _ _ _ _ Hat).
      repeat split; intros G1 G2; rewrite G1, G2; cbn [fst snd];
        rewrite Hfmt; reflexivity.
    + apply failure_shown_exactly.
Qed.

End CriticalPointClaims.

(** [f(x, y) = x**2 - y**2]: the single critical point [(0, 0)] is a saddle
    point.  [f(x, y) = x**3 - 3*x + y**3 - 3*y]: of the four critical
    points one is a local maximum, two are saddle points and one is a local
    minimum.  [f(x, y) = x**4 + y**4]: the determinant is zero at [(0, 0)],
    which is inconclusive.  [f(x, y) = x**3/3 + x + y**2]: at both solutions
    the comparison of the determinant raises, and each gets the warning. *)
Lemma critical_points_classified_witness :
  (MiniCAS.sympify "x**2 - y**2" = Ok saddle /\
   @critical_points_2d minicas saddle (@fresh minicas) =
     (Done tt,
      {| out := [Subheader "📌 Critical Point Classification";
                 Write "At {x: 0, y: 0}, f(x, y) = 0.0000 → **Saddle Point**"];
         derivative := None |})) /\
  (MiniCAS.sympify "x**3 - 3*x + y**3 - 3*y" = Ok four_points /\
   @critical_points_2d minicas four_points (@fresh minicas) =
     (Done tt,
      {| out := [Subheader "📌 Critical Point Classification";
                 Write "At {x: -1, y: -1}, f(x, y) = 4.0000 → **Local Max**";
                 Write "At {x: -1, y: 1}, f(x, y) = 0.0000 → **Saddle Point**";
                 Write "At {x: 1, y: -1}, f(x, y) = 0.0000 → **Saddle Point**";
                 Write "At {x: 1, y: 1}, f(x, y) = -4.0000 → **Local Min**"];
         derivative := None |})) /\
  (MiniCAS.sympify "x**4 + y**4" = Ok quartic_bowl /\
   @critical_points_2d minicas quartic_bowl (@fresh minicas) =
     (Done tt,
      {| out := [Subheader "📌 Critical Point Classification";
                 Write "At {x: 0, y: 0}, f(x, y) = 0.0000 → **Inconclusive**"];
         derivative := None |})) /\
  (MiniCAS.sympify "x**3/3 + x + y**2" = Ok no_real_point /\
   @critical_points_2d minicas no_real_point (@fresh minicas) =
     (Done tt,
      {| out := [Subheader "📌 Critical Point Classification";
                 Warning "Could not classify point: {x: -I, y: 0}";
                 Warning "Could not classify point: {x: I, y: 0}"];
         derivative := None |})).
Proof.
  split; [| split; [| split]]; (split; [reflexivity |]).
  - destruct (@critical_points_2d_classified minicas saddle
                (MiniCAS.Mul (MiniCAS.Rat 2) (MiniCAS.Sym "x"))
                (MiniCAS.Mul (MiniCAS.Rat (-2)) (MiniCAS.Sym "y"))
                (MiniCAS.Rat 2) (MiniCAS.Rat (-2)) (MiniCAS.Rat 0)
                [origin] (@fresh minicas)
                eq_refl eq_refl eq_refl ltac:(discriminate)
                eq_refl eq_refl eq_refl) as [E H].
    rewrite E. cbn [map out fresh List.app derivative].
    destruct (H origin (or_introl eq_refl)) as [Hkind _].
    destruct (Hkind (MiniCAS.Rat (-4)) (MiniCAS.Rat 2) (MiniCAS.Rat 0) "0.0000")
      as [_ [_ [Hs _]]].
    + exists (MiniCAS.Rat 0), (MiniCAS.Rat (-2)), (MiniCAS.Rat 0).
      repeat split; reflexivity.
    + reflexivity.
    + rewrite (Hs eq_refl eq_refl). reflexivity.
  - destruct (@critical_points_2d_classified minicas four_points
                (MiniCAS.Add (MiniCAS.Mul (MiniCAS.Rat 3) (MiniCAS.Pow (MiniCAS.Sym "x") 2))
                             (MiniCAS.Rat (-3)))
                (MiniCAS.Add (MiniCAS.Mul (MiniCAS.Rat 3) (MiniCAS.Pow (MiniCAS.Sym "y") 2))
                             (MiniCAS.Rat (-3)))
                (MiniCAS.Mul (MiniCAS.Rat 6) (MiniCAS.Sym "x"))
                (MiniCAS.Mul (MiniCAS.Rat 6) (MiniCAS.Sym "y"))
                (MiniCAS.Rat 0)
                [at_point (-1) (-1); at_point (-1) 1; at_point 1 (-1); at_point 1 1]
                (@fresh minicas)
                eq_refl eq_refl eq_refl ltac:(discriminate)
                eq_refl eq_refl eq_refl) as [E H].
    rewrite E. cbn [map out fresh List.app derivative].
    destruct (H (at_point (-1) (-1))) as [H1 _]; [now left |].
    destruct (H (at_point (-1) 1)) as [H2 _]; [right; now left |].
    destruct (H (at_point 1 (-1))) as [H3 _]; [right; right; now left |].
    destruct (H (at_point 1 1)) as [H4 _]; [right; right; right; now left |].
    destruct (H1 (MiniCAS.Rat 36) (MiniCAS.Rat (-6)) (MiniCAS.Float 4) "4.0000")
      as [_ [K1 _]];
      [exists (MiniCAS.Rat 0), (MiniCAS.Rat (-6)), (MiniCAS.Rat 4);
       repeat split; reflexivity | reflexivity |].
    destruct (H2 (MiniCAS.Rat (-36)) (MiniCAS.Rat (-6)) (MiniCAS.Rat 0) "0.0000")
      as [_ [_ [K2 _]]];
      [exists (MiniCAS.Rat 0), (MiniCAS.Rat 6), (MiniCAS.Rat 0);
       repeat split; reflexivity | reflexivity |].
    destruct (H3 (MiniCAS.Rat (-36)) (MiniCAS.Rat 6) (MiniCAS.Rat 0) "0.0000")
      as [_ [_ [K3 _]]];
      [exists (MiniCAS.Rat 0), (MiniCAS.Rat (-6)), (MiniCAS.Rat 0);
       repeat split; reflexivity | reflexivity |].
    destruct (H4 (MiniCAS.Rat 36) (MiniCAS.Rat 6) (MiniCAS.Float (-4)) "-4.0000")
      as [K4 _];
      [exists (MiniCAS.Rat 0), (MiniCAS.Rat 6), (MiniCAS.Rat (-4));
       repeat split; reflexivity | reflexivity |].
    rewrite (K1 eq_refl eq_refl), (K2 eq_refl eq_refl), (K3 eq_refl eq_refl),
      (K4 eq_refl eq_refl).
    reflexivity.
  - destruct (@critical_points_2d_classified minicas quartic_bowl
                (MiniCAS.Mul (MiniCAS.Rat 4) (MiniCAS.Pow (MiniCAS.Sym "x") 3))
                (MiniCAS.Mul (MiniCAS.Rat 4) (MiniCAS.Pow (MiniCAS.Sym "y") 3))
                (MiniCAS.Mul (MiniCAS.Rat 12) (MiniCAS.Pow (MiniCAS.Sym "x") 2))
                (MiniCAS.Mul (MiniCAS.Rat 12) (MiniCAS.Pow (MiniCAS.Sym "y") 2))
                (MiniCAS.Rat 0)
                [origin] (@fresh minicas)
                eq_refl eq_refl eq_refl ltac:(discriminate)
                eq_refl eq_refl eq_refl) as [E H].
    rewrite E. cbn [map out fresh List.app derivative].
    destruct (H origin (or_introl eq_refl)) as [Hkind _].
    destruct (Hkind (MiniCAS.Rat 0) (MiniCAS.Rat 0) (MiniCAS.Rat 0) "0.0000")
      as [_ [_ [_ Hi]]].
    + exists (MiniCAS.Rat 0), (MiniCAS.Rat 0), (MiniCAS.Rat 0).
      repeat split; reflexivity.
    + reflexivity.
    + rewrite (Hi eq_refl eq_refl). reflexivity.
  - destruct (@critical_points_2d_classified minicas no_real_point
                (MiniCAS.Add (MiniCAS.Pow (MiniCAS.Sym "x") 2) (MiniCAS.Rat 1))
                (MiniCAS.Mul (MiniCAS.Rat 2) (MiniCAS.Sym "y"))
                (MiniCAS.Mul (MiniCAS.Rat 2) (MiniCAS.Sym "x"))
                (MiniCAS.Rat 2) (MiniCAS.Rat 0)
                [at_minus_I; at_I] (@fresh minicas)
                eq_refl eq_refl eq_refl ltac:(discriminate)
                eq_refl eq_refl eq_refl) as [E H].
    rewrite E. cbn [map out fresh List.app derivative].
    destruct (H at_minus_I (or_introl eq_refl)) as [_ [_ F1]].
    destruct (H at_I (or_intror (or_introl eq_refl))) as [_ [_ F2]].
    rewrite F1; [rewrite F2; [reflexivity |] |].
    + do 6 right.
      exists (MiniCAS.Mul (MiniCAS.Rat 4) MiniCAS.ImagUnit),
             (MiniCAS.Mul (MiniCAS.Rat 2) MiniCAS.ImagUnit),
             (MiniCAS.Mul (MiniCAS.Rat (2 # 3)) MiniCAS.ImagUnit).
      split; [| left; eexists; reflexivity].
      exists (MiniCAS.Rat 0), (MiniCAS.Rat 2),
             (MiniCAS.Mul (MiniCAS.Rat (2 # 3)) MiniCAS.ImagUnit).
      repeat split; reflexivity.
    + do 6 right.
      exists (MiniCAS.Mul (MiniCAS.Rat (-4)) MiniCAS.ImagUnit),
             (MiniCAS.Mul (MiniCAS.Rat (-2)) MiniCAS.ImagUnit),
             (MiniCAS.Mul (MiniCAS.Rat (-2 # 3)) MiniCAS.ImagUnit).
      split; [| left; eexists; reflexivity].
      exists (MiniCAS.Rat 0), (MiniCAS.Rat 2),
             (MiniCAS.Mul (MiniCAS.Rat (-2 # 3)) MiniCAS.ImagUnit).
      repeat split; reflexivity.
Defined.

(** ** Continuity in the 1D branch *)

Section Continuity.
Context {cas : Libraries}.

Lemma continuity_1d_event expr d w :
  continuous_domain expr x Reals = Ok d ->
  continuity_1d expr w =
    (Done tt, {| out := out w ++ [continuity_verdict d]; derivative := derivative w |}).
Proof.
  intros E. unfold continuity_1d, continuity_verdict, bind, call, emit.
  rewrite E. now destruct (truthy (is_EmptySet (set_sub whole_line d))).
Qed.

(** C6: when [continuous_domain] returns the domain [d], the continuity
    step shows one event: the "continuous" verdict exactly when [d] is the
    whole line, and otherwise the warning that prints the set
    [Interval(-oo, oo) - d], whose members are exactly the points outside
    [d].  Membership ([contains]) is the meaning of the library's sets; the
    library is assumed to compute the difference and to decide the
    emptiness of that difference correctly. *)
Theorem continuity_verdict_1d
    (expr : Expr) (d : RSet) (w : world)
    (point : Type) (contains : RSet -> point -> bool) :
  continuous_domain expr x Reals = Ok d ->
  (forall r, contains whole_line r = true) ->
  (forall r, contains (set_sub whole_line d) r =
             contains whole_line r && negb (contains d r)) ->
  (truthy (is_EmptySet (set_sub whole_line d)) = true <->
   forall r, contains (set_sub whole_line d) r = false) ->
  continuity_1d expr w =
    (Done tt, {| out := out w ++ [continuity_verdict d]; derivative := derivative w |}) /\
  (continuity_verdict d = Success "✅ Function is continuous over ℝ." <->
   forall r, contains d r = true) /\
  (~ (forall r, contains d r = true) ->
   continuity_verdict d =
     Warning ("⚠️ Discontinuous at: `" ++ str_set (set_sub whole_line d) ++ "`") /\
   forall r, contains (set_sub whole_line d) r = true <-> contains d r = false).
Proof.
  intros E Hwhole Hsub Hempty.
  assert (Hcompl : forall r, contains (set_sub whole_line d) r = negb (contains d r)).
  { intros r. now rewrite Hsub, Hwhole. }
  assert (Hiff : truthy (is_EmptySet (set_sub whole_line d)) = true <->
                 forall r, contains d r = true).
  { rewrite Hempty. split; intros H r; specialize (H r); rewrite Hcompl in *.
    - now apply negb_false_iff in H.
    - now rewrite H. }
  split; [now apply continuity_1d_event |].
  unfold continuity_verdict.
  destruct (truthy (is_EmptySet (set_sub whole_line d))) eqn:T.
  - split.
    + split; [intros _; now apply Hiff | reflexivity].
    + intros Hn. exfalso. apply Hn. now apply Hiff.
  - split.
    + split; [discriminate |]. intros H. apply Hiff in H. discriminate.
    + intros _. split; [reflexivity |].
      intros r. rewrite Hcompl. apply negb_true_iff.
Qed.

End Continuity.

(** [f(x) = 1/x]: the excluded set shown is [{0}]. *)
Lemma continuity_of_reciprocal_witness :
  MiniCAS.sympify "1/x" = Ok reciprocal /\
  @continuity_1d minicas reciprocal (@fresh minicas) =
    (Done tt,
     {| out := [Warning "⚠️ Discontinuous at: `{0}`"]; derivative := None |}) /\
  forall r : Q,
    minicas_contains (MiniCAS.set_sub (MiniCAS.AllBut []) (MiniCAS.AllBut [0])) r = true
    <-> r == 0.
Proof.
  split; [reflexivity |].
  assert (Hout : ~ (forall r : Q, minicas_contains (MiniCAS.AllBut [0]) r = true)).
  { intros H. specialize (H 0). discriminate H. }
  destruct (@continuity_verdict_1d minicas reciprocal (MiniCAS.AllBut [0])
              (@fresh minicas) Q minicas_contains eq_refl)
    as [E [_ Hw]].
  - reflexivity.
  - intros r. cbn. now rewrite orb_false_r, negb_involutive.
  - split; [discriminate |]. intros H. specialize (H 0). discriminate H.
  - split; [exact E |].
    destruct (Hw Hout) as [_ Hmem]. intros r.
    change (@set_sub minicas (@whole_line minicas) (MiniCAS.AllBut [0]))
      with (MiniCAS.set_sub (MiniCAS.AllBut []) (MiniCAS.AllBut [0])) in Hmem.
    rewrite Hmem. cbn. rewrite orb_false_r, negb_false_iff. apply Qeq_bool_iff.
Defined.

(** ** The namespace across runs *)

Section Reruns.
Context {cas : Libraries}.

(** Only line 44, in the differentiability step of the 1D branch, assigns
    [derivative]. *)
Lemma after_differentiability_keeps expr :
  keeps_namespace
    (bind derivative_display_1d (fun _ =>
     bind (plot_1d expr) (fun _ =>
     bind (limits_1d expr) (fun _ => extrema_1d expr)))).
Proof.
  unfold derivative_display_1d, plot_1d, show_figure, limits_1d, extrema_1d,
    report_extrema.
  frame.
Qed.

Lemma analyze_2d_keeps expr : keeps_namespace (analyze_2d expr).
Proof.
  unfold analyze_2d, continuity_2d, differentiability_2d, plot_2d, show_figure,
    radial_2d, critical_points_2d, classify_2d.
  frame.
Qed.

(** The script up to the branch, from any namespace. *)
Lemma script_parsed equation expr d0 :
  sympify equation = Ok expr ->
  script equation {| out := []; derivative := d0 |} =
    dispatch expr {| out := banner; derivative := d0 |}.
Proof.
  intros E. unfold script, bind, try_except, call, emit. cbn. rewrite E.
  reflexivity.
Qed.

Lemma script_unparsed equation e d0 :
  sympify equation = Raise e ->
  script equation {| out := []; derivative := d0 |} =
    (Stopped,
     {| out := banner ++ [Error ("Invalid expression: " ++ e)]; derivative := d0 |}).
Proof.
  intros E. unfold script, bind, try_except, call, emit, stop. cbn. rewrite E.
  reflexivity.
Qed.

(** The 1D branch in the namespace an earlier run of the same expression
    left: when that run assigned [derivative], the branch does not see the
    difference. *)
Lemma analyze_1d_rerun expr o d :
  derivative (snd (analyze_1d expr {| out := o; derivative := None |})) = Some d ->
  analyze_1d expr {| out := o; derivative := Some d |} =
  analyze_1d expr {| out := o; derivative := None |}.
Proof.
  unfold analyze_1d.
  pose proof (after_differentiability_keeps expr) as Hrest.
  set (rest := bind derivative_display_1d _) in *.
  unfold bind at 1 2 3 4 5 6. unfold emit at 1 2 3. cbn [out derivative fst snd].
  unfold continuity_1d, bind, call, emit. cbn [out derivative fst snd].
  destruct (continuous_domain expr x Reals) as [dom | e]; [| discriminate].
  destruct (truthy (is_EmptySet (set_sub whole_line dom)));
    cbn [out derivative fst snd];
    unfold differentiability_1d, try_except, bind, call, emit, assign_derivative;
    cbn [out derivative fst snd];
    (destruct (diff expr [x]) as [d' | e]; cbn [out derivative fst snd];
     [ destruct (continuous_domain d' x Reals) as [dd | e]; cbn [out derivative fst snd];
       [ destruct (truthy (is_EmptySet (set_sub whole_line dd))); reflexivity
       | reflexivity ]
     | intros H; rewrite Hrest in H; discriminate H ]).
Qed.

Lemma rerun_same equation : rerun equation = run equation.
Proof.
  unfold rerun.
  destruct (derivative (snd (run equation))) as [d |] eqn:D; [| reflexivity].
  revert D. unfold run, fresh.
  destruct (sympify equation) as [expr | e] eqn:E.
  - rewrite !(script_parsed _ _ _ E), !dispatch_cases.
    destruct (sym_in x (free_symbols expr) && negb (sym_in y (free_symbols expr))).
    + apply analyze_1d_rerun.
    + destruct (sym_in x (free_symbols expr) && sym_in y (free_symbols expr)).
      * rewrite analyze_2d_keeps. discriminate.
      * discriminate.
  - rewrite (script_unparsed _ _ _ E). discriminate.
Qed.

End Reruns.

(** ** Guarded and unguarded steps *)

Section Isolation.
Context {cas : Libraries}.

(** The steps written inside a [try] whose handler shows a message always
    end normally. *)
Lemma guarded_steps_recover expr :
  recovers (differentiability_1d expr) /\ recovers derivative_display_1d /\
  recovers (limits_1d expr) /\ recovers (continuity_2d expr) /\
  recovers (differentiability_2d expr) /\ recovers (radial_2d expr) /\
  recovers (critical_points_2d expr).
Proof.
  unfold differentiability_1d, derivative_display_1d, limits_1d, continuity_2d,
    differentiability_2d, radial_2d, critical_points_2d, classify_2d.
  repeat split;
    (apply recovers_bind; [apply recovers_emit | intros _];
     apply recovers_try; frame).
Qed.

(** Lines 33-39 are not inside a [try]: an exception of
    [continuous_domain] ends the 1D branch right after its header. *)
Lemma continuity_failure_aborts_1d expr e w :
  continuous_domain expr x Reals = Raise e ->
  analyze_1d expr w =
    (Uncaught e, {| out := out w ++ [Header header_1d]; derivative := derivative w |}).
Proof.
  intros E. unfold analyze_1d.
  rewrite (bind_done _ _ w tt {| out := out w ++ [Header header_1d];
                                 derivative := derivative w |}) by reflexivity.
  apply bind_uncaught. unfold continuity_1d, bind, call. now rewrite E.
Qed.

(** Lines 87-89 are not inside a [try]: an exception of [solve] leaves the
    extrema step after its title. *)
Lemma solve_failure_escapes_1d expr f_prime f_double e w :
  diff expr [x] = Ok f_prime -> diff f_prime [x] = Ok f_double ->
  solve f_prime x = Raise e ->
  extrema_1d expr w =
    (Uncaught e,
     {| out := out w ++ [Subheader extrema_title]; derivative := derivative w |}).
Proof.
  intros E1 E2 E3. unfold extrema_1d, bind, call, emit. cbn.
  now rewrite E1, E2, E3.
Qed.

(** Lines 62-65 when a sample raises. *)
Lemma plot_failure_escapes_1d expr f e w :
  lambdify1 x expr = Ok f ->
  rmap (sample_1d f) (linspace (-10) 10 400) = Raise e ->
  plot_1d expr w =
    (Uncaught e, {| out := out w ++ [Subheader plot_title]; derivative := derivative w |}).
Proof.
  intros E1 E2. unfold plot_1d, bind, call, emit. cbn -[linspace].
  now rewrite E1, E2.
Qed.

Lemma before_plot_adds expr :
  adds (quiet after_plot) (differentiability_1d expr) /\
  adds (quiet after_plot) derivative_display_1d.
Proof.
  unfold differentiability_1d, derivative_display_1d. split; frame.
Qed.

(** C3, at the sampling step of the 1D branch: when evaluating a sample
    raises, the exception is not caught; the branch ends there, and the two
    steps that follow, limits and extrema, do not run. *)
Theorem sampling_failure_aborts_1d
    (expr : Expr) (d : RSet) (f : Q -> result npfloat) (e : exn) (w : world) :
  continuous_domain expr x Reals = Ok d ->
  lambdify1 x expr = Ok f ->
  rmap (sample_1d f) (linspace (-10) 10 400) = Raise e ->
  exists l w',
    analyze_1d expr w = (Uncaught e, w') /\
    out w' = (out w ++ l)%list /\
    ~ In (Subheader limits_title) l /\
    ~ In (Subheader extrema_title) l.
Proof.
  intros Ec El Es.
  destruct (guarded_steps_recover expr) as [R1 [R2 _]].
  destruct (before_plot_adds expr) as [A1 A2].
  unfold analyze_1d.
  rewrite (bind_done _ _ w tt {| out := out w ++ [Header header_1d];
                                 derivative := derivative w |}) by reflexivity.
  rewrite (bind_done _ _ _ _ _ (continuity_1d_event expr d _ Ec)).
  match goal with |- context [bind (differentiability_1d expr) _ ?w2] =>
    destruct (R1 w2) as [[] D1]; destruct (A1 w2) as [l1 [O1 F1]];
    destruct (differentiability_1d expr w2) as [o1 w3] eqn:S1
  end.
  cbn in D1, O1. subst o1. rewrite (bind_done _ _ _ _ _ S1).
  destruct (R2 w3) as [[] D2]. destruct (A2 w3) as [l2 [O2 F2]].
  destruct (derivative_display_1d w3) as [o2 w4] eqn:S2.
  cbn in D2, O2. subst o2. rewrite (bind_done _ _ _ _ _ S2).
  rewrite (bind_uncaught _ _ _ _ _ (plot_failure_escapes_1d expr f e w4 El Es)).
  exists ([Header header_1d; continuity_verdict d] ++ l1 ++ l2 ++ [Subheader plot_title])%list.
  eexists. split; [reflexivity |]. split.
  - cbn [out]. rewrite O2, O1. cbn [out]. now rewrite <- !app_assoc.
  - assert (Hq : Forall (quiet after_plot)
             ([Header header_1d; continuity_verdict d] ++ l1 ++ l2 ++
              [Subheader plot_title])).
    { rewrite !Forall_app. repeat split; auto.
      - repeat constructor. unfold continuity_verdict.
        now destruct (truthy (is_EmptySet (set_sub whole_line d))).
      - repeat constructor. }
    split; apply (quiet_not_in _ _ _ Hq); reflexivity.
Qed.

End Isolation.

(** The input ["x + z"]: the function [lambdify] builds returns [v + z]
    at the sample [v], [np.isfinite] raises [TypeError] on it, and the run
    ends there. *)
Lemma sampling_failure_witness :
  MiniCAS.sympify "x + z" = Ok stray_symbol /\
  fst (@run minicas "x + z") = Uncaught MiniCAS.not_a_float /\
  ~ In (Subheader limits_title) (out (snd (@run minicas "x + z"))) /\
  ~ In (Subheader extrema_title) (out (snd (@run minicas "x + z"))).
Proof.
  split; [reflexivity |].
  destruct (@sampling_failure_aborts_1d minicas stray_symbol (MiniCAS.AllBut [])
              (fun a => MiniCAS.np_eval [(x, Fin a)] stray_symbol)
              MiniCAS.not_a_float (@at_dispatch minicas)
              eq_refl eq_refl eq_refl)
    as [l [w' [E [O [N1 N2]]]]].
  change (@run minicas "x + z") with (@analyze_1d minicas stray_symbol at_dispatch).
  rewrite E. cbn [fst snd]. rewrite O. cbn [out at_dispatch].
  split; [reflexivity |].
  split; intros H; apply in_app_or in H; destruct H as [H | H];
    try contradiction;
    repeat (destruct H as [H | H]; [discriminate H |]); exact H.
Defined.

(** ** Symbols other than [x] and [y], and repeated runs *)

Section Consistency.
Context {cas : Libraries}.

Lemma shown_header_not_rejected (r : outcome unit * world) l h l' :
  out (snd r) = (l ++ Header h :: l')%list -> ~ rejected r.
Proof.
  intros E [H _]. rewrite E, existsb_app in H. cbn in H.
  now rewrite orb_true_r in H.
Qed.

(** C2, amended: a symbol outside [{x, y}] plays no part in the choice of
    the branch.  An input that has one is rejected, by the warning of line
    217, exactly when [x] does not occur free; when [x] occurs without [y]
    the 1D branch runs on the expression as it is, and when both occur the
    2D branch does.  A second run of the same text gives the same result as
    the first. *)
Theorem foreign_symbols_ignored (equation : string) (expr : Expr) :
  sympify equation = Ok expr ->
  foreign_symbols (free_symbols expr) <> [] ->
  let has_x := sym_in x (free_symbols expr) in
  let has_y := sym_in y (free_symbols expr) in
  (rejected (run equation) <-> has_x = false) /\
  (has_x = false -> run equation = unsupported_run) /\
  (has_x = true -> has_y = false -> run equation = analyze_1d expr at_dispatch) /\
  (has_x = true -> has_y = true -> run equation = analyze_2d expr at_dispatch) /\
  rerun equation = run equation.
Proof.
  intros E _ has_x has_y.
  assert (R : run equation = dispatch expr at_dispatch) by now apply run_parsed.
  rewrite dispatch_cases in R. fold has_x has_y in R.
  split; [| split; [| split; [| split]]].
  - rewrite R. destruct has_x, has_y; cbn [andb negb].
    + destruct (analyze_2d_headers expr at_dispatch) as [l [O _]].
      split; [intros H | discriminate].
      now apply (shown_header_not_rejected _ _ _ _ O) in H.
    + destruct (analyze_1d_headers expr at_dispatch) as [l [O _]].
      split; [intros H | discriminate].
      now apply (shown_header_not_rejected _ _ _ _ O) in H.
    + split; [reflexivity | intros _].
      split; [reflexivity | right; split; [reflexivity |]]. cbn. auto.
    + split; [reflexivity | intros _].
      split; [reflexivity | right; split; [reflexivity |]]. cbn. auto.
  - intros Hx. rewrite R, Hx. reflexivity.
  - intros Hx Hy. rewrite R, Hx, Hy. reflexivity.
  - intros Hx Hy. rewrite R, Hx, Hy. reflexivity.
  - apply rerun_same.
Qed.

End Consistency.

(** C2 as stated fails on ["x + z"]: the input has the free symbol [z], and
    the 1D branch is entered. *)
Lemma stray_symbol_not_rejected : ~ @rejects_foreign_symbols minicas "x + z".
Proof.
  intros H.
  specialize (H stray_symbol eq_refl ltac:(discriminate)).
  destruct H as [H _]. vm_compute in H. discriminate H.
Qed.

Lemma foreign_symbols_ignored_witness :
  ~ rejected (@run minicas "x + z") /\
  @run minicas "x + z" = @analyze_1d minicas stray_symbol at_dispatch /\
  @rerun minicas "x + z" = @run minicas "x + z".
Proof.
  destruct (@foreign_symbols_ignored minicas "x + z" stray_symbol eq_refl
              ltac:(discriminate)) as [Hr [_ [H1 [_ Hrr]]]].
  split; [| split].
  - intros H. apply Hr in H. discriminate H.
  - apply H1; reflexivity.
  - exact Hrr.
Defined.

(** ** Sampling *)

Section Sampling.
Context {cas : Libraries}.

Lemma rmap_nth {A B} (g : A -> result B) l : forall bs i a,
  rmap g l = Ok bs -> nth_error l i = Some a ->
  exists b, g a = Ok b /\ nth_error bs i = Some b.
Proof.
  induction l as [| a0 l IH]; intros bs i a E Hn.
  - destruct i; discriminate.
  - cbn in E. destruct (g a0) as [b0 |] eqn:G; try discriminate.
    destruct (rmap g l) as [bs' |] eqn:R; try discriminate.
    inversion E; subst. destruct i as [| i]; cbn in *.
    + inversion Hn; subst. eauto.
    + eapply IH; eauto.
Qed.

Lemma rmap_length {A B} (g : A -> result B) l : forall bs,
  rmap g l = Ok bs -> List.length bs = List.length l.
Proof.
  induction l as [| a0 l IH]; intros bs E; cbn in E.
  - now inversion E.
  - destruct (g a0); try discriminate.
    destruct (rmap g l) as [bs' |]; try discriminate.
    inversion E; subst. cbn. now rewrite (IH bs').
Qed.

Lemma combine_nth {A B} (l1 : list A) : forall (l2 : list B) i a b,
  nth_error l1 i = Some a -> nth_error l2 i = Some b ->
  nth_error (combine l1 l2) i = Some (a, b).
Proof.
  induction l1 as [| a1 l1 IH]; intros [| b1 l2] [| i] a b H1 H2;
    cbn in *; try discriminate.
  - now inversion H1; inversion H2.
  - now apply IH.
Qed.

(** Line 65: each sample of the 1D plot is the value of the function when
    that is finite and [nan] when it is not. *)
Lemma line_samples_masked (f : Q -> result npfloat) xs ys i v :
  rmap (sample_1d f) xs = Ok ys ->
  nth_error xs i = Some v ->
  exists t, f v = Ok t /\
            nth_error ys i = Some (if isfinite t then t else NaN).
Proof.
  intros E Hn. destruct (rmap_nth _ _ _ _ _ E Hn) as [b [Hb Hi]].
  unfold sample_1d, rbind in Hb.
  destruct (f v) as [t |] eqn:F; try discriminate.
  exists t. split; auto. rewrite Hi. destruct (isfinite t); congruence.
Qed.

(** [np.linspace(-10, 10, 400)] has 400 points, from [-10] to [10]. *)
Lemma sample_points_1d :
  List.length (linspace (-10) 10 400) = 400%nat /\
  nth_error (linspace (-10) 10 400) 0 = Some (-10) /\
  nth_error (linspace (-10) 10 400) 399 = Some 10.
Proof. vm_compute. auto. Qed.

(** [np.meshgrid] of [np.linspace(-10, 10, 100)] is a 100 by 100 grid. *)
Lemma sample_grid_2d :
  let range_vals := linspace (-10) 10 100 in
  List.length range_vals = 100%nat /\
  List.length (fst (meshgrid range_vals)) = 100%nat /\
  forallb (fun row => (List.length row =? 100)%nat) (fst (meshgrid range_vals)) = true /\
  List.length (snd (meshgrid range_vals)) = 100%nat /\
  forallb (fun row => (List.length row =? 100)%nat) (snd (meshgrid range_vals)) = true.
Proof. vm_compute. auto. Qed.

(** C1, at the 2D branch: the grid handed to the surface plot holds,
    entry by entry, exactly what the function returned at that grid point,
    so a non-finite value ([inf], [-inf]) stays in the data as it is; line
    156 has no counterpart of the [np.isfinite] test of line 65.  The step
    shows the figure when Matplotlib draws it and the "Plotting failed"
    error when Matplotlib raises. *)
Theorem surface_samples_unmasked
    (expr : Expr) (f : Q -> Q -> result npfloat)
    (Z : list (list npfloat)) (w : world) (i j : nat) (xv yv : Q) :
  let range_vals := linspace (-10) 10 100 in
  let X := fst (meshgrid range_vals) in
  let Y := snd (meshgrid range_vals) in
  lambdify2 (x, y) expr = Ok f ->
  sample_2d f X Y = Ok Z ->
  nth_error range_vals i = Some yv ->
  nth_error range_vals j = Some xv ->
  plot_2d expr w =
    (Done tt,
     {| out := out w ++
          [Subheader "🌀 3D Plot";
           match pyplot (SurfacePlot X Y Z) with
           | Ok _ => Pyplot (SurfacePlot X Y Z)
           | Raise e => Error ("Plotting failed: " ++ e)
           end];
        derivative := derivative w |}) /\
  exists row t,
    nth_error Z i = Some row /\ nth_error row j = Some t /\ f xv yv = Ok t.
Proof.
  intros range_vals X Y El Es Hi Hj. split.
  - unfold plot_2d, show_figure, try_except, bind, call, emit. rewrite El.
    cbn [out derivative fst snd]. fold range_vals.
    subst X Y. destruct (meshgrid range_vals) as [X0 Y0].
    cbn [fst snd] in *. rewrite Es.
    destruct (pyplot (SurfacePlot X0 Y0 Z)) as [[] | e];
      cbn; now rewrite <- app_assoc.
  - unfold sample_2d in Es.
    assert (Hrow : nth_error (combine X Y) i =
                   Some (range_vals, map (fun _ => yv) range_vals)).
    { apply combine_nth; unfold X, Y, meshgrid; cbn [fst snd].
      - rewrite nth_error_map, Hi. reflexivity.
      - rewrite nth_error_map, Hi. reflexivity. }
    destruct (rmap_nth _ _ _ _ _ Es Hrow) as [row [Er Hr]].
    cbn [fst snd] in Er.
    assert (Hcell : nth_error (combine range_vals (map (fun _ => yv) range_vals)) j =
                    Some (xv, yv)).
    { apply combine_nth; auto. rewrite nth_error_map, Hj. reflexivity. }
    destruct (rmap_nth _ _ _ _ _ Er Hcell) as [t [Et Ht]].
    exists row, t. auto.
Qed.

End Sampling.

(** The input ["y/(x + 10)"]: on the grid column [x = -10] the function
    returns an infinity, and the grid of the surface plot holds it. *)
Lemma surface_samples_witness :
  MiniCAS.sympify "y/(x + 10)" = Ok pole_on_grid /\
  In (Pyplot (SurfacePlot (fst (meshgrid (linspace (-10) 10 100)))
                          (snd (meshgrid (linspace (-10) 10 100)))
                          pole_on_grid_surface))
     (out (snd (@plot_2d minicas pole_on_grid (@fresh minicas)))) /\
  exists row,
    nth_error pole_on_grid_surface 0 = Some row /\ nth_error row 0 = Some NInf.
Proof.
  split; [reflexivity |].
  destruct (@surface_samples_unmasked minicas pole_on_grid pole_on_grid_np
              pole_on_grid_surface (@fresh minicas) 0 0 (-10) (-10))
    as [E [row [t [Hr [Ht Hf]]]]].
  - reflexivity.
  - vm_compute. reflexivity.
  - reflexivity.
  - reflexivity.
  - split.
    + rewrite E. cbn [snd out fresh app]. right. now left.
    + exists row. split; [exact Hr |].
      rewrite Ht. f_equal. vm_compute in Hf. now inversion Hf.
Defined.

(** ** The sample inputs of the specification, run from end to end *)

Example run_square :
  fst (@run minicas "x**2") = Done tt /\
  messages (out (snd (@run minicas "x**2"))) =
    (banner ++
    [Header header_1d;
     Success "✅ Function is continuous over ℝ.";
     Subheader "Differentiability";
     Success "✅ Function is differentiable over ℝ.";
     Subheader "📌 Derivative"; Code "f'(x) = 2*x";
     Subheader plot_title;
     Subheader limits_title;
     Write "Limit as x → ∞: `oo`"; Write "Limit as x → -∞: `oo`";
     Subheader extrema_title;
     Success "✅ Global minimum: f(x) = 0 at x = 0";
     Info no_max_msg])%list.
Proof. vm_compute. auto. Qed.

Example run_fourth_power :
  fst (@run minicas "x**4") = Done tt /\
  messages (out (snd (@run minicas "x**4"))) =
    (banner ++
    [Header header_1d;
     Success "✅ Function is continuous over ℝ.";
     Subheader "Differentiability";
     Success "✅ Function is differentiable over ℝ.";
     Subheader "📌 Derivative"; Code "f'(x) = 4*x**3";
     Subheader plot_title;
     Subheader limits_title;
     Write "Limit as x → ∞: `oo`"; Write "Limit as x → -∞: `oo`";
     Subheader extrema_title;
     Info no_min_msg;
     Info no_max_msg])%list.
Proof. vm_compute. auto. Qed.

(** Two candidates of each kind are compared by value; of the two minima
    of [x**4 - 2*x**2], equal in value, the first in the list is shown. *)
Example run_cubic :
  fst (@run minicas "2*x**3 - 3*x**2 - 12*x") = Done tt /\
  skipn 13 (messages (out (snd (@run minicas "2*x**3 - 3*x**2 - 12*x")))) =
    [Success "✅ Global minimum: f(x) = -20.0000000000000 at x = 2";
     Success "✅ Global maximum: f(x) = 7.00000000000000 at x = -1"].
Proof. vm_compute. auto. Qed.

Example run_tied_minima :
  fst (@run minicas "x**4 - 2*x**2") = Done tt /\
  skipn 13 (messages (out (snd (@run minicas "x**4 - 2*x**2")))) =
    [Success "✅ Global minimum: f(x) = -1.00000000000000 at x = -1";
     Success "✅ Global maximum: f(x) = 0 at x = 0"].
Proof. vm_compute. auto. Qed.

(** ["x**4/4 + x**2/2"] has no maximum on the reals: the maximum the run
    reports is at the root [-I] of the derivative, which line 89 does not
    keep out. *)
Example run_imaginary_maximum :
  fst (@run minicas "x**4/4 + x**2/2") = Done tt /\
  skipn 12 (messages (out (snd (@run minicas "x**4/4 + x**2/2")))) =
    [Subheader "🔻 Global Min / Max";
     Success "✅ Global minimum: f(x) = 0 at x = 0";
     Success "✅ Global maximum: f(x) = -0.250000000000000 at x = -I"].
Proof. vm_compute. auto. Qed.

Example run_reciprocal :
  fst (@run minicas "1/x") = Done tt /\
  messages (out (snd (@run minicas "1/x"))) =
    (banner ++
    [Header header_1d;
     Warning "⚠️ Discontinuous at: `{0}`";
     Subheader "Differentiability";
     Warning "⚠️ Not differentiable at: `{0}`";
     Subheader "📌 Derivative"; Code "f'(x) = -1/x**2";
     Subheader plot_title;
     Subheader limits_title;
     Write "Limit as x → ∞: `0`"; Write "Limit as x → -∞: `0`";
     Subheader extrema_title;
     Info no_min_msg;
     Info no_max_msg])%list.
Proof. vm_compute. auto. Qed.

Example run_saddle :
  fst (@run minicas "x**2 - y**2") = Done tt /\
  messages (out (snd (@run minicas "x**2 - y**2"))) =
    (banner ++
    [Header header_2d;
     Subheader "Continuity"; Success "✅ Continuous over ℝ².";
     Subheader "Differentiability & Partial Derivatives";
     Success "✅ Function is differentiable (partials are continuous).";
     Code "∂f/∂x = 2*x"; Code "∂f/∂y = -2*y";
     Subheader "🌀 3D Plot";
     Subheader limits_title;
     Warning "Could not determine radial behavior.";
     Subheader critical_title;
     Write "At {x: 0, y: 0}, f(x, y) = 0.0000 → **Saddle Point**"])%list.
Proof. vm_compute. auto. Qed.

Example run_stray_symbol :
  fst (@run minicas "x + z") = Uncaught MiniCAS.not_a_float /\
  out (snd (@run minicas "x + z")) =
    (banner ++
     [Header header_1d;
      Success "✅ Function is continuous over ℝ.";
      Subheader "Differentiability";
      Success "✅ Function is differentiable over ℝ.";
      Subheader "📌 Derivative"; Code "f'(x) = 1";
      Subheader plot_title])%list.
Proof. vm_compute. auto. Qed.

Example run_malformed :
  fst (@run minicas "x +* 2") = Stopped /\
  out (snd (@run minicas "x +* 2")) =
    (banner ++
     [Error "Invalid expression: could not parse 'x +* 2': SyntaxError: invalid syntax"])%list.
Proof. vm_compute. auto. Qed.

(** In the 1D branch the same pole is masked: the first sample of
    ["1/(x + 10)"], at [x = -10], is [nan]. *)
Example run_pole_on_line :
  fst (@run minicas "1/(x + 10)") = Done tt /\
  nth_error (out (snd (@run minicas "1/(x + 10)"))) 9 =
    Some (Pyplot (LinePlot (linspace (-10) 10 400) pole_on_line_samples
                           "1/(x + 10)")) /\
  nth_error pole_on_line_samples 0 = Some NaN /\
  forallb (fun t => match t with PInf | NInf => false | _ => true end)
          pole_on_line_samples = true.
Proof.
  split; [vm_compute; reflexivity |].
  split; [vm_compute; reflexivity |].
  split; vm_compute; reflexivity.
Qed.

(** In the 2D branch the pole of ["y/(x + 10)"] stays in the grid as an
    infinity, and the grid has no [nan]. *)
Example run_pole_on_grid :
  fst (@run minicas "y/(x + 10)") = Done tt /\
  nth_error (out (snd (@run minicas "y/(x + 10)"))) 10 =
    Some (Pyplot (SurfacePlot (fst (meshgrid (linspace (-10) 10 100)))
                              (snd (meshgrid (linspace (-10) 10 100)))
                              pole_on_grid_surface)) /\
  existsb (existsb (fun t => negb (isfinite t))) pole_on_grid_surface = true /\
  existsb (existsb (fun t => match t with NaN => true | _ => false end))
          pole_on_grid_surface = false.
Proof.
  split; [vm_compute; reflexivity |].
  split; [vm_compute; reflexivity |].
  split; vm_compute; reflexivity.
Qed.

(** * Further properties of the script *)

(** ** What can end a branch *)

Section BranchEndings.
Context {cas : Libraries}.

Lemma titles_app l1 l2 : titles (l1 ++ l2) = (titles l1 ++ titles l2)%list.
Proof. unfold titles. apply flat_map_app. Qed.

Lemma titles_quiet l : Forall (quiet is_title) l -> titles l = [].
Proof.
  induction 1 as [| ev l Hev _ IH]; [reflexivity |].
  cbn. fold (titles l). rewrite IH.
  destruct ev; try reflexivity. discriminate Hev.
Qed.

(** A step made of its title and a [try] whose handler shows one message:
    it ends normally, leaves the namespace as the body leaves it, and shows
    its title first and no other title. *)
Lemma guarded_step_shape title (body : M unit) ev w :
  adds (quiet is_title) body -> never_stops body -> is_title ev = false ->
  let step := bind (emit (Subheader title)) (fun _ => try_except body (fun _ => emit ev)) in
  exists l,
    fst (step w) = Done tt /\
    out (snd (step w)) = (out w ++ Subheader title :: l)%list /\
    titles l = [].
Proof.
  intros Ha Hn Hev step. subst step.
  rewrite (bind_done _ _ w tt {| out := out w ++ [Subheader title];
                                 derivative := derivative w |}) by reflexivity.
  set (w1 := {| out := out w ++ [Subheader title]; derivative := derivative w |}).
  assert (Ht : adds (quiet is_title) (try_except body (fun _ => emit ev))).
  { apply adds_try; [exact Ha | intros _; now apply adds_emit]. }
  destruct (Ht w1) as [l [El Fl]].
  destruct (recovers_try body ev Hn w1) as [[] Hd].
  exists l. split; [exact Hd |]. split.
  - rewrite El. unfold w1. cbn. now rewrite <- app_assoc.
  - now apply titles_quiet.
Qed.

Lemma continuity_2d_shape expr w :
  exists l, fst (continuity_2d expr w) = Done tt /\
            out (snd (continuity_2d expr w)) = (out w ++ Subheader "Continuity" :: l)%list /\
            titles l = [].
Proof. apply guarded_step_shape; [frame | frame | reflexivity]. Qed.

Lemma differentiability_2d_shape expr w :
  exists l, fst (differentiability_2d expr w) = Done tt /\
            out (snd (differentiability_2d expr w)) =
              (out w ++ Subheader "Differentiability & Partial Derivatives" :: l)%list /\
            titles l = [].
Proof. apply guarded_step_shape; [frame | frame | reflexivity]. Qed.

Lemma radial_2d_shape expr w :
  exists l, fst (radial_2d expr w) = Done tt /\
            out (snd (radial_2d expr w)) = (out w ++ Subheader limits_title :: l)%list /\
            titles l = [].
Proof. apply guarded_step_shape; [frame | frame | reflexivity]. Qed.

Lemma critical_points_2d_shape expr w :
  exists l, fst (critical_points_2d expr w) = Done tt /\
            out (snd (critical_points_2d expr w)) =
              (out w ++ Subheader critical_title :: l)%list /\
            titles l = [].
Proof.
  apply guarded_step_shape; [unfold classify_2d; frame | unfold classify_2d; frame | reflexivity].
Qed.

Lemma recovers_try_with (body : M unit) (handler : exn -> M unit) :
  never_stops body -> (forall e, recovers (handler e)) ->
  recovers (try_except body handler).
Proof.
  intros Hb Hh w. unfold try_except. specialize (Hb w).
  destruct (body w) as [[[] | e |] w1]; cbn [fst] in *.
  - now exists tt.
  - apply Hh.
  - congruence.
Qed.

(** Lines 151-165: the plot step ends as [lambdify] does, and shows its
    title and no other. *)
Lemma plot_2d_shape expr w :
  exists l,
    fst (plot_2d expr w) =
      match lambdify2 (x, y) expr with Ok _ => Done tt | Raise e => Uncaught e end /\
    out (snd (plot_2d expr w)) = (out w ++ Subheader "🌀 3D Plot" :: l)%list /\
    titles l = [].
Proof.
  unfold plot_2d.
  rewrite (bind_done _ _ w tt {| out := out w ++ [Subheader "🌀 3D Plot"];
                                 derivative := derivative w |}) by reflexivity.
  set (w1 := {| out := out w ++ [Subheader "🌀 3D Plot"]; derivative := derivative w |}).
  destruct (lambdify2 (x, y) expr) as [f_np | e].
  - rewrite (bind_done _ _ w1 f_np w1) by reflexivity. cbv zeta.
    match goal with |- context [try_except ?b ?h w1] =>
      assert (Ht : adds (quiet is_title) (try_except b h))
        by (unfold show_figure; frame);
      assert (Hr : recovers (try_except b h))
        by (apply recovers_try_with;
            [unfold show_figure; frame | intros e; apply recovers_emit]);
      destruct (Ht w1) as [l [El Fl]];
      destruct (Hr w1) as [[] Hd]
    end.
    exists l. split; [exact Hd |]. split.
    + rewrite El. unfold w1. cbn [out]. now rewrite <- app_assoc.
    + now apply titles_quiet.
  - rewrite (bind_uncaught _ _ w1 e w1) by reflexivity.
    exists []. unfold w1. cbn [fst snd out]. auto.
Qed.

End BranchEndings.
Section BranchEndings2D.
Context {cas : Libraries}.

(** One step of a branch after another: the second starts where the first
    ended normally. *)
Lemma bind_shape (m : M unit) (k : unit -> M unit) w l :
  fst (m w) = Done tt ->
  out (snd (m w)) = (out w ++ l)%list ->
  exists w1, bind m k w = k tt w1 /\ out w1 = (out w ++ l)%list.
Proof.
  intros Hd Ho. destruct (m w) as [o w1] eqn:E. cbn [fst snd] in *. subst o.
  exists w1. split; [now apply bind_done | exact Ho].
Qed.

(** Lines 118-214: the 2D branch ends exactly as [lambdify] at line 152
    does, normally when it returns and by its exception when it raises; no
    failure of any other library call, in any step, ends the branch early.
    After its header the branch shows its five step titles, each once and
    in the order of the source, whatever the steps report; when [lambdify]
    raises it shows the first three and ends at the plot. *)
Theorem branch_2d_shape (expr : Expr) (w : world) :
  exists l,
    fst (analyze_2d expr w) =
      match lambdify2 (x, y) expr with Ok _ => Done tt | Raise e => Uncaught e end /\
    out (snd (analyze_2d expr w)) = (out w ++ Header header_2d :: l)%list /\
    titles l =
      match lambdify2 (x, y) expr with
      | Ok _ => titles_2d
      | Raise _ => firstn 3 titles_2d
      end.
Proof.
  unfold analyze_2d.
  rewrite (bind_done _ _ w tt {| out := out w ++ [Header header_2d];
                                 derivative := derivative w |}) by reflexivity.
  set (w0 := {| out := out w ++ [Header header_2d]; derivative := derivative w |}).
  destruct (continuity_2d_shape expr w0) as [l1 [D1 [O1 T1]]].
  destruct (bind_shape _ (fun _ => bind (differentiability_2d expr) (fun _ =>
              bind (plot_2d expr) (fun _ => bind (radial_2d expr) (fun _ =>
              critical_points_2d expr)))) _ _ D1 O1) as [w1 [-> E1]].
  destruct (differentiability_2d_shape expr w1) as [l2 [D2 [O2 T2]]].
  destruct (bind_shape _ (fun _ => bind (plot_2d expr) (fun _ =>
              bind (radial_2d expr) (fun _ => critical_points_2d expr)))
              _ _ D2 O2) as [w2 [-> E2]].
  destruct (plot_2d_shape expr w2) as [l3 [D3 [O3 T3]]].
  destruct (lambdify2 (x, y) expr) as [f_np | e].
  - destruct (bind_shape _ (fun _ => bind (radial_2d expr) (fun _ =>
                critical_points_2d expr)) _ _ D3 O3) as [w3 [-> E3]].
    destruct (radial_2d_shape expr w3) as [l4 [D4 [O4 T4]]].
    destruct (bind_shape _ (fun _ => critical_points_2d expr) _ _ D4 O4)
      as [w4 [-> E4]].
    destruct (critical_points_2d_shape expr w4) as [l5 [D5 [O5 T5]]].
    exists ((Subheader "Continuity" :: l1) ++
            (Subheader "Differentiability & Partial Derivatives" :: l2) ++
            (Subheader "🌀 3D Plot" :: l3) ++
            (Subheader limits_title :: l4) ++
            (Subheader critical_title :: l5))%list.
    split; [exact D5 |]. split.
    + rewrite O5, E4, E3, E2, E1. unfold w0. cbn [out].
      rewrite <- !app_assoc. reflexivity.
    + rewrite !titles_app. cbn [titles flat_map].
      fold (titles l1) (titles l2) (titles l3) (titles l4) (titles l5).
      rewrite T1, T2, T3, T4, T5. reflexivity.
  - destruct (plot_2d expr w2) as [o3 w3] eqn:S3. cbn [fst snd] in *. subst o3.
    rewrite (bind_uncaught _ _ _ _ _ S3).
    exists ((Subheader "Continuity" :: l1) ++
            (Subheader "Differentiability & Partial Derivatives" :: l2) ++
            (Subheader "🌀 3D Plot" :: l3))%list.
    split; [reflexivity |]. split.
    + cbn [snd]. rewrite O3, E2, E1. unfold w0. cbn [out].
      rewrite <- !app_assoc. reflexivity.
    + rewrite !titles_app. cbn [titles flat_map].
      fold (titles l1) (titles l2) (titles l3).
      rewrite T1, T2, T3. reflexivity.
Qed.

End BranchEndings2D.


Section BranchEndings1D.
Context {cas : Libraries}.

Lemma fst_bind {A B} (m : M A) (k : A -> M B) w :
  fst (bind m k w) =
    match fst (m w) with
    | Done a => fst (k a (snd (m w)))
    | Uncaught e => Uncaught e
    | Stopped => Stopped
    end.
Proof. unfold bind. now destruct (m w) as [[a | e |] w1]. Qed.

Lemma fst_recovers (m : M unit) w : recovers m -> fst (m w) = Done tt.
Proof. intros H. destruct (H w) as [[] E]. exact E. Qed.

(** Lines 62-73: how the plot step of the 1D branch ends. *)
Lemma plot_1d_outcome expr w :
  fst (plot_1d expr w) =
    match lambdify1 x expr with
    | Raise e => Uncaught e
    | Ok f_np =>
        match rmap (sample_1d f_np) (linspace (-10) 10 400) with
        | Raise e => Uncaught e
        | Ok y_vals =>
            match pyplot (LinePlot (linspace (-10) 10 400) y_vals (str expr)) with
            | Raise e => Uncaught e
            | Ok _ => Done tt
            end
        end
    end.
Proof.
  unfold plot_1d, show_figure. rewrite !fst_bind. cbn [fst snd emit].
  unfold call at 1. destruct (lambdify1 x expr) as [f_np | e]; [| reflexivity].
  cbn [fst snd]. cbv zeta. rewrite !fst_bind. unfold call at 1.
  destruct (rmap (sample_1d f_np) (linspace (-10) 10 400)) as [y_vals | e];
    [| reflexivity].
  cbn [fst snd]. rewrite !fst_bind. unfold call at 1.
  destruct (pyplot (LinePlot (linspace (-10) 10 400) y_vals (str expr)))
    as [[] | e]; reflexivity.
Qed.

(** Lines 103-113: how the report of the extrema ends. *)
Lemma report_extrema_outcome min_pts max_pts w :
  fst (report_extrema min_pts max_pts w) =
    match min_pts with
    | [] =>
        match max_pts with
        | [] => Done tt
        | _ :: _ => match py_max max_pts with Ok _ => Done tt | Raise e => Uncaught e end
        end
    | _ :: _ =>
        match py_min min_pts with
        | Raise e => Uncaught e
        | Ok _ =>
            match max_pts with
            | [] => Done tt
            | _ :: _ =>
                match py_max max_pts with Ok _ => Done tt | Raise e => Uncaught e end
            end
        end
    end.
Proof.
  unfold report_extrema. rewrite fst_bind.
  destruct min_pts as [| a mins].
  - cbn [fst snd emit]. destruct max_pts as [| b maxs]; [reflexivity |].
    rewrite fst_bind. unfold call at 1.
    destruct (py_max (b :: maxs)); reflexivity.
  - rewrite fst_bind. unfold call at 1.
    destruct (py_min (a :: mins)) as [best |]; [| reflexivity].
    cbn [fst snd emit]. destruct max_pts as [| b maxs]; [reflexivity |].
    rewrite fst_bind. unfold call at 1.
    destruct (py_max (b :: maxs)); reflexivity.
Qed.

(** Lines 86-113: how the extrema step ends. *)
Lemma extrema_1d_outcome expr w :
  fst (extrema_1d expr w) =
    match diff expr [x] with
    | Raise e => Uncaught e
    | Ok f_prime =>
        match diff f_prime [x] with
        | Raise e => Uncaught e
        | Ok f_double =>
            match solve f_prime x with
            | Raise e => Uncaught e
            | Ok critical_points =>
                fst (report_extrema
                       (fst (classify_1d expr f_double critical_points [] []))
                       (snd (classify_1d expr f_double critical_points [] []))
                       w)
            end
        end
    end.
Proof.
  unfold extrema_1d. rewrite !fst_bind. cbn [fst snd emit].
  unfold call at 1. destruct (diff expr [x]) as [f_prime | e]; [| reflexivity].
  cbn [fst snd]. rewrite !fst_bind. unfold call at 1.
  destruct (diff f_prime [x]) as [f_double | e]; [| reflexivity].
  cbn [fst snd]. rewrite !fst_bind. unfold call at 1.
  destruct (solve f_prime x) as [cps | e]; [| reflexivity].
  cbn [fst snd].
  destruct (classify_1d expr f_double cps [] []) as [mins maxs]. cbn [fst snd].
  rewrite !report_extrema_outcome. reflexivity.
Qed.

(** The 1D branch either runs to its end or is ended by an exception that
    one of its unguarded library calls raised: the continuity domain,
    [lambdify], a sample, the drawing of the figure, the two derivatives and
    the roots of the extrema step, or a comparison inside [min] or [max].
    No failure inside the differentiability, derivative or limits steps
    ends the branch, and the branch never stops the script. *)
Theorem branch_1d_ends (expr : Expr) (w : world) :
  fst (analyze_1d expr w) = Done tt \/
  exists e, fst (analyze_1d expr w) = Uncaught e /\ unguarded_failure_1d expr e.
Proof.
  destruct (guarded_steps_recover expr) as [R1 [R2 [R3 _]]].
  unfold analyze_1d. rewrite fst_bind. cbn [fst snd emit].
  rewrite fst_bind.
  match goal with |- context [continuity_1d expr ?w0] => set (w1 := w0) end.
  destruct (continuous_domain expr x Reals) as [d | e] eqn:Ec.
  2:{ right. exists e. split; [| now left].
      unfold continuity_1d at 1, bind at 1, call at 1. now rewrite Ec. }
  rewrite (continuity_1d_event expr d w1 Ec). cbn [fst snd].
  rewrite fst_bind, (fst_recovers _ _ R1).
  rewrite fst_bind, (fst_recovers _ _ R2).
  rewrite fst_bind, plot_1d_outcome.
  destruct (lambdify1 x expr) as [f_np | e] eqn:El.
  2:{ right. exists e. split; [reflexivity | right; now left]. }
  destruct (rmap (sample_1d f_np) (linspace (-10) 10 400)) as [y_vals | e] eqn:Es.
  2:{ right. exists e. split; [reflexivity |]. right; right; left. eauto. }
  destruct (pyplot (LinePlot (linspace (-10) 10 400) y_vals (str expr)))
    as [[] | e] eqn:Ep.
  2:{ right. exists e. split; [reflexivity |]. right; right; right; left. eauto. }
  rewrite fst_bind, (fst_recovers _ _ R3).
  rewrite extrema_1d_outcome.
  destruct (diff expr [x]) as [f_prime | e] eqn:E1.
  2:{ right. exists e. split; [reflexivity |]. do 4 right. now left. }
  destruct (diff f_prime [x]) as [f_double | e] eqn:E2.
  2:{ right. exists e. split; [reflexivity |]. do 5 right. left. eauto. }
  destruct (solve f_prime x) as [cps | e] eqn:E3.
  2:{ right. exists e. split; [reflexivity |]. do 6 right. left. eauto. }
  rewrite report_extrema_outcome.
  assert (Hlast : forall e,
            (fst (classify_1d expr f_double cps [] []) <> [] /\
             py_min (fst (classify_1d expr f_double cps [] [])) = Raise e) \/
            (snd (classify_1d expr f_double cps [] []) <> [] /\
             py_max (snd (classify_1d expr f_double cps [] [])) = Raise e) ->
            unguarded_failure_1d expr e).
  { intros e H. do 7 right. exists f_prime, f_double, cps. auto. }
  destruct (fst (classify_1d expr f_double cps [] [])) as [| a mins];
    destruct (snd (classify_1d expr f_double cps [] [])) as [| b maxs].
  - now left.
  - destruct (py_max (b :: maxs)) as [best | e] eqn:EM; [now left |].
    right. exists e. split; [reflexivity |]. apply Hlast. right. split; congruence.
  - destruct (py_min (a :: mins)) as [best | e] eqn:Em; [now left |].
    right. exists e. split; [reflexivity |]. apply Hlast. left. split; congruence.
  - destruct (py_min (a :: mins)) as [best | e] eqn:Em.
    + destruct (py_max (b :: maxs)) as [best' | e] eqn:EM; [now left |].
      right. exists e. split; [reflexivity |]. apply Hlast. right. split; congruence.
    + right. exists e. split; [reflexivity |]. apply Hlast. left. split; congruence.
Qed.

Lemma analyze_1d_never_stops expr : never_stops (analyze_1d expr).
Proof.
  unfold analyze_1d, continuity_1d, differentiability_1d, derivative_display_1d,
    plot_1d, show_figure, limits_1d, extrema_1d, report_extrema.
  frame.
Qed.

Lemma analyze_2d_never_stops expr : never_stops (analyze_2d expr).
Proof.
  unfold analyze_2d, continuity_2d, differentiability_2d, plot_2d, show_figure,
    radial_2d, critical_points_2d, classify_2d.
  frame.
Qed.

(** The script stops at [st.stop()] exactly when [sympify] raised: no
    branch and no step stops it, and an exception anywhere else never
    turns into a stop. *)
Theorem stops_exactly_on_parse_failure (equation : string) :
  fst (run equation) = Stopped <-> exists e, sympify equation = Raise e.
Proof.
  split.
  - intros H. destruct (sympify equation) as [expr | e] eqn:E; [| eauto].
    exfalso. rewrite (run_parsed _ _ E), dispatch_cases in H.
    destruct (sym_in x (free_symbols expr) && negb (sym_in y (free_symbols expr))).
    + exact (analyze_1d_never_stops expr _ H).
    + destruct (sym_in x (free_symbols expr) && sym_in y (free_symbols expr)).
      * exact (analyze_2d_never_stops expr _ H).
      * discriminate.
  - intros [e E]. unfold run, fresh. now rewrite (script_unparsed _ _ _ E).
Qed.

End BranchEndings1D.


(** ** Ties between candidates *)

Section Ties.
Context {cas : Libraries}.

(** The scan of [min] and [max] with the part of the list already seen:
    the running best is below everything before it and not above anything
    after it. *)
Lemma best_from_first cmp num rest : forall l1 b0 l2 best,
  orders cmp num (l1 ++ b0 :: l2 ++ rest) ->
  Forall (fun a => num (snd b0) < num (snd a)) l1 ->
  Forall (fun a => num (snd b0) <= num (snd a)) l2 ->
  best_from cmp b0 rest = Ok best ->
  exists l1' l2',
    (l1 ++ b0 :: l2 ++ rest)%list = (l1' ++ best :: l2')%list /\
    Forall (fun a => num (snd best) < num (snd a)) l1' /\
    Forall (fun a => num (snd best) <= num (snd a)) l2'.
Proof.
  induction rest as [| item rest IH]; intros l1 b0 l2 best Hord H1 H2 E.
  - cbn in E. inversion E; subst. exists l1, l2. rewrite app_nil_r. auto.
  - cbn [best_from] in E.
    destruct (Hord item b0) as [r [Er Hr]].
    { apply in_or_app. right. right. apply in_or_app. right. now left. }
    { apply in_or_app. right. now left. }
    rewrite Er in E. destruct r.
    + assert (Hlt : num (snd item) < num (snd b0)) by now apply Hr.
      assert (Eq : ((l1 ++ b0 :: l2) ++ item :: [] ++ rest)%list =
                   (l1 ++ b0 :: l2 ++ item :: rest)%list).
      { rewrite <- app_assoc. reflexivity. }
      destruct (IH (l1 ++ b0 :: l2)%list item [] best) as [l1' [l2' [El [F1 F2]]]].
      * rewrite Eq. exact Hord.
      * apply Forall_app. split; [| constructor].
        -- eapply Forall_impl; [| exact H1]. intros a Ha.
           eapply Qlt_trans; eauto.
        -- exact Hlt.
        -- eapply Forall_impl; [| exact H2]. intros a Ha.
           eapply Qlt_le_trans; eauto.
      * constructor.
      * exact E.
      * exists l1', l2'. split; auto. rewrite <- El. now rewrite Eq.
    + assert (Hge : num (snd b0) <= num (snd item)).
      { apply Qnot_lt_le. intro Hlt. apply Hr in Hlt. discriminate. }
      destruct (IH l1 b0 (l2 ++ [item])%list best) as [l1' [l2' [El [F1 F2]]]].
      * rewrite <- app_assoc. exact Hord.
      * exact H1.
      * apply Forall_app. split; auto.
      * exact E.
      * exists l1', l2'. split; auto. rewrite <- El, <- app_assoc. reflexivity.
Qed.

(** Lines 104 and 110: among candidates of equal value, [min] and [max]
    return the one that comes first in the list.  Everything before the
    candidate returned is strictly worse, and nothing after it is better.
    The comparisons of the library are assumed to order the candidates'
    values as the rationals [num] gives them. *)
Theorem ties_go_to_the_first (num : Expr -> Q) (l : list (Expr * Expr)) :
  ordered_by num l ->
  (forall best, py_min l = Ok best ->
     exists l1 l2, l = (l1 ++ best :: l2)%list /\
       Forall (fun a => num (snd best) < num (snd a)) l1 /\
       Forall (fun a => num (snd best) <= num (snd a)) l2) /\
  (forall best, py_max l = Ok best ->
     exists l1 l2, l = (l1 ++ best :: l2)%list /\
       Forall (fun a => num (snd a) < num (snd best)) l1 /\
       Forall (fun a => num (snd a) <= num (snd best)) l2).
Proof.
  intros Hord. destruct l as [| a l]; [split; intros best E; discriminate E |].
  split; intros best E; cbn [py_min py_max] in E.
  - apply (best_from_first lt num l [] a [] best); auto.
    intros p q Hp Hq. exact (proj1 (Hord p q Hp Hq)).
  - destruct (best_from_first gt (fun e => - num e) l [] a [] best)
      as [l1 [l2 [El [F1 F2]]]]; auto.
    { intros p q Hp Hq. destruct (proj2 (Hord p q Hp Hq)) as [r [Er Hr]].
      exists r. split; auto. rewrite Hr. split; intro H.
      - now apply Qopp_lt_compat.
      - apply Qopp_lt_compat in H. now rewrite !Qopp_involutive in H. }
    exists l1, l2. split; [exact El |]. split.
    + eapply Forall_impl; [| exact F1]. cbn beta. intros c H.
      apply Qopp_lt_compat in H. now rewrite !Qopp_involutive in H.
    + eapply Forall_impl; [| exact F2]. cbn beta. intros c H.
      apply Qopp_le_compat in H. now rewrite !Qopp_involutive in H.
Qed.

End Ties.

Lemma minicas_tied_ordered : @ordered_by minicas minicas_value tied_minima.
Proof.
  intros a b Ha Hb.
  destruct Ha as [<- | [<- | []]], Hb as [<- | [<- | []]];
    (split; exists false; (split; [reflexivity |]); cbn;
     (split; [discriminate | intro H; exfalso; revert H; apply Qlt_irrefl])).
Qed.

(** Of the two minima of ["x**4 - 2*x**2"], at [x = -1] and [x = 1], the
    first is returned. *)
Lemma ties_go_to_the_first_witness :
  exists l2,
    tied_minima = (MiniCAS.Rat (-1), MiniCAS.Float (-1)) :: l2 /\
    Forall (fun a => minicas_value (MiniCAS.Float (-1)) <= minicas_value (snd a)) l2.
Proof.
  destruct (proj1 (@ties_go_to_the_first minicas minicas_value tied_minima
                     minicas_tied_ordered)
              (MiniCAS.Rat (-1), MiniCAS.Float (-1)) eq_refl)
    as [l1 [l2 [El [F1 F2]]]].
  destruct l1 as [| c l1].
  - exists l2. split; [exact El | exact F2].
  - exfalso. inversion El; subst. inversion F1 as [| c' l' Hc Hl]; subst.
    exact (Qlt_irrefl _ Hc).
Defined.

(** ** The data of the line plot *)

Section LinePlot.
Context {cas : Libraries}.

(** Lines 62-73, when the plot is shown: the figure holds the 400 points
    of [np.linspace(-10, 10, 400)] and one value for each, which is what the
    function returned there when that is finite and [nan] otherwise, so that
    no infinity reaches the figure; the label is the text of the
    expression. *)
Theorem line_plot_data (expr : Expr) (f_np : Q -> result npfloat) (w : world) :
  lambdify1 x expr = Ok f_np ->
  fst (plot_1d expr w) = Done tt ->
  exists y_vals,
    out (snd (plot_1d expr w)) =
      (out w ++ [Subheader plot_title;
                 Pyplot (LinePlot (linspace (-10) 10 400) y_vals (str expr))])%list /\
    List.length y_vals = 400%nat /\
    Forall (fun t => t <> PInf /\ t <> NInf) y_vals /\
    forall i v,
      nth_error (linspace (-10) 10 400) i = Some v ->
      exists t, f_np v = Ok t /\
                nth_error y_vals i = Some (if isfinite t then t else NaN).
Proof.
  intros El Hd. rewrite plot_1d_outcome, El in Hd.
  destruct (rmap (sample_1d f_np) (linspace (-10) 10 400)) as [y_vals | e] eqn:Es;
    [| discriminate].
  destruct (pyplot (LinePlot (linspace (-10) 10 400) y_vals (str expr)))
    as [[] | e] eqn:Ep; [| discriminate].
  exists y_vals.
  assert (Hlen : List.length y_vals = 400%nat).
  { rewrite (rmap_length _ _ _ Es). exact (proj1 sample_points_1d). }
  assert (Hnth : forall i v,
             nth_error (linspace (-10) 10 400) i = Some v ->
             exists t, f_np v = Ok t /\
                       nth_error y_vals i = Some (if isfinite t then t else NaN)).
  { intros i v Hi. exact (line_samples_masked _ _ _ _ _ Es Hi). }
  split; [| split; [exact Hlen | split; [| exact Hnth]]].
  - unfold plot_1d, show_figure, bind, call, emit. rewrite El.
    cbn -[linspace]. rewrite Es. cbn -[linspace]. rewrite Ep.
    cbn -[linspace]. now rewrite <- app_assoc.
  - apply Forall_forall. intros t Ht.
    destruct (In_nth_error _ _ Ht) as [i Hi].
    destruct (nth_error (linspace (-10) 10 400) i) as [v |] eqn:Hv.
    + destruct (Hnth i v Hv) as [t' [_ Hi']].
      rewrite Hi in Hi'. inversion Hi'; subst.
      destruct t'; cbn; split; discriminate.
    + exfalso. apply nth_error_None in Hv.
      assert (Hlt : (i < List.length y_vals)%nat).
      { apply nth_error_Some. congruence. }
      rewrite Hlen in Hlt. rewrite (proj1 sample_points_1d) in Hv.
      apply (PeanoNat.Nat.lt_irrefl i). eapply PeanoNat.Nat.lt_le_trans; eauto.
Qed.

End LinePlot.

(** ["1/(x + 10)"]: the plot is shown, and the sample at the pole
    [x = -10] is [nan]. *)
Lemma line_plot_data_witness :
  exists y_vals,
    out (snd (@plot_1d minicas pole_on_line (@fresh minicas))) =
      [Subheader plot_title;
       Pyplot (LinePlot (linspace (-10) 10 400) y_vals "1/(x + 10)")] /\
    Forall (fun t => t <> PInf /\ t <> NInf) y_vals /\
    nth_error y_vals 0 = Some NaN.
Proof.
  destruct (@line_plot_data minicas pole_on_line
              (fun a => MiniCAS.np_eval [(x, Fin a)] pole_on_line)
              (@fresh minicas) eq_refl)
    as [y_vals [E [_ [F N]]]].
  - vm_compute. reflexivity.
  - exists y_vals. split; [exact E |]. split; [exact F |].
    destruct (N 0%nat (-10) eq_refl) as [t [Et Ht]].
    rewrite Ht. vm_compute in Et. inversion Et. reflexivity.
Defined.

(** ** The steps of the 2D branch that stand inside a [try] *)

Section GuardedSteps2D.
Context {cas : Libraries}.

(** Lines 184-214: after its title the step shows exactly one of three
    things and ends normally: the single "could not find" warning, when a
    derivative or the solver raised; the "no critical points" message, when
    the solver returned none; or one event per critical point, in the
    solver's order.  The events of the points and the warning are never
    shown together: the second derivatives are all computed before the
    first point is looked at, and nothing raised at a point leaves the
    loop. *)
Theorem critical_points_2d_all_or_warning (expr : Expr) (w : world) :
  exists l,
    critical_points_2d expr w =
      (Done tt,
       {| out := out w ++ Subheader critical_title :: l;
          derivative := derivative w |}) /\
    ((l = [critical_points_failed] /\
      ((exists e, gradient_roots expr = Raise e) \/
       (exists pts e, gradient_roots expr = Ok pts /\ pts <> [] /\
                      second_partials expr = Raise e))) \/
     (l = [no_critical_points] /\ gradient_roots expr = Ok []) \/
     (exists pts f_xx f_yy f_xy,
        gradient_roots expr = Ok pts /\ pts <> [] /\
        second_partials expr = Ok (f_xx, f_yy, f_xy) /\
        l = map (report_2d expr f_xx f_yy f_xy) pts)).
Proof.
  unfold critical_points_2d, try_except, gradient_roots, second_partials, rbind.
  rewrite (bind_done _ _ w tt {| out := out w ++ [Subheader critical_title];
                                 derivative := derivative w |}) by reflexivity.
  set (w1 := {| out := out w ++ [Subheader critical_title];
                derivative := derivative w |}).
  assert (Hfail : forall e : exn,
            emit (Warning "Could not find critical points.") w1 =
              (Done tt,
               {| out := out w ++ Subheader critical_title :: [critical_points_failed];
                  derivative := derivative w |})).
  { intros _. unfold emit, w1. cbn. now rewrite <- app_assoc. }
  unfold bind at 1, call at 1.
  destruct (diff expr [x]) as [gx | e].
  2:{ exists [critical_points_failed]. split; [now apply Hfail |]. left. eauto. }
  unfold bind at 1, call at 1.
  destruct (diff expr [y]) as [gy | e].
  2:{ exists [critical_points_failed]. split; [now apply Hfail |]. left. eauto. }
  unfold bind at 1, call at 1.
  destruct (solve_system [gx; gy] (x, y)) as [pts | e].
  2:{ exists [critical_points_failed]. split; [now apply Hfail |]. left. eauto. }
  destruct pts as [| pt pts].
  { exists [no_critical_points]. split.
    - unfold emit, w1. cbn. now rewrite <- app_assoc.
    - right. left. auto. }
  assert (Hne : pt :: pts <> []) by discriminate.
  unfold bind at 1, call at 1.
  destruct (diff expr [x; x]) as [f_xx | e].
  2:{ exists [critical_points_failed]. split; [now apply Hfail |].
      left. split; [reflexivity |]. right. eauto. }
  unfold bind at 1, call at 1.
  destruct (diff expr [y; y]) as [f_yy | e].
  2:{ exists [critical_points_failed]. split; [now apply Hfail |].
      left. split; [reflexivity |]. right. eauto. }
  unfold bind at 1, call at 1.
  destruct (diff expr [x; y]) as [f_xy | e].
  2:{ exists [critical_points_failed]. split; [now apply Hfail |].
      left. split; [reflexivity |]. right. eauto. }
  exists (map (report_2d expr f_xx f_yy f_xy) (pt :: pts)). split.
  - rewrite classify_all_events. unfold w1. cbn [out derivative].
    now rewrite <- app_assoc.
  - right. right. exists (pt :: pts), f_xx, f_yy, f_xy. auto.
Qed.

Lemma continuity_2d_event expr dx dy w :
  continuous_domain expr x Reals = Ok dx ->
  continuous_domain expr y Reals = Ok dy ->
  continuity_2d expr w =
    (Done tt,
     {| out := out w ++ [Subheader "Continuity"; continuity_verdict_2d dx dy];
        derivative := derivative w |}).
Proof.
  intros Ex Ey.
  unfold continuity_2d, continuity_verdict_2d, gaps_2d, try_except, bind, call, emit.
  cbn [out derivative fst snd]. rewrite Ex, Ey.
  destruct (truthy (is_EmptySet
              (set_union (set_sub whole_line dx) (set_sub whole_line dy))));
    cbn; now rewrite <- app_assoc.
Qed.

(** Lines 122-132: with the domains [dx] and [dy] of continuity along
    each axis, the step shows the "continuous" verdict exactly when both
    are the whole line, and otherwise the warning that prints the union of
    the two complements, whose members are the reals outside [dx] or
    outside [dy].  Points of the [x] axis and of the [y] axis are put into
    one set of reals.  Membership ([contains]) is the meaning of the
    library's sets; the library is assumed to compute the differences and
    the union and to decide the emptiness of the result correctly. *)
Theorem continuity_verdict_2d_meaning
    (expr : Expr) (dx dy : RSet) (w : world)
    (point : Type) (contains : RSet -> point -> bool) :
  continuous_domain expr x Reals = Ok dx ->
  continuous_domain expr y Reals = Ok dy ->
  (forall r, contains (set_sub whole_line dx) r = negb (contains dx r)) ->
  (forall r, contains (set_sub whole_line dy) r = negb (contains dy r)) ->
  (forall r, contains (gaps_2d dx dy) r =
             contains (set_sub whole_line dx) r || contains (set_sub whole_line dy) r) ->
  (truthy (is_EmptySet (gaps_2d dx dy)) = true <->
   forall r, contains (gaps_2d dx dy) r = false) ->
  continuity_2d expr w =
    (Done tt,
     {| out := out w ++ [Subheader "Continuity"; continuity_verdict_2d dx dy];
        derivative := derivative w |}) /\
  (continuity_verdict_2d dx dy = Success "✅ Continuous over ℝ²." <->
   forall r, contains dx r = true /\ contains dy r = true) /\
  (~ (forall r, contains dx r = true /\ contains dy r = true) ->
   continuity_verdict_2d dx dy =
     Warning ("⚠️ Discontinuities along: `" ++ str_set (gaps_2d dx dy) ++ "`") /\
   forall r, contains (gaps_2d dx dy) r = true <->
             contains dx r = false \/ contains dy r = false).
Proof.
  intros Ex Ey Hx Hy Hu Hempty.
  assert (Hgap : forall r, contains (gaps_2d dx dy) r =
                           negb (contains dx r) || negb (contains dy r)).
  { intros r. now rewrite Hu, Hx, Hy. }
  assert (Hiff : truthy (is_EmptySet (gaps_2d dx dy)) = true <->
                 forall r, contains dx r = true /\ contains dy r = true).
  { rewrite Hempty. split; intros H r; specialize (H r); rewrite Hgap in *.
    - apply orb_false_iff in H. destruct H as [H1 H2].
      now rewrite negb_false_iff in H1, H2.
    - destruct H as [-> ->]. reflexivity. }
  split; [now apply continuity_2d_event |].
  unfold continuity_verdict_2d.
  destruct (truthy (is_EmptySet (gaps_2d dx dy))) eqn:T.
  - split.
    + split; [intros _; now apply Hiff | reflexivity].
    + intros Hn. exfalso. apply Hn. now apply Hiff.
  - split.
    + split; [discriminate |]. intros H. apply Hiff in H. discriminate.
    + intros _. split; [reflexivity |].
      intros r. rewrite Hgap, orb_true_iff, !negb_true_iff. reflexivity.
Qed.

End GuardedSteps2D.

(** ["y/(x + 10)"]: continuous along [y] everywhere, along [x] except at
    [-10]; the set shown is [{-10}]. *)
Lemma continuity_verdict_2d_witness :
  @continuity_2d minicas pole_on_grid (@fresh minicas) =
    (Done tt,
     {| out := [Subheader "Continuity"; Warning "⚠️ Discontinuities along: `{-10}`"];
        derivative := None |}) /\
  forall r : Q,
    minicas_contains (@gaps_2d minicas (MiniCAS.AllBut [-10]) (MiniCAS.AllBut [])) r = true
    <-> r == -10.
Proof.
  assert (Hout : ~ (forall r : Q,
                      minicas_contains (MiniCAS.AllBut [-10]) r = true /\
                      minicas_contains (MiniCAS.AllBut []) r = true)).
  { intros H. destruct (H (-10)) as [H1 _]. discriminate H1. }
  destruct (@continuity_verdict_2d_meaning minicas pole_on_grid
              (MiniCAS.AllBut [-10]) (MiniCAS.AllBut [])
              (@fresh minicas) Q minicas_contains eq_refl eq_refl)
    as [E [_ Hw]].
  - intros r. cbn. now rewrite orb_false_r, negb_involutive.
  - intros r. reflexivity.
  - intros r. cbn. now rewrite !orb_false_r.
  - split; [discriminate |]. intros H. specialize (H (-10)). discriminate H.
  - split; [exact E |].
    destruct (Hw Hout) as [_ Hmem]. intros r. rewrite Hmem.
    cbn. rewrite orb_false_r, negb_false_iff.
    split.
    + intros [H | H]; [now apply Qeq_bool_iff | discriminate].
    + intros H. left. now apply Qeq_bool_iff.
Defined.

(** ** The derivative of the 1D branch *)

Section DerivativeSteps.
Context {cas : Libraries}.

(** Lines 42-59: the two steps end normally, and the derivative is shown
    whenever [diff] returned it, also when the domain of the derivative
    could not be computed and the differentiability step gave up.  When
    [diff] raised, line 57 reads a name that line 44 did not assign: it
    shows the "could not compute" warning in a namespace without
    [derivative], and the value left there otherwise. *)
Theorem derivative_shown_whenever_computed (expr : Expr) (w : world) :
  bind (differentiability_1d expr) (fun _ => derivative_display_1d) w =
    (Done tt,
     {| out := out w ++
          [Subheader "Differentiability"; differentiability_verdict expr;
           Subheader "📌 Derivative"; derivative_shown (diff expr [x]) (derivative w)];
        derivative :=
          match diff expr [x] with
          | Ok d => Some d
          | Raise _ => derivative w
          end |}).
Proof.
  unfold differentiability_1d, derivative_display_1d, differentiability_verdict,
    derivative_shown, try_except, bind, call, emit, assign_derivative,
    read_derivative.
  cbn [out derivative fst snd].
  destruct (diff expr [x]) as [d | e]; cbn [out derivative fst snd].
  - destruct (continuous_domain d x Reals) as [dd | e]; cbn [out derivative fst snd].
    + destruct (truthy (is_EmptySet (set_sub whole_line dd)));
        cbn [out derivative fst snd]; now rewrite <- !app_assoc.
    + now rewrite <- !app_assoc.
  - destruct (derivative w) as [d0 |]; cbn [out derivative fst snd];
      now rewrite <- !app_assoc.
Qed.

(** Line 44 is the only assignment of [derivative]: after a run the
    variable holds [d] exactly when the text parsed to an expression of [x]
    without [y], the continuity step before it did not raise, and [diff]
    returned [d]. *)
Theorem derivative_assigned_only_by_diff (equation : string) (d : Expr) :
  derivative (snd (run equation)) = Some d <->
  exists expr dom,
    sympify equation = Ok expr /\
    sym_in x (free_symbols expr) = true /\
    sym_in y (free_symbols expr) = false /\
    continuous_domain expr x Reals = Ok dom /\
    diff expr [x] = Ok d.
Proof.
  assert (H1d : forall expr,
            derivative (snd (analyze_1d expr at_dispatch)) = Some d <->
            exists dom, continuous_domain expr x Reals = Ok dom /\
                        diff expr [x] = Ok d).
  { intros expr.
    destruct (continuous_domain expr x Reals) as [dom | e] eqn:Ec.
    2:{ rewrite (continuity_failure_aborts_1d _ _ _ Ec). cbn.
        split; [discriminate | intros [dom [H _]]; discriminate]. }
    unfold analyze_1d.
    rewrite (bind_done _ _ at_dispatch tt
               {| out := out at_dispatch ++ [Header header_1d];
                  derivative := derivative at_dispatch |}) by reflexivity.
    rewrite (bind_done _ _ _ _ _ (continuity_1d_event expr dom _ Ec)).
    pose proof (after_differentiability_keeps expr) as Hrest.
    set (rest := bind derivative_display_1d _) in *.
    unfold differentiability_1d, try_except, bind at 1 2 3 4 5, call, emit,
      assign_derivative.
    cbn [out derivative fst snd at_dispatch].
    destruct (diff expr [x]) as [d' | e]; cbn [out derivative fst snd].
    - destruct (continuous_domain d' x Reals) as [dd | e];
        cbn [out derivative fst snd];
        [destruct (truthy (is_EmptySet (set_sub whole_line dd))) |];
        rewrite Hrest; cbn [derivative];
        (split; [intros H; inversion H; subst; eauto
                | intros [dom' [_ H]]; inversion H; reflexivity]).
    - rewrite Hrest. cbn [derivative].
      split; [discriminate | intros [dom' [_ H]]; discriminate]. }
  destruct (sympify equation) as [expr | e] eqn:E.
  - rewrite (run_parsed _ _ E), dispatch_cases.
    destruct (sym_in x (free_symbols expr)) eqn:Hx,
             (sym_in y (free_symbols expr)) eqn:Hy; cbn [andb negb].
    + rewrite analyze_2d_keeps. cbn.
      split; [discriminate |].
      intros [expr' [dom [H [_ [H' _]]]]]. inversion H; subst. congruence.
    + rewrite H1d. split.
      * intros [dom [Hc Hd]]. exists expr, dom. auto.
      * intros [expr' [dom [H [_ [_ [Hc Hd]]]]]]. inversion H; subst. eauto.
    + cbn. split; [discriminate |].
      intros [expr' [dom [H [H' _]]]]. inversion H; subst. congruence.
    + cbn. split; [discriminate |].
      intros [expr' [dom [H [H' _]]]]. inversion H; subst. congruence.
  - unfold run, fresh. rewrite (script_unparsed _ _ _ E). cbn.
    split; [discriminate | intros [expr [dom [H _]]]; discriminate].
Qed.

End DerivativeSteps.

(** ** The sample points *)

Section SamplePoints.

Lemma linspace_points (a b : Q) (m : nat) (q : Q) :
  In q (linspace a b (S (S m))) ->
  exists i : nat,
    q == a + inject_Z (Z.of_nat i) * ((b - a) / inject_Z (Z.of_nat (S m))).
Proof.
  unfold linspace. intros H. apply in_map_iff in H. destruct H as [i [E _]].
  exists i. rewrite <- E. apply Qred_correct.
Qed.

(** Lines 64 and 154: an even number of evenly spaced points from [-c] to
    [c] never contains zero.  With 400 points on the line and 100 along
    each axis of the grid, the function is never evaluated at [x = 0] or at
    [y = 0]. *)
Theorem even_grid_misses_zero (c : Q) (n : nat) (q : Q) :
  0 < c -> Nat.even n = true -> In q (linspace (- c) c n) -> ~ q == 0.
Proof.
  intros Hc Hn Hin Hq.
  destruct n as [| [| m]]; [destruct Hin | discriminate Hn |].
  destruct (linspace_points _ _ _ _ Hin) as [i Hi].
  rewrite Hq in Hi.
  set (I := inject_Z (Z.of_nat i)) in *.
  set (Mq := inject_Z (Z.of_nat (S m))) in *.
  assert (HM : ~ Mq == 0).
  { unfold Mq. intros H. change 0 with (inject_Z 0) in H.
    apply (proj1 (inject_Z_injective _ _)) in H. discriminate H. }
  assert (E : c * (inject_Z 2 * I - Mq) == (- c + I * ((c - - c) / Mq)) * Mq).
  { field. exact HM. }
  rewrite <- Hi, Qmult_0_l in E.
  apply Qmult_integral in E. destruct E as [E | E].
  - rewrite E in Hc. exact (Qlt_irrefl _ Hc).
  - unfold I, Mq, Qminus in E. rewrite <- inject_Z_mult, <- inject_Z_opp, <- inject_Z_plus in E.
    change 0 with (inject_Z 0) in E. apply (proj1 (inject_Z_injective _ _)) in E.
    rewrite Nat.even_succ in Hn. apply Nat.odd_spec in Hn. destruct Hn as [k Hk].
    lia.
Qed.

End SamplePoints.

(** Neither [np.linspace(-10, 10, 400)] nor [np.linspace(-10, 10, 100)]
    has the point [0]. *)
Lemma even_grid_misses_zero_witness :
  ~ In 0 (linspace (-10) 10 400) /\ ~ In 0 (linspace (-10) 10 100).
Proof.
  split; intros H.
  - apply (even_grid_misses_zero 10 400 0); [reflexivity | reflexivity | exact H | reflexivity].
  - apply (even_grid_misses_zero 10 100 0); [reflexivity | reflexivity | exact H | reflexivity].
Defined.

(** ** Steps that show all of their results or none *)

Section AllOrNothing.
Context {cas : Libraries}.

(** Lines 76-83, 135-148 and 168-181: each of these steps computes all
    it needs before it shows anything, inside one [try].  So after its
    title the step shows either all of its results or the single warning
    of its handler, never a part of the results: a limit at [+oo] that was
    computed is not shown when the limit at [-oo] raises, and partial
    derivatives that were computed are not shown when the domain of one of
    them cannot be determined.  The step ends normally and leaves the
    namespace as it was. *)
Theorem guarded_steps_show_all_or_nothing (expr : Expr) (w : world) :
  (exists l,
     limits_1d expr w =
       (Done tt, {| out := out w ++ Subheader limits_title :: l;
                    derivative := derivative w |}) /\
     ((l = [Warning "Could not compute limits at infinity."] /\
       ((exists e, limit expr x oo = Raise e) \/
        (exists e, limit expr x (neg oo) = Raise e))) \/
      (exists lim_pos lim_neg,
         limit expr x oo = Ok lim_pos /\ limit expr x (neg oo) = Ok lim_neg /\
         l = [Write ("Limit as x → ∞: `" ++ str lim_pos ++ "`");
              Write ("Limit as x → -∞: `" ++ str lim_neg ++ "`")]))) /\
  (exists l,
     differentiability_2d expr w =
       (Done tt,
        {| out := out w ++ Subheader "Differentiability & Partial Derivatives" :: l;
           derivative := derivative w |}) /\
     ((l = [Warning "Could not compute partial derivatives."] /\
       ((exists e, diff expr [x] = Raise e) \/ (exists e, diff expr [y] = Raise e) \/
        (exists fx e, diff expr [x] = Ok fx /\ continuous_domain fx x Reals = Raise e) \/
        (exists fy e, diff expr [y] = Ok fy /\ continuous_domain fy y Reals = Raise e))) \/
      (exists fx fy fx_dom fy_dom,
         diff expr [x] = Ok fx /\ diff expr [y] = Ok fy /\
         continuous_domain fx x Reals = Ok fx_dom /\
         continuous_domain fy y Reals = Ok fy_dom /\
         l = [if set_eqb fx_dom whole_line && set_eqb fy_dom whole_line
              then Success "✅ Function is differentiable (partials are continuous)."
              else Warning "⚠️ Function may not be differentiable everywhere.";
              Code ("∂f/∂x = " ++ str fx); Code ("∂f/∂y = " ++ str fy)]))) /\
  (exists l,
     radial_2d expr w =
       (Done tt, {| out := out w ++ Subheader limits_title :: l;
                    derivative := derivative w |}) /\
     (l = [Warning "Could not determine radial behavior."] \/
      exists radial lim_inf,
        subs expr [(x, mul (sym "r") (cos (sym "theta")));
                   (y, mul (sym "r") (sin (sym "theta")))] = Ok radial /\
        limit radial "r" oo = Ok lim_inf /\
        l = Write ("Radial limit as r → ∞: `" ++ str lim_inf ++ "`") ::
            (if expr_eqb lim_inf oo then [Warning "Function grows to ∞."]
             else if expr_eqb lim_inf (neg oo)
                  then [Warning "Function decreases to -∞."]
                  else []))).
Proof.
  split; [| split].
  - unfold limits_1d, try_except, bind, call, emit.
    cbn [out derivative fst snd].
    destruct (limit expr x oo) as [lim_pos | e]; cbn [out derivative fst snd].
    + destruct (limit expr x (neg oo)) as [lim_neg | e]; cbn [out derivative fst snd].
      * eexists. split; [rewrite <- !app_assoc; reflexivity |].
        right. exists lim_pos, lim_neg. auto.
      * eexists. split; [rewrite <- !app_assoc; reflexivity |].
        left. split; [reflexivity |]. right. eauto.
    + eexists. split; [rewrite <- !app_assoc; reflexivity |].
      left. split; [reflexivity |]. left. eauto.
  - unfold differentiability_2d, try_except, bind, call, emit.
    cbn [out derivative fst snd].
    destruct (diff expr [x]) as [fx | e] eqn:Ex; cbn [out derivative fst snd].
    2:{ eexists. split; [rewrite <- !app_assoc; reflexivity |].
        left. split; [reflexivity |]. left. eauto. }
    destruct (diff expr [y]) as [fy | e] eqn:Ey; cbn [out derivative fst snd].
    2:{ eexists. split; [rewrite <- !app_assoc; reflexivity |].
        left. split; [reflexivity |]. right. left. eauto. }
    destruct (continuous_domain fx x Reals) as [fx_dom | e] eqn:Dx;
      cbn [out derivative fst snd].
    2:{ eexists. split; [rewrite <- !app_assoc; reflexivity |].
        left. split; [reflexivity |]. right. right. left. eauto. }
    destruct (continuous_domain fy y Reals) as [fy_dom | e] eqn:Dy;
      cbn [out derivative fst snd].
    2:{ eexists. split; [rewrite <- !app_assoc; reflexivity |].
        left. split; [reflexivity |]. right. right. right. eauto. }
    exists [if set_eqb fx_dom whole_line && set_eqb fy_dom whole_line
            then Success "✅ Function is differentiable (partials are continuous)."
            else Warning "⚠️ Function may not be differentiable everywhere.";
            Code ("∂f/∂x = " ++ str fx); Code ("∂f/∂y = " ++ str fy)].
    split.
    + destruct (set_eqb fx_dom whole_line && set_eqb fy_dom whole_line);
        cbn [out derivative fst snd]; rewrite <- !app_assoc; reflexivity.
    + right. exists fx, fy, fx_dom, fy_dom. auto.
  - unfold radial_2d, try_except, bind, call, emit, ret. cbv zeta.
    cbn [out derivative fst snd].
    destruct (subs expr [(x, mul (sym "r") (cos (sym "theta")));
                         (y, mul (sym "r") (sin (sym "theta")))])
      as [radial | e] eqn:Er; cbn [out derivative fst snd].
    2:{ eexists. split; [rewrite <- !app_assoc; reflexivity |]. now left. }
    destruct (limit radial "r" oo) as [lim_inf | e] eqn:El; cbn [out derivative fst snd].
    2:{ eexists. split; [rewrite <- !app_assoc; reflexivity |]. now left. }
    exists (Write ("Radial limit as r → ∞: `" ++ str lim_inf ++ "`") ::
            (if expr_eqb lim_inf oo then [Warning "Function grows to ∞."]
             else if expr_eqb lim_inf (neg oo)
                  then [Warning "Function decreases to -∞."]
                  else [])).
    split.
    + destruct (expr_eqb lim_inf oo); [| destruct (expr_eqb lim_inf (neg oo))];
        cbn [out derivative fst snd]; rewrite <- ?app_assoc; cbn [app];
        reflexivity.
    + right. exists radial, lim_inf. auto.
Qed.

End AllOrNothing.

(** * Properties of the application *)

(** ** How the combinators of the application treat the session and the
       user file *)

Section AppFrames.
Context {cas : Libraries} {db : Accounts}.

Lemma app_bind_returned {A B} (m : App A) (k : A -> App B) w a w' :
  m w = (Returned a, w') -> app_bind m k w = k a w'.
Proof. intros E. unfold app_bind. now rewrite E. Qed.

Section Preserving.
Variable J : option bool -> option string -> option File -> Prop.

Lemma untouched_preserves {A} (m : App A) : untouched m -> preserves J m.
Proof. intros H w HJ. destruct (H w) as [-> [-> ->]]. exact HJ. Qed.

Lemma preserves_bind {A B} (m : App A) (k : A -> App B) :
  preserves J m -> (forall a, preserves J (k a)) -> preserves J (app_bind m k).
Proof.
  intros Hm Hk w HJ. unfold app_bind. specialize (Hm w HJ).
  destruct (m w) as [[a | e | |] w1]; cbn [snd] in *; auto.
  now apply Hk.
Qed.

Lemma preserves_try {A} (body : App A) (handler : exn -> App A) :
  preserves J body -> (forall e, preserves J (handler e)) ->
  preserves J (try_exception body handler).
Proof.
  intros Hb Hh w HJ. unfold try_exception. specialize (Hb w HJ).
  destruct (body w) as [[a | e | |] w1]; cbn [snd] in *; auto.
  now apply Hh.
Qed.

Lemma preserves_for_each {A} (l : list A) (body : A -> App unit) :
  (forall a, preserves J (body a)) -> preserves J (app_for_each l body).
Proof.
  intros Hb. induction l as [| a l IH]; cbn [app_for_each].
  - intros w HJ. exact HJ.
  - apply preserves_bind; auto.
Qed.

Lemma preserves_ret {A} (a : A) : preserves J (app_ret a).
Proof. intros w HJ. exact HJ. Qed.

Lemma preserves_display wd : preserves J (display wd).
Proof. intros w HJ. exact HJ. Qed.

Lemma preserves_lib {A} (r : result A) : preserves J (lib r).
Proof. intros w HJ. unfold lib. destruct r; exact HJ. Qed.

Lemma preserves_rerun {A} : preserves J (@st_rerun db A).
Proof. intros w HJ. exact HJ. Qed.

Lemma preserves_get_username : preserves J get_username.
Proof.
  intros w HJ. unfold get_username.
  destruct (session_username w) eqn:E; cbn [snd]; rewrite ?E; exact HJ.
Qed.

Lemma preserves_get_logged_in : preserves J get_logged_in.
Proof.
  intros w HJ. unfold get_logged_in.
  destruct (session_logged_in w) eqn:E; cbn [snd]; rewrite ?E; exact HJ.
Qed.

Lemma preserves_get_users : preserves J get_users.
Proof.
  intros w HJ. unfold get_users, lib.
  destruct (users_csv w) as [f |] eqn:E; [destruct (read_csv f) |];
    cbn [snd]; rewrite ?E; exact HJ.
Qed.

End Preserving.

Section Showing.
Variable p : widget -> bool.

Lemma shows_none_bind {A B} (m : App A) (k : A -> App B) :
  shows_none p m -> (forall a, shows_none p (k a)) -> shows_none p (app_bind m k).
Proof.
  intros Hm Hk w. unfold app_bind. destruct (Hm w) as [l1 [E1 F1]].
  destruct (m w) as [[a | e | |] w1]; cbn [snd] in *; eauto.
  destruct (Hk a w1) as [l2 [E2 F2]].
  exists (l1 ++ l2)%list. rewrite E2, E1, <- app_assoc, existsb_app, F1, F2. auto.
Qed.

Lemma shows_none_try {A} (body : App A) (handler : exn -> App A) :
  shows_none p body -> (forall e, shows_none p (handler e)) ->
  shows_none p (try_exception body handler).
Proof.
  intros Hb Hh w. unfold try_exception. destruct (Hb w) as [l1 [E1 F1]].
  destruct (body w) as [[a | e | |] w1]; cbn [snd] in *; eauto.
  destruct (Hh e w1) as [l2 [E2 F2]].
  exists (l1 ++ l2)%list. rewrite E2, E1, <- app_assoc, existsb_app, F1, F2. auto.
Qed.

Lemma shows_none_quiet {A} (m : App A) :
  (forall w, screen (snd (m w)) = screen w) -> shows_none p m.
Proof. intros H w. exists []. rewrite H, app_nil_r. auto. Qed.

Lemma shows_none_ret {A} (a : A) : shows_none p (app_ret a).
Proof. now apply shows_none_quiet. Qed.

Lemma shows_none_for_each {A} (l : list A) (body : A -> App unit) :
  (forall a, shows_none p (body a)) -> shows_none p (app_for_each l body).
Proof.
  intros Hb. induction l as [| a l IH]; cbn [app_for_each].
  - apply shows_none_ret.
  - apply shows_none_bind; auto.
Qed.

Lemma shows_none_display wd : p wd = false -> shows_none p (display wd).
Proof. intros H w. exists [wd]. cbn. now rewrite H. Qed.

Lemma shows_none_lib {A} (r : result A) : shows_none p (lib r).
Proof. apply shows_none_quiet. intros w. unfold lib. now destruct r. Qed.

Lemma shows_none_rerun {A} : shows_none p (@st_rerun db A).
Proof. now apply shows_none_quiet. Qed.

Lemma shows_none_set_logged_in b : shows_none p (set_logged_in b).
Proof. now apply shows_none_quiet. Qed.

Lemma shows_none_set_username u : shows_none p (set_username u).
Proof. now apply shows_none_quiet. Qed.

Lemma shows_none_get_username : shows_none p get_username.
Proof.
  apply shows_none_quiet. intros w. unfold get_username.
  now destruct (session_username w).
Qed.

Lemma shows_none_get_logged_in : shows_none p get_logged_in.
Proof.
  apply shows_none_quiet. intros w. unfold get_logged_in.
  now destruct (session_logged_in w).
Qed.

Lemma shows_none_get_users : shows_none p get_users.
Proof.
  apply shows_none_quiet. intros w. unfold get_users, lib.
  destruct (users_csv w) as [f |]; [destruct (read_csv f) |]; reflexivity.
Qed.

Lemma shows_none_write_users df : shows_none p (write_users df).
Proof.
  apply shows_none_quiet. intros w. unfold write_users.
  now destruct (to_csv df).
Qed.

End Showing.

End AppFrames.

(** One step of a proof that a computation of the application keeps an
    invariant, or shows nothing of some kind. *)
Ltac app_step :=
  cbv zeta;
  match goal with
  | |- preserves _ (app_bind _ _) => apply preserves_bind; [ | intro ]
  | |- preserves _ (try_exception _ _) => apply preserves_try; [ | intro ]
  | |- preserves _ (app_for_each _ _) => apply preserves_for_each; intro
  | |- preserves _ (display _) => apply preserves_display
  | |- preserves _ (lib _) => apply preserves_lib
  | |- preserves _ (app_ret _) => apply preserves_ret
  | |- preserves _ st_rerun => apply preserves_rerun
  | |- preserves _ get_username => apply preserves_get_username
  | |- preserves _ get_logged_in => apply preserves_get_logged_in
  | |- preserves _ get_users => apply preserves_get_users
  | |- shows_none _ (app_bind _ _) => apply shows_none_bind; [ | intro ]
  | |- shows_none _ (try_exception _ _) => apply shows_none_try; [ | intro ]
  | |- shows_none _ (app_for_each _ _) => apply shows_none_for_each; intro
  | |- shows_none _ (display _) => apply shows_none_display; reflexivity
  | |- shows_none _ (lib _) => apply shows_none_lib
  | |- shows_none _ (app_ret _) => apply shows_none_ret
  | |- shows_none _ st_rerun => apply shows_none_rerun
  | |- shows_none _ (set_logged_in _) => apply shows_none_set_logged_in
  | |- shows_none _ (set_username _) => apply shows_none_set_username
  | |- shows_none _ get_username => apply shows_none_get_username
  | |- shows_none _ get_logged_in => apply shows_none_get_logged_in
  | |- shows_none _ get_users => apply shows_none_get_users
  | |- shows_none _ (write_users _) => apply shows_none_write_users
  | |- _ (if ?b then _ else _) => destruct b
  | |- _ (match ?l with _ => _ end) => destruct l
  end.

Ltac app_frame := repeat app_step.

(** ** The loader of the analyzer *)

Section Loader.
Context {cas : Libraries} {db : Accounts}.

(** Lines 120-130, when the logout button is not pressed: the loader
    shows its greeting and then what the analyzer shows.  An exception that
    leaves the analyzer, or that reading its file raises, does not leave the
    loader: it is shown as "Error loading function analyzer" after what the
    analyzer had shown, and the run of the application goes on to its end.
    The [st.stop()] of the analyzer is not an [Exception]: it ends the run
    of the application.  The session and the user file stay as they
    were. *)
Theorem loader_contains_analysis_failures
    (ui : inputs) (w : app_world) (name : string) :
  session_username w = Some name ->
  pressed ui "🚪 Logout" None = false ->
  let analysis := run (text_value ui analyzer_input) in
  let shown := map Shown (out (snd analysis)) in
  load_function_analyzer ui w =
    match analyzer_source ui with
    | Raise e => (Returned tt, showing w (loader_head name ++ [load_failed e]))
    | Ok _ =>
        match fst analysis with
        | Done _ => (Returned tt, showing w (loader_head name ++ shown))
        | Uncaught e =>
            (Returned tt, showing w (loader_head name ++ shown ++ [load_failed e]))
        | Stopped => (Halted, showing w (loader_head name ++ shown))
        end
    end.
Proof.
  intros Hname Hlogout analysis shown. subst shown analysis.
  unfold load_function_analyzer, exec_analyzer.
  generalize (run (text_value ui analyzer_input)). intros [o wr].
  unfold app_bind, get_username, try_exception, lib, display, showing, loader_head.
  rewrite Hname, Hlogout. cbn [fst snd screen session_logged_in session_username
                               users_csv app_ret].
  destruct (analyzer_source ui) as [[] | e];
    cbn [fst snd screen session_logged_in session_username users_csv].
  - destruct o as [[] | e |];
      cbn [fst snd screen session_logged_in session_username users_csv];
      rewrite <- ?app_assoc, ?Hname; reflexivity.
  - rewrite <- ?app_assoc, ?Hname. reflexivity.
Qed.

End Loader.

(** The text ["x + z"] typed by a logged-in user: the [TypeError] that
    ends the 1D branch at its plot is the last thing on the screen, and the
    run of the application ends normally. *)
Lemma loader_contains_failures_witness :
  fst (@load_function_analyzer minicas plain_accounts (typing "x + z")
         (logged_in_as "alice" [])) = Returned tt /\
  last (screen (snd (@load_function_analyzer minicas plain_accounts (typing "x + z")
                       (logged_in_as "alice" []))))
       (Markdown "") =
    load_failed MiniCAS.not_a_float.
Proof.
  rewrite (@loader_contains_analysis_failures minicas plain_accounts
             (typing "x + z") (logged_in_as "alice" []) "alice" eq_refl eq_refl).
  split; vm_compute; reflexivity.
Defined.

(** ** Logging in *)

Section LoggingIn.
Context {cas : Libraries} {db : Accounts}.

Lemma authenticate_user_untouched username password w :
  snd (authenticate_user username password w) = w.
Proof.
  unfold authenticate_user, get_users, check_password, app_bind, lib, app_ret.
  destruct (users_csv w) as [file |]; [| reflexivity].
  destruct (read_csv file) as [df |]; [| reflexivity].
  destruct (rows_named df username) as [[| first rest] |]; try reflexivity.
  destruct (field first "password") as [hashed |]; [| reflexivity].
  destruct (checkpw password hashed) as [[] |]; try reflexivity.
  destruct (field first "approved") as [a |]; [| reflexivity].
  destruct (cell_truth a) as [[] |]; reflexivity.
Qed.

Lemma authenticate_user_accepts username password w msg :
  fst (authenticate_user username password w) = Returned (true, msg) ->
  msg = login_ok /\ accepts (users_csv w) username password.
Proof.
  unfold authenticate_user, get_users, check_password, app_bind, lib, app_ret, accepts.
  destruct (users_csv w) as [file |]; [| discriminate].
  destruct (read_csv file) as [df |] eqn:Er; [| discriminate].
  destruct (rows_named df username) as [[| first rest] |] eqn:En;
    try (cbn [fst]; discriminate).
  destruct (field first "password") as [hashed |] eqn:Eh; [| discriminate].
  destruct (checkpw password hashed) as [[] |] eqn:Ec; try (cbn [fst]; discriminate).
  destruct (field first "approved") as [a |] eqn:Ea; [| discriminate].
  destruct (cell_truth a) as [[] |] eqn:Et; try (cbn [fst]; discriminate).
  cbn [fst]. intros H. inversion H. split; [reflexivity |].
  exists file, df, first, rest, hashed, a. auto 10.
Qed.

(** Lines 46-54: [authenticate_user] answers "Login successful." exactly
    when the user file has a row of that name whose first such row has a
    hash the password matches and is approved; rows of the same name
    further down play no part.  The function changes neither the session
    nor the user file. *)
Theorem login_needs_an_approved_first_row
    (username password : string) (w : app_world) :
  snd (authenticate_user username password w) = w /\
  forall msg,
    fst (authenticate_user username password w) = Returned (true, msg) <->
    msg = login_ok /\ accepts (users_csv w) username password.
Proof.
  split; [apply authenticate_user_untouched |].
  intros msg. split; [apply authenticate_user_accepts |].
  intros [-> (file & df & first & rest & hashed & a & Ef & Er & En & Eh & Ec & Ea & Et)].
  unfold authenticate_user, get_users, check_password, app_bind, lib, app_ret.
  rewrite Ef, Er, En, Eh, Ec, Ea, Et. reflexivity.
Qed.

End LoggingIn.

(** ** The session across runs *)

Section Sessions.
Context {cas : Libraries} {db : Accounts}.

Lemma visits_keep (J : option bool -> option string -> option File -> Prop) :
  (forall ui, preserves J (app ui)) ->
  forall uis w,
    J (session_logged_in w) (session_username w) (users_csv w) ->
    J (session_logged_in (visits uis w)) (session_username (visits uis w))
      (users_csv (visits uis w)).
Proof.
  intros H. induction uis as [| ui uis IH]; intros w HJ; cbn [visits]; auto.
  apply IH. cbn [carry session_logged_in session_username users_csv].
  now apply H.
Qed.

Lemma visits_screen uis : forall w, screen w = [] -> screen (visits uis w) = [].
Proof.
  induction uis as [| ui uis IH]; intros w H; cbn [visits]; auto.
Qed.

Lemma never_shown_app l1 : forall l2 w,
  analyzer_never_shown (l1 ++ l2)%list w =
    analyzer_never_shown l1 w && analyzer_never_shown l2 (visits l1 w).
Proof.
  induction l1 as [| ui l1 IH]; intros l2 w;
    cbn [List.app analyzer_never_shown visits]; [reflexivity |].
  now rewrite IH, andb_assoc.
Qed.

(** Line 10: whatever is typed, the first thing the analyzer shows is its
    title. *)
Lemma run_shows_title equation :
  exists l, out (snd (run equation)) = Title "📈 Function Analyzer" :: l.
Proof.
  destruct (sympify equation) as [expr | e] eqn:E.
  - rewrite (run_parsed _ _ E), dispatch_cases.
    destruct (sym_in x (free_symbols expr) && negb (sym_in y (free_symbols expr))).
    + destruct (analyze_1d_headers expr at_dispatch) as [l [-> _]]. cbn. eauto.
    + destruct (sym_in x (free_symbols expr) && sym_in y (free_symbols expr)).
      * destruct (analyze_2d_headers expr at_dispatch) as [l [-> _]]. cbn. eauto.
      * cbn. eauto.
  - unfold run, fresh. rewrite (script_unparsed _ _ _ E). cbn. eauto.
Qed.

Section Names.
Variable n : option string.

Lemma set_logged_in_keeps_name b :
  preserves (name_kept_or_cleared n) (set_logged_in b).
Proof. intros w H. exact H. Qed.

Lemma clearing_the_name : preserves (name_kept_or_cleared n) (set_username "").
Proof. intros w _. right. reflexivity. Qed.

Lemma write_users_keeps_name df :
  preserves (name_kept_or_cleared n) (write_users df).
Proof. intros w H. unfold write_users. destruct (to_csv df); exact H. Qed.

(** Lines 70-88: the admin panel changes the name of the session only by
    its logout. *)
Lemma admin_panel_keeps_name ui :
  preserves (name_kept_or_cleared n) (admin_panel ui).
Proof.
  unfold admin_panel, pending_row, approve_user, logout.
  repeat first
    [ apply set_logged_in_keeps_name
    | apply clearing_the_name
    | apply write_users_keeps_name
    | app_step ].
Qed.

Lemma save_user_keeps_name username password salt :
  preserves (name_kept_or_cleared n) (save_user username password salt).
Proof.
  unfold save_user, hash_password.
  repeat first [ apply write_users_keeps_name | app_step ].
Qed.

End Names.

Lemma login_page_no_admin_title ui : shows_none is_admin_title (login_page ui).
Proof.
  unfold login_page, authenticate_user, save_user, check_password, hash_password.
  app_frame.
Qed.

Lemma display_then {A} wd (k : unit -> App A) w :
  app_bind (display wd) k w = k tt (showing w [wd]).
Proof. reflexivity. Qed.

(** Lines 91-117: the login page gives the session a name only when the
    login form is submitted and [authenticate_user] lets the name in, and
    the name is the one typed into the form. *)
Lemma login_page_names ui w :
  name_kept_or_cleared (session_username w)
    (session_logged_in (snd (login_page ui w)))
    (session_username (snd (login_page ui w)))
    (users_csv (snd (login_page ui w))) \/
  (radio_choice ui = "Login" /\ pressed ui "Login" None = true /\
   session_username (snd (login_page ui w)) = Some (text_value ui "Username") /\
   accepts (users_csv w) (text_value ui "Username") (text_value ui "Password")).
Proof.
  unfold login_page.
  destruct (String.eqb (radio_choice ui) "Login") eqn:Er.
  - apply String.eqb_eq in Er. rewrite !display_then.
    destruct (pressed ui "Login" None) eqn:Ep; [| left; left; reflexivity].
    match goal with |- context [app_bind (authenticate_user ?a ?b) _ ?w3] =>
      pose proof (authenticate_user_untouched a b w3) as Hw;
      pose proof (authenticate_user_accepts a b w3) as Ha;
      unfold app_bind;
      destruct (authenticate_user a b w3) as [[[ok msg] | e | |] w4]
    end; cbn [fst snd] in *; subst w4; try (left; left; reflexivity).
    destruct ok; [| left; left; reflexivity].
    right. destruct (Ha msg eq_refl) as [_ Hacc].
    repeat split; auto.
  - left.
    match goal with
    | |- name_kept_or_cleared ?n (session_logged_in (snd (?m w))) _ _ =>
        assert (H : preserves (name_kept_or_cleared n) m)
    end.
    { repeat first [ apply save_user_keeps_name | app_step ]. }
    apply H. left. reflexivity.
Qed.

(** Lines 120-130: a run of the loader that does not show the analyzer
    changes the name of the session only by its logout, and shows nothing
    of the admin panel. *)
Lemma loader_without_analyzer ui w :
  existsb is_analyzer_title (screen (snd (load_function_analyzer ui w))) = false ->
  name_kept_or_cleared (session_username w)
    (session_logged_in (snd (load_function_analyzer ui w)))
    (session_username (snd (load_function_analyzer ui w)))
    (users_csv (snd (load_function_analyzer ui w))) /\
  exists l, screen (snd (load_function_analyzer ui w)) = (screen w ++ l)%list /\
            existsb is_admin_title l = false.
Proof.
  unfold load_function_analyzer, logout, app_bind, get_username, display,
    set_logged_in, set_username, st_rerun, try_exception, lib, app_ret,
    exec_analyzer, name_kept_or_cleared.
  destruct (session_username w) as [name |] eqn:En.
  2:{ intros _. cbn [snd]. rewrite En. split; [now left |].
      exists []. now rewrite app_nil_r. }
  cbn [fst snd screen session_logged_in session_username users_csv].
  destruct (pressed ui "🚪 Logout" None).
  { intros _.
    cbn [fst snd screen session_logged_in session_username users_csv].
    split; [now right |]. rewrite <- !app_assoc. eexists. split; [reflexivity |].
    reflexivity. }
  cbn [fst snd screen session_logged_in session_username users_csv].
  destruct (analyzer_source ui) as [[] | e].
  - destruct (run_shows_title (text_value ui analyzer_input)) as [l El].
    destruct (run (text_value ui analyzer_input)) as [o wr].
    cbn [fst snd] in *. intros H. exfalso.
    destruct o as [[] | e |];
      cbn [fst snd screen session_logged_in session_username users_csv] in H;
      rewrite El, !existsb_app in H; cbn in H;
      rewrite ?orb_true_r in H; discriminate H.
  - intros _.
    cbn [fst snd screen session_logged_in session_username users_csv].
    rewrite En. split; [now left |].
    rewrite <- !app_assoc. eexists. split; [reflexivity |]. reflexivity.
Qed.

(** Lines 7-60: a run reaches the routing with the page configuration
    shown and the session initialised, unless the user file could not be
    created. *)
Lemma app_at_route ui w :
  (exists e,
     app ui w = (Raised e, showing w [PageConfig "Function Analyzer" "wide"])) \/
  (exists w1 u1 b1,
     app ui w = route ui w1 /\
     screen w1 = (screen w ++ [PageConfig "Function Analyzer" "wide"])%list /\
     session_username w1 = Some u1 /\
     (session_username w = Some u1 \/ session_username w = None /\ u1 = "") /\
     session_logged_in w1 = Some b1 /\
     (session_logged_in w = Some b1 \/ session_logged_in w = None /\ b1 = false) /\
     users_csv w1 = users_csv (snd (init_users w))).
Proof.
  unfold app, app_bind, display, init_users, write_users, init_session, showing.
  cbn [fst snd screen session_logged_in session_username users_csv].
  assert (Hs : exists u1 b1,
            match session_username w with Some u => Some u | None => Some "" end
              = Some u1 /\
            (session_username w = Some u1 \/ session_username w = None /\ u1 = "") /\
            match session_logged_in w with Some b => Some b | None => Some false end
              = Some b1 /\
            (session_logged_in w = Some b1 \/
             session_logged_in w = None /\ b1 = false)).
  { destruct (session_username w) as [u |], (session_logged_in w) as [b |];
      eexists; eexists; repeat split; auto. }
  destruct Hs as (u1 & b1 & H1 & H2 & H3 & H4).
  destruct (users_csv w) as [f |] eqn:Ef.
  - right. eexists. exists u1, b1. split; [reflexivity |].
    cbn [fst snd screen session_logged_in session_username users_csv].
    rewrite Ef. auto 10.
  - destruct (to_csv no_users) as [f | e].
    + right. eexists. exists u1, b1. split; [reflexivity |].
      cbn [fst snd screen session_logged_in session_username users_csv]. auto 10.
    + left. exists e. reflexivity.
Qed.

(** Lines 133-138. *)
Lemma route_cases ui w u b :
  session_username w = Some u -> session_logged_in w = Some b ->
  route ui w =
    if String.eqb u "admin" then admin_panel ui w
    else if negb b then login_page ui w
    else load_function_analyzer ui w.
Proof.
  intros En El. unfold route, app_bind, get_username, get_logged_in.
  rewrite En. destruct (String.eqb u "admin"); [reflexivity |].
  rewrite El. now destruct b.
Qed.

(** One run that does not show the analyzer: the session has a name after
    it only when it had the name before it, or when the run logged in under
    the name. *)
Lemma app_names ui w u :
  existsb is_analyzer_title (screen (snd (app ui w))) = false ->
  session_username (snd (app ui w)) = Some u -> u <> "" ->
  session_username w = Some u \/ logs_in ui w u.
Proof.
  intros Hno Hu Hne.
  destruct (app_at_route ui w)
    as [[e E] | (w1 & u1 & b1 & E & Es & En & Hn & El & Hl & Ef)];
    rewrite E in Hu, Hno.
  { left. exact Hu. }
  assert (Hkept : name_kept_or_cleared (session_username w1)
                    (session_logged_in (snd (route ui w1)))
                    (session_username (snd (route ui w1)))
                    (users_csv (snd (route ui w1))) ->
                  session_username w = Some u).
  { intros [K | K]; rewrite K in Hu.
    - rewrite En in Hu. inversion Hu; subst u1.
      destruct Hn as [Hn | [_ Hn]]; [exact Hn | now contradiction Hne].
    - inversion Hu as [Hu']. symmetry in Hu'. now contradiction Hne. }
  clear E. rewrite (route_cases ui w1 u1 b1 En El) in Hu, Hno, Hkept.
  destruct (String.eqb u1 "admin") eqn:Ea.
  { left. apply Hkept. apply admin_panel_keeps_name. left. reflexivity. }
  destruct b1; cbn [negb] in Hu, Hno, Hkept.
  - left. apply Hkept. now apply loader_without_analyzer.
  - destruct (login_page_names ui w1) as [K | (Hr & Hp & Hname & Hacc)].
    + left. now apply Hkept.
    + right. rewrite Hname in Hu. inversion Hu; subst u.
      rewrite Ef in Hacc.
      repeat split; auto.
      * intros H. destruct Hn as [Hn | [Hn _]]; rewrite Hn in H;
          [| discriminate H].
        inversion H; subst u1. discriminate Ea.
      * intros H. destruct Hl as [Hl | [Hl _]]; rewrite Hl in H; discriminate H.
Qed.

(** One run that does not show the analyzer: it shows the admin panel
    only to a session that arrives under the name "admin". *)
Lemma admin_panel_needs_the_name ui w :
  existsb is_admin_title (screen w) = false ->
  existsb is_analyzer_title (screen (snd (app ui w))) = false ->
  existsb is_admin_title (screen (snd (app ui w))) = true ->
  session_username w = Some "admin".
Proof.
  intros Hbefore Hno Hshown.
  destruct (app_at_route ui w)
    as [[e E] | (w1 & u1 & b1 & E & Es & En & Hn & El & Hl & Ef)];
    rewrite E in Hshown, Hno.
  { exfalso. cbn [snd showing screen] in Hshown.
    rewrite existsb_app, Hbefore in Hshown. discriminate Hshown. }
  clear E. rewrite (route_cases ui w1 u1 b1 En El) in Hshown, Hno.
  destruct (String.eqb u1 "admin") eqn:Ea.
  { apply String.eqb_eq in Ea. subst u1.
    destruct Hn as [Hn | [_ Hn]]; [exact Hn | discriminate Hn]. }
  destruct b1; cbn [negb] in Hshown, Hno; exfalso.
  - destruct (loader_without_analyzer ui w1 Hno) as [_ [l [Hl' Fl]]].
    rewrite Hl', Es, !existsb_app, Hbefore, Fl in Hshown. discriminate Hshown.
  - destruct (login_page_no_admin_title ui w1) as [l [Hl' Fl]].
    rewrite Hl', Es, !existsb_app, Hbefore, Fl in Hshown. discriminate Hshown.
Qed.

(** The runs of a session in which the analyzer is never shown: the
    session has a name after them only when it had the name to begin with,
    or when one of the runs logged in under the name. *)
Lemma names_come_from_logins u : u <> "" ->
  forall uis w,
    analyzer_never_shown uis w = true ->
    session_username (visits uis w) = Some u ->
    session_username w = Some u \/
    exists before ui0 after,
      uis = (before ++ ui0 :: after)%list /\ logs_in ui0 (visits before w) u.
Proof.
  intros Hne. induction uis as [| ui uis IH]; intros w Hno Hu.
  { left. exact Hu. }
  cbn [analyzer_never_shown visits] in Hno, Hu.
  apply andb_true_iff in Hno. destruct Hno as [Hno1 Hno2].
  apply negb_true_iff in Hno1.
  destruct (IH _ Hno2 Hu) as [K | (before & ui0 & after & -> & K)].
  - cbn [carry session_username] in K.
    destruct (app_names ui w u Hno1 K Hne) as [K' | K']; [now left |].
    right. exists [], ui, uis. split; [reflexivity | exact K'].
  - right. exists (ui :: before), ui0, after. split; [reflexivity | exact K].
Qed.

(** Lines 57-67, 100-106 and 133-138: the routing shows the admin panel
    on the name of the session alone, and the name is set only by a login
    that [authenticate_user] accepts, to the name typed into the login
    form.  So in a session that arrives without a name and whose runs so
    far have not run the analyzer (where the text typed is handed to
    [sympify]), the admin panel is shown only after a run that showed the
    login page and logged in under the name "admin", with a password that
    the first row of that name in the user file matches and that is
    approved. *)
Theorem admin_panel_only_after_admin_login
    (f : option File) (uis : list inputs) (ui : inputs) :
  analyzer_never_shown (uis ++ [ui])%list (arrival f) = true ->
  existsb is_admin_title (screen (snd (app ui (visits uis (arrival f))))) = true ->
  exists before ui0 after,
    uis = (before ++ ui0 :: after)%list /\
    logs_in ui0 (visits before (arrival f)) "admin".
Proof.
  intros Hno Hshown.
  rewrite never_shown_app in Hno. apply andb_true_iff in Hno.
  destruct Hno as [Hno Hlast]. cbn [analyzer_never_shown] in Hlast.
  rewrite andb_true_r in Hlast. apply negb_true_iff in Hlast.
  assert (Hname : session_username (visits uis (arrival f)) = Some "admin").
  { apply (admin_panel_needs_the_name ui); auto.
    now rewrite visits_screen. }
  destruct (names_come_from_logins "admin" ltac:(discriminate) uis (arrival f)
              Hno Hname) as [K | K]; [discriminate K | exact K].
Qed.

End Sessions.

(** The administrator, approved in the user file, logs in, and the next
    run shows the admin panel. *)
Lemma admin_panel_after_login_witness :
  existsb is_admin_title
    (screen (snd (@app minicas plain_accounts (typing "")
                    (@visits minicas plain_accounts [admin_login]
                       (@arrival plain_accounts (Some with_admin)))))) = true /\
  exists before ui0 after,
    [admin_login] = (before ++ ui0 :: after)%list /\
    @logs_in plain_accounts ui0
      (@visits minicas plain_accounts before
         (@arrival plain_accounts (Some with_admin))) "admin".
Proof.
  split; [vm_compute; reflexivity |].
  apply (@admin_panel_only_after_admin_login minicas plain_accounts
           (Some with_admin) [admin_login] (typing "")).
  - vm_compute. reflexivity.
  - vm_compute. reflexivity.
Defined.

(** ** Nobody is approved to begin with *)

Section Lockout.
Context {cas : Libraries} {db : Accounts}.

(** The two facts about pandas that the property rests on: the empty
    table, and a table with one more row that is not approved, read back
    from the file, approve nobody. *)
Hypothesis empty_file_locked :
  forall f, to_csv no_users = Ok f -> locked (Some f).
Hypothesis new_user_locked :
  forall f df u h df' f',
    locked (Some f) -> read_csv f = Ok df ->
    add_user df u h = Ok df' -> to_csv df' = Ok f' ->
    locked (Some f').

Lemma init_users_locked : preserves locked_out init_users.
Proof.
  intros w [Hl [Hu Hf]]. unfold init_users, write_users.
  destruct (users_csv w) as [f |] eqn:E; cbn [snd].
  - rewrite E. now repeat split.
  - destruct (to_csv no_users) as [f |] eqn:T; cbn.
    + repeat split; auto.
    + rewrite E. now repeat split.
Qed.

Lemma init_session_locked : preserves locked_out init_session.
Proof.
  intros w [Hl [Hu Hf]]. cbn.
  split; [| split; [| exact Hf]].
  - right. destruct Hl as [-> | ->]; reflexivity.
  - right. destruct Hu as [-> | ->]; reflexivity.
Qed.

Lemma save_user_locked username password salt :
  preserves locked_out (save_user username password salt).
Proof.
  intros w [Hl [Hu Hf]].
  unfold save_user, get_users, hash_password, write_users, app_bind, lib, app_ret.
  destruct (users_csv w) as [f |] eqn:E; [| cbn; rewrite E; now repeat split].
  destruct (read_csv f) as [df |] eqn:Er; [| cbn; rewrite E; now repeat split].
  destruct (has_username df username) as [[] |];
    try (cbn; rewrite E; now repeat split).
  destruct (hashpw password salt) as [h |]; [| cbn; rewrite E; now repeat split].
  destruct (add_user df username h) as [df' |] eqn:Ea;
    [| cbn; rewrite E; now repeat split].
  destruct (to_csv df') as [f' |] eqn:Et; [| cbn; rewrite E; now repeat split].
  cbn. repeat split; auto. eapply new_user_locked; eauto.
Qed.

Lemma login_attempt_locked username password (K1 K2 : bool * string -> App unit) :
  (forall a, preserves locked_out (K2 a)) ->
  preserves locked_out
    (app_bind (authenticate_user username password)
       (fun answer => if fst answer then K1 answer else K2 answer)).
Proof.
  intros HK w HJ. unfold app_bind.
  pose proof (authenticate_user_untouched username password w) as Hw.
  pose proof (authenticate_user_accepts username password w) as Ha.
  destruct (authenticate_user username password w) as [[[b msg] | e | |] w1];
    cbn [fst snd] in *; subst w1; auto.
  destruct b; [| now apply HK].
  exfalso. destruct (Ha msg eq_refl) as [_ Hacc].
  destruct HJ as [_ [_ Hf]].
  destruct Hacc as (file & df & first & rest & hashed & a & Ef & Er & En & _ & _ & Ea & Et).
  exact (Hf file df username first rest a Ef Er En Ea Et).
Qed.

Lemma login_page_locked ui : preserves locked_out (login_page ui).
Proof.
  unfold login_page.
  repeat first
    [ apply login_attempt_locked; intro
    | apply save_user_locked
    | app_step ].
Qed.

Lemma route_locked ui : preserves locked_out (route ui).
Proof.
  intros w HJ. pose proof HJ as [Hl [Hu Hf]].
  unfold route, app_bind, get_username, get_logged_in.
  destruct Hu as [Eu | Eu]; rewrite Eu; [cbn [snd]; exact HJ |].
  cbn [String.eqb Ascii.eqb Bool.eqb].
  destruct Hl as [El | El]; rewrite El; [cbn [snd]; exact HJ |].
  cbn [negb]. now apply login_page_locked.
Qed.

Lemma app_locked ui : preserves locked_out (app ui).
Proof.
  unfold app.
  apply preserves_bind; [apply preserves_display | intros _].
  apply preserves_bind; [apply init_users_locked | intros _].
  apply preserves_bind; [apply init_session_locked | intros _].
  apply route_locked.
Qed.

(** The whole of [app.py]: approval is granted only from the admin panel,
    the admin panel is shown only to a session that logged in as "admin",
    and a login succeeds only on an approved row.  So when the user file
    approves nobody, in particular when it does not exist before the first
    run, no sequence of signups, logins and button presses ever logs anyone
    in or approves anyone; the first approval has to be written into the
    file by other means. *)
Theorem nobody_gets_in_without_an_approved_row
    (f : option File) (uis : list inputs) :
  locked f ->
  let w := visits uis (arrival f) in
  session_logged_in w <> Some true /\ locked (users_csv w).
Proof.
  intros Hf w. subst w.
  destruct (visits_keep locked_out app_locked uis (arrival f)) as [Hl [_ Hk]].
  - cbn. split; [now left | split; [now left | exact Hf]].
  - split; [| exact Hk]. destruct Hl as [-> | ->]; discriminate.
Qed.

End Lockout.

Lemma plain_locked_first (df : list PlainAccounts.account) :
  (forall u first rest,
     filter (fun r => String.eqb (PlainAccounts.name_of r) u) df = first :: rest ->
     PlainAccounts.approved first = false) ->
  @locked plain_accounts (Some df).
Proof.
  intros H file df' u first rest a Ef Er En Ea Et.
  inversion Ef; subst file. cbn in Er. inversion Er; subst df'.
  cbn in En. unfold PlainAccounts.rows_named in En. inversion En as [En'].
  cbn in Ea. inversion Ea; subst a. cbn in Et.
  rewrite (H u first rest En') in Et. discriminate Et.
Qed.

Lemma plain_first_locked (df : list PlainAccounts.account) u first rest :
  @locked plain_accounts (Some df) ->
  filter (fun r => String.eqb (PlainAccounts.name_of r) u) df = first :: rest ->
  PlainAccounts.approved first = false.
Proof.
  intros H E.
  destruct (PlainAccounts.approved first) eqn:A; [exfalso | reflexivity].
  apply (H df df u first rest (PlainAccounts.Flag true)); try reflexivity.
  - cbn. unfold PlainAccounts.rows_named. now rewrite E.
  - cbn. unfold PlainAccounts.field. cbn. now rewrite A.
Qed.

Lemma plain_empty_file_locked :
  forall f, @to_csv plain_accounts (@no_users plain_accounts) = Ok f ->
            @locked plain_accounts (Some f).
Proof.
  intros f E. inversion E; subst f. apply plain_locked_first.
  intros u first rest H. discriminate H.
Qed.

Lemma plain_new_user_locked :
  forall f df u h df' f',
    @locked plain_accounts (Some f) -> @read_csv plain_accounts f = Ok df ->
    @add_user plain_accounts df u h = Ok df' -> @to_csv plain_accounts df' = Ok f' ->
    @locked plain_accounts (Some f').
Proof.
  intros f df u h df' f' Hf Er Ea Et.
  cbn in Er, Ea, Et. unfold PlainAccounts.add_user in Ea.
  inversion Er; subst df. inversion Ea; subst df'. inversion Et; subst f'.
  apply plain_locked_first. intros v first rest H.
  rewrite filter_app in H.
  destruct (filter (fun r => String.eqb (PlainAccounts.name_of r) v) f)
    as [| first0 rest0] eqn:F.
  - cbn in H. destruct (String.eqb u v); inversion H. reflexivity.
  - cbn in H. inversion H; subst first0.
    exact (plain_first_locked f v first rest0 Hf F).
Qed.

(** From no user file at all: "admin" signs up and tries to log in, and is
    not let in. *)
Lemma nobody_gets_in_witness :
  session_logged_in
    (@visits minicas plain_accounts
       [signup_as "admin" "secret"; login_as "admin" "secret"]
       (@arrival plain_accounts None)) <> Some true /\
  @locked plain_accounts
    (users_csv
       (@visits minicas plain_accounts
          [signup_as "admin" "secret"; login_as "admin" "secret"]
          (@arrival plain_accounts None))).
Proof.
  apply (@nobody_gets_in_without_an_approved_row minicas plain_accounts
           plain_empty_file_locked plain_new_user_locked None
           [signup_as "admin" "secret"; login_as "admin" "secret"]).
  intros file df u first rest a E. discriminate E.
Defined.

(** ** Who sees the analyzer *)

Section Access.
Context {cas : Libraries} {db : Accounts}.

Lemma admin_panel_no_analyzer ui : shows_none is_analyzer_title (admin_panel ui).
Proof.
  unfold admin_panel, pending_row, approve_user, logout, logout_button.
  app_frame.
Qed.

Lemma login_page_no_analyzer ui : shows_none is_analyzer_title (login_page ui).
Proof.
  unfold login_page, authenticate_user, save_user, check_password, hash_password.
  app_frame.
Qed.

Lemma route_no_analyzer ui w :
  session_username w = Some "admin" \/ session_logged_in w <> Some true ->
  exists l, screen (snd (route ui w)) = (screen w ++ l)%list /\
            existsb is_analyzer_title l = false.
Proof.
  intros H. unfold route, app_bind, get_username, get_logged_in.
  destruct (session_username w) as [u |] eqn:Eu.
  2:{ exists []. cbn. now rewrite app_nil_r. }
  destruct (String.eqb u "admin") eqn:Ea.
  { apply admin_panel_no_analyzer. }
  destruct H as [H | H].
  { inversion H; subst u. discriminate Ea. }
  destruct (session_logged_in w) as [[] |] eqn:El.
  - now contradiction H.
  - cbn [negb]. apply login_page_no_analyzer.
  - exists []. cbn. now rewrite app_nil_r.
Qed.

(** Lines 7-60: the run up to the routing. *)
Lemma app_unfold ui w :
  (exists e w',
     app ui w = (Raised e, w') /\
     screen w' = (screen w ++ [PageConfig "Function Analyzer" "wide"])%list /\
     users_csv w = None /\ users_csv w' = None) \/
  (exists f,
     (users_csv w = Some f \/ users_csv w = None) /\
     app ui w =
       route ui
         {| screen := screen w ++ [PageConfig "Function Analyzer" "wide"];
            session_logged_in :=
              match session_logged_in w with Some b => Some b | None => Some false end;
            session_username :=
              match session_username w with Some u => Some u | None => Some "" end;
            users_csv := Some f |}).
Proof.
  unfold app, app_bind, display, init_users, write_users, init_session.
  cbn [fst snd screen session_logged_in session_username users_csv].
  destruct (users_csv w) as [f |].
  - right. exists f. split; [now left | reflexivity].
  - destruct (to_csv no_users) as [f | e].
    + right. exists f. split; [now right | reflexivity].
    + left. exists e. eexists. repeat split; reflexivity.
Qed.

(** Lines 133-138 with lines 57-60: the analyzer is run only in a session
    that arrives logged in and not under the name "admin".  In every other
    run, whatever is pressed or typed, nothing of the analyzer is shown. *)
Theorem analyzer_only_for_logged_in_users (ui : inputs) (w : app_world) :
  existsb is_analyzer_title (screen w) = false ->
  existsb is_analyzer_title (screen (snd (app ui w))) = true ->
  session_logged_in w = Some true /\ session_username w <> Some "admin".
Proof.
  intros Hbefore Hafter.
  destruct (app_unfold ui w) as [[e [w' [E [Es _]]]] | [f [_ E]]]; rewrite E in Hafter.
  { exfalso. cbn [snd] in Hafter.
    rewrite Es, existsb_app, Hbefore in Hafter. discriminate Hafter. }
  assert (Hbad : forall w3,
            screen w3 = (screen w ++ [PageConfig "Function Analyzer" "wide"])%list ->
            session_username w3 = Some "admin" \/ session_logged_in w3 <> Some true ->
            existsb is_analyzer_title (screen (snd (route ui w3))) = false).
  { intros w3 Es Hs. destruct (route_no_analyzer ui w3 Hs) as [l [El Fl]].
    rewrite El, Es, !existsb_app, Hbefore, Fl. reflexivity. }
  destruct (session_logged_in w) as [[] |] eqn:El.
  - destruct (session_username w) as [u |] eqn:Eu.
    + destruct (String.eqb u "admin") eqn:Ea.
      * exfalso. apply String.eqb_eq in Ea. subst u.
        rewrite Hbad in Hafter; [discriminate Hafter | reflexivity | now left].
      * split; [reflexivity |]. intros H. inversion H; subst u.
        discriminate Ea.
    + split; [reflexivity | discriminate].
  - exfalso.
    rewrite Hbad in Hafter; [discriminate Hafter | reflexivity | right; discriminate].
  - exfalso.
    rewrite Hbad in Hafter; [discriminate Hafter | reflexivity | right; discriminate].
Qed.

End Access.

(** A logged-in user types ["x**2"]: the analyzer is shown. *)
Lemma analyzer_only_for_logged_in_witness :
  existsb is_analyzer_title
    (screen (snd (@app minicas plain_accounts (typing "x**2")
                    (logged_in_as "alice" [])))) = true /\
  session_logged_in (logged_in_as "alice" []) = Some true /\
  session_username (logged_in_as "alice" []) <> Some "admin".
Proof.
  split; [vm_compute; reflexivity |].
  apply (@analyzer_only_for_logged_in_users minicas plain_accounts
           (typing "x**2") (logged_in_as "alice" [])).
  - reflexivity.
  - vm_compute. reflexivity.
Defined.

(** ** What writes the user file *)

Section FileWrites.
Context {cas : Libraries} {db : Accounts}.
Variable f : File.

Lemma set_logged_in_keeps_file b : preserves (file_stays f) (set_logged_in b).
Proof. intros w H. exact H. Qed.

Lemma set_username_keeps_file u : preserves (file_stays f) (set_username u).
Proof. intros w H. exact H. Qed.

Lemma login_page_keeps_file ui :
  String.eqb (radio_choice ui) "Signup" && pressed ui "Signup" None = false ->
  preserves (file_stays f) (login_page ui).
Proof.
  intros Hc. unfold login_page, authenticate_user, check_password.
  destruct (String.eqb (radio_choice ui) "Login").
  { repeat first
      [ apply set_logged_in_keeps_file | apply set_username_keeps_file | app_step ]. }
  destruct (String.eqb (radio_choice ui) "Signup"); [| app_frame].
  cbn [andb] in Hc. rewrite Hc. app_frame.
Qed.

(** Lines 91-109 and 46-54: logging in reads the user file and never
    writes it.  In a run of a session that is neither logged in nor "admin",
    so that the login page is shown, and in which the Signup button of the
    signup form is not pressed, the file is after the run what it was
    before, whatever is typed or pressed, and whether the login succeeds,
    fails or raises. *)
Theorem login_never_writes_the_user_file (ui : inputs) (w : app_world) :
  users_csv w = Some f ->
  session_username w <> Some "admin" ->
  session_logged_in w <> Some true ->
  String.eqb (radio_choice ui) "Signup" && pressed ui "Signup" None = false ->
  users_csv (snd (app ui w)) = Some f.
Proof.
  intros Hf Hu Hl Hc.
  destruct (app_unfold ui w) as [[e [w' [E [_ [Hn _]]]]] | [f0 [Hf0 E]]].
  { congruence. }
  assert (f0 = f) by (destruct Hf0; congruence). subst f0.
  rewrite E. clear E.
  match goal with |- users_csv (snd (route ui ?w3)) = _ => set (w1 := w3) end.
  assert (Hu1 : session_username w1 <> Some "admin").
  { unfold w1. cbn. destruct (session_username w); [exact Hu | discriminate]. }
  assert (Hl1 : session_logged_in w1 <> Some true).
  { unfold w1. cbn. destruct (session_logged_in w); [exact Hl | discriminate]. }
  assert (Hf1 : file_stays f (session_logged_in w1) (session_username w1) (users_csv w1))
    by reflexivity.
  clearbody w1. unfold route, app_bind, get_username, get_logged_in.
  destruct (session_username w1) as [u |] eqn:Eu; [| exact Hf1].
  destruct (String.eqb u "admin") eqn:Ea.
  { exfalso. apply String.eqb_eq in Ea. subst u. now apply Hu1. }
  destruct (session_logged_in w1) as [[] |] eqn:El; [| | exact Hf1]; cbn [negb].
  - now contradiction Hl1.
  - apply login_page_keeps_file; [exact Hc |]. unfold file_stays. exact Hf1.
Qed.

End FileWrites.

(** The administrator logs in: the session changes and the user file is
    what it was. *)
Lemma login_never_writes_witness :
  session_logged_in (snd (@app minicas plain_accounts admin_login
                            (@arrival plain_accounts (Some with_admin)))) = Some true /\
  users_csv (snd (@app minicas plain_accounts admin_login
                    (@arrival plain_accounts (Some with_admin)))) = Some with_admin.
Proof.
  split; [vm_compute; reflexivity |].
  apply (@login_never_writes_the_user_file minicas plain_accounts with_admin
           admin_login (@arrival plain_accounts (Some with_admin))).
  - reflexivity.
  - discriminate.
  - discriminate.
  - reflexivity.
Defined.
